(** * The capacity-ledger engine of the generation dashboard

    A shallow embedding of the two variants of the Rated Capacity tab:

    - [RatedCapacityTsx]: [src/src/RatedCapacity.tsx], the snapshot store with
      storage restore, CSV ingestion of the current capacity and clamped PLF;
    - [HistoricalTab]: the second variant of the tab (the unnamed source
      file), with the CSV parser, the month normaliser and the historical
      ledger.

    JavaScript numbers are IEEE-754 binary64 values and are modelled by Rocq's
    primitive floats, which are the same type.  Strings are modelled by
    [string]; a character stands for one code unit below 256.  Integers that
    the code obtains from at most four decimal digits and only increments or
    decrements (months and years) are modelled in [Z]; the count of a loop
    is a binary64 number.  A conversion that can throw is a computation,
    whose name ends in [Call]; beside it stands the number that it gives
    when it returns. *)

From Stdlib Require Import ZArith Floats Uint63 String Ascii List Lia DecimalString.
From Stdlib Require Import Sorting.Sorted Sorting.Permutation.
From stdpp Require Import gmap strings list.

Local Open Scope Z_scope.
#[local] Set Warnings "-register-all,-inexact-float".

(** ** The platform: strings *)

Module JS.

(** White space and line terminators of ECMAScript, among the code units
    below 256: TAB, LF, VT, FF, CR, SP and NBSP. *)
Definition isWhite (c : ascii) : bool :=
  match c with
  | "009" | "010" | "011" | "012" | "013" | " " | "160" => true
  | _ => false
  end%char.

Definition isDigit (c : ascii) : bool :=
  match c with
  | "0" | "1" | "2" | "3" | "4" | "5" | "6" | "7" | "8" | "9" => true
  | _ => false
  end%char.

Definition digitVal (c : ascii) : Z :=
  Z.of_N (N_of_ascii c) - 48.

Definition isEmpty (s : string) : bool :=
  match s with EmptyString => true | _ => false end.

(** [String.prototype.trimStart], [trimEnd] and [trim]. *)
Fixpoint trimStart (s : string) : string :=
  match s with
  | String c r => if isWhite c then trimStart r else s
  | EmptyString => EmptyString
  end.

Fixpoint trimEnd (s : string) : string :=
  match s with
  | String c r =>
      let r' := trimEnd r in
      if isWhite c && isEmpty r' then EmptyString else String c r'
  | EmptyString => EmptyString
  end.

Definition trim (s : string) : string := trimEnd (trimStart s).

(** [String.prototype.toLowerCase] on one code unit below 256: the letters
    A to Z, and the capital letters from 192 to 222 (215, the multiplication
    sign, is no letter). *)
Definition lowerChar (c : ascii) : ascii :=
  let n := N_of_ascii c in
  if ((65 <=? n) && (n <=? 90))%N then ascii_of_N (n + 32)
  else if ((192 <=? n) && (n <=? 222) && negb (n =? 215))%N
  then ascii_of_N (n + 32)
  else c.

Fixpoint toLowerCase (s : string) : string :=
  match s with
  | String c r => String (lowerChar c) (toLowerCase r)
  | EmptyString => EmptyString
  end.

(** Puts a character in front of the first piece of a split. *)
Definition consHead (c : ascii) (l : list string) : list string :=
  match l with
  | h :: t => String c h :: t
  | [] => [String c EmptyString]
  end.

(** [s.split(/\r?\n/)]: a line ends at LF, or at CR immediately followed by
    LF; a lone CR is an ordinary character. *)
Fixpoint splitLines (s : string) : list string :=
  match s with
  | EmptyString => [EmptyString]
  | String c r =>
      if Ascii.eqb c "010" then EmptyString :: splitLines r
      else
        match r with
        | String c' r' =>
            if Ascii.eqb c "013" && Ascii.eqb c' "010"
            then EmptyString :: splitLines r'
            else consHead c (splitLines r)
        | EmptyString => consHead c (splitLines r)
        end
  end.

(** [s.split(sep)] for a one-character separator. *)
Fixpoint splitOn (sep : ascii) (s : string) : list string :=
  match s with
  | EmptyString => [EmptyString]
  | String c r =>
      if Ascii.eqb c sep then EmptyString :: splitOn sep r
      else consHead c (splitOn sep r)
  end.

(** [.filter(Boolean)] on an array of strings keeps the non-empty ones. *)
Definition filterBoolean (l : list string) : list string :=
  List.filter (fun s => negb (isEmpty s)) l.

(** [s.padStart(2, "0")]. *)
Definition padStart2 (s : string) : string :=
  match s with
  | EmptyString => "00"
  | String c EmptyString => String "0" s
  | _ => s
  end.

(** ** The platform: numbers *)

Abbreviation number := float.

(** The longest prefix of decimal digits, and what follows it. *)
Fixpoint takeDigits (s : string) : string * string :=
  match s with
  | String c r =>
      if isDigit c then let (d, t) := takeDigits r in (String c d, t)
      else (EmptyString, s)
  | EmptyString => (EmptyString, EmptyString)
  end.

Fixpoint allDigits (s : string) : bool :=
  match s with
  | String c r => isDigit c && allDigits r
  | EmptyString => true
  end.

(** The integer a string of decimal digits denotes, most significant digit
    first, continuing from [acc]. *)
Fixpoint digitsValue (acc : Z) (s : string) : Z :=
  match s with
  | String c r => digitsValue (10 * acc + digitVal c) r
  | EmptyString => acc
  end.

(** The value of a digit of a hexadecimal, octal or binary literal. *)
Definition hexVal (c : ascii) : option Z :=
  let n := Z.of_N (N_of_ascii c) in
  if (48 <=? n) && (n <=? 57) then Some (n - 48)
  else if (97 <=? n) && (n <=? 102) then Some (n - 87)
  else if (65 <=? n) && (n <=? 70) then Some (n - 55)
  else None.

Fixpoint radixValue (radix acc : Z) (s : string) : option Z :=
  match s with
  | String c r =>
      match hexVal c with
      | Some d => if d <? radix then radixValue radix (radix * acc + d) r else None
      | None => None
      end
  | EmptyString => Some acc
  end.

(** The binary64 value nearest to the integer [n] (ties to even). *)
Definition ofInteger (n : Z) : number :=
  SF2Prim (binary_normalize prec emax n 0 false).

(** The binary64 value nearest to [m * 10 ^ e10], for [0 <= m]. *)
Definition ofDecimal (m e10 : Z) : number :=
  match m with
  | Z.pos p =>
      if 0 <=? e10 then ofInteger (m * 10 ^ e10)
      else SF2Prim (SFdiv prec emax (S754_finite false p 0)
                          (S754_finite false (Z.to_pos (10 ^ (- e10))) 0))
  | _ => PrimFloat.zero
  end.

(** [ExponentPart] of a decimal literal: nothing, or [e] or [E], an optional
    sign and at least one digit, up to the end of the string. *)
Definition exponentPart (s : string) : option Z :=
  match s with
  | EmptyString => Some 0
  | String c r =>
      if Ascii.eqb c "e" || Ascii.eqb c "E" then
        let '(neg, ds) :=
          match r with
          | String "-" t => (true, t)
          | String "+" t => (false, t)
          | _ => (false, r)
          end in
        if allDigits ds && negb (isEmpty ds)
        then Some (if neg then - digitsValue 0 ds else digitsValue 0 ds)
        else None
      else None
  end.

(** [StrUnsignedDecimalLiteral] other than [Infinity]. *)
Definition unsignedDecimal (s : string) : option number :=
  let (ip, r1) := takeDigits s in
  let '(fp, r2) :=
    match r1 with
    | String "." t => takeDigits t
    | _ => (EmptyString, r1)
    end in
  if isEmpty ip && isEmpty fp then None
  else
    match exponentPart r2 with
    | Some e =>
        Some (ofDecimal (digitsValue (digitsValue 0 ip) fp)
                        (e - Z.of_nat (String.length fp)))
    | None => None
    end.

Definition strDecimalLiteral (s : string) : option number :=
  let '(neg, u) :=
    match s with
    | String "-" t => (true, t)
    | String "+" t => (false, t)
    | _ => (false, s)
    end in
  let v := if String.eqb u "Infinity" then Some infinity else unsignedDecimal u in
  match v with
  | Some x => Some (if neg then (- x)%float else x)
  | None => None
  end.

Definition nonDecimalIntegerLiteral (s : string) : option number :=
  match s with
  | String "0" (String p ds) =>
      let radix :=
        if Ascii.eqb p "x" || Ascii.eqb p "X" then Some 16
        else if Ascii.eqb p "o" || Ascii.eqb p "O" then Some 8
        else if Ascii.eqb p "b" || Ascii.eqb p "B" then Some 2
        else None in
      match radix with
      | Some r =>
          if isEmpty ds then None
          else match radixValue r 0 ds with
               | Some n => Some (ofInteger n)
               | None => None
               end
      | None => None
      end
  | _ => None
  end.

(** [StringToNumber]: what [Number(s)] and unary plus give on a string. *)
Definition StringToNumber (s : string) : number :=
  let t := trim s in
  if isEmpty t then PrimFloat.zero
  else
    match nonDecimalIntegerLiteral t with
    | Some x => x
    | None =>
        match strDecimalLiteral t with
        | Some x => x
        | None => nan
        end
    end.

(** [Number(s)] where it is an integer written in decimal: white space
    around an optional sign and digits, or nothing but white space, which is
    0.  Any other string gives nothing: its number is NaN or is not written
    this way, and the integer model does not cover it. *)
Definition StringToInteger (s : string) : option Z :=
  let t := trim s in
  let '(neg, ds) :=
    match t with
    | String c r =>
        if Ascii.eqb c "-" then (true, r)
        else if Ascii.eqb c "+" then (false, r)
        else (false, t)
    | EmptyString => (false, t)
    end in
  if isEmpty t then Some 0
  else if allDigits ds && negb (isEmpty ds)
  then Some (if neg then - digitsValue 0 ds else digitsValue 0 ds)
  else None.

(** [String(n)] for an integer [n]. *)
Definition IntegerToString (n : Z) : string :=
  NilZero.string_of_int (Z.to_int n).

(** The integer [z] as a number, for [|z| < 2^63]. *)
Definition ofZ (z : Z) : number :=
  if z <? 0 then (- of_uint63 (Uint63.of_Z (- z)))%float
  else of_uint63 (Uint63.of_Z z).

(** The integer that a number is, when it is one: a zero, or a finite
    [(-1)^s * m * 2^e] with no fractional part. *)
Definition integerOf (x : number) : option Z :=
  match Prim2SF x with
  | S754_zero _ => Some 0
  | S754_finite s m e =>
      let n := if 0 <=? e then Z.pos m * 2 ^ e else Z.pos m / 2 ^ (- e) in
      if (0 <=? e) || (Z.pos m mod 2 ^ (- e) =? 0)
      then Some (if s then - n else n)
      else None
  | _ => None
  end.

(** [Math.round]: the integer nearest to [x], the one towards plus infinity
    when two are equally near; NaN, the infinities, the zeros and the
    integers are returned as they are, and a negative [x] that rounds to
    zero gives the negative zero.  A finite [x] is [(-1)^s * m * 2^e]; for
    [e < 0] the result is [floor (x + 1/2)], computed exactly. *)
Definition Math_round (x : number) : number :=
  match Prim2SF x with
  | S754_finite s m e =>
      if 0 <=? e then x
      else
        let n := if s then Z.neg m else Z.pos m in
        let r := (2 * n + 2 ^ (- e)) / 2 ^ (1 - e) in
        if (r =? 0) && s then neg_zero else ofZ r
  | _ => x
  end.

Definition isNegZero (x : number) : bool := PrimFloat.is_zero x && PrimFloat.get_sign x.

(** [Math.max] and [Math.min] of two numbers: NaN if either is NaN, and the
    positive zero counts as larger than the negative zero. *)
Definition Math_max (a b : number) : number :=
  if is_nan a || is_nan b then nan
  else if (a <? b)%float then b
  else if (b <? a)%float then a
  else if isNegZero a then b else a.

Definition Math_min (a b : number) : number :=
  if is_nan a || is_nan b then nan
  else if (a <? b)%float then a
  else if (b <? a)%float then b
  else if PrimFloat.is_zero a && isNegZero b then b else a.

(** [Number.isFinite] on a number. *)
Definition Number_isFinite (x : number) : bool := is_finite x.

(** ** The platform: values *)

(** The values a record slot, a JSON text or an input can hold. *)
Inductive value : Type :=
  | VUndefined
  | VNull
  | VBool (b : bool)
  | VNum (x : number)
  | VStr (s : string)
  | VArr (items : list value)
  | VObj (props : list (string * value)).

(** The own property [k] of a parsed object, when it has one. *)
Fixpoint lookupProp (k : string) (props : list (string * value)) : option value :=
  match props with
  | (k', v) :: rest => if String.eqb k k' then Some v else lookupProp k rest
  | [] => None
  end.

(** Before [Number(v)], unary plus and the arithmetic operators convert an
    object or an array, they turn it into a primitive, and this throws a
    [TypeError] in one case.  A parsed object inherits [valueOf], which
    returns the object itself, and [toString]; when it has a property of its
    own named ["toString"], which holds no function, no method gives a
    primitive.  An array is joined, which turns each of its items into a
    string, so that it throws when an item does. *)
Fixpoint ToPrimitiveThrows (v : value) : bool :=
  match v with
  | VObj props =>
      match lookupProp "toString" props with
      | Some _ => true
      | None => false
      end
  | VArr items => existsb ToPrimitiveThrows items
  | _ => false
  end.

(** [ToNumber]: the number that [Number(v)], unary plus and the arithmetic
    operators give when the conversion to a primitive returns.  An array is
    first turned into the string that joins its items
    with commas: the empty array gives the empty string; an array of two or
    more items gives a string with a comma, which is no numeric literal; an
    array of one item gives that item's string.  [Number(String(x))] is [x]
    for a number [x], except that the negative zero prints as ["0"].  A
    plain object prints as ["[object Object]"]. *)
Fixpoint ToNumber (v : value) : number :=
  match v with
  | VUndefined => nan
  | VNull => PrimFloat.zero
  | VBool b => if b then 1%float else PrimFloat.zero
  | VNum x => x
  | VStr s => StringToNumber s
  | VArr [] => PrimFloat.zero
  | VArr [item] =>
      match item with
      | VUndefined | VNull => PrimFloat.zero
      | VBool _ => nan
      | VNum x => if isNegZero x then PrimFloat.zero else x
      | VStr s => StringToNumber s
      | VArr _ => ToNumber item
      | VObj _ => nan
      end
  | VArr _ => nan
  | VObj _ => nan
  end.

(** Truthiness ([!v] is its negation). *)
Definition truthy (v : value) : bool :=
  match v with
  | VUndefined | VNull => false
  | VBool b => b
  | VNum x => negb (is_nan x || PrimFloat.is_zero x)
  | VStr s => negb (isEmpty s)
  | VArr _ | VObj _ => true
  end.

(** [typeof v === "object"]. *)
Definition typeofObject (v : value) : bool :=
  match v with
  | VNull | VArr _ | VObj _ => true
  | _ => false
  end.

End JS.
Import JS.

(** ** The platform: durable storage, JSON and the network *)

(** A computation that returns or throws. *)
Inductive completion (A : Type) : Type :=
  | Normal (a : A)
  | Throw (error : string).
Arguments Normal {A} a.
Arguments Throw {A} error.

#[global] Instance completion_bind : MBind completion :=
  fun A B f c =>
    match c with
    | Normal a => f a
    | Throw e => Throw e
    end.

(** [try { body } catch { handler }]. *)
Definition tryCatch {A} (body : completion A) (handler : A) : A :=
  match body with
  | Normal a => a
  | Throw _ => handler
  end.

(** [Number(v)] as a computation: it throws where the conversion to a
    primitive throws. *)
Definition NumberCall (v : value) : completion number :=
  if ToPrimitiveThrows v then Throw "TypeError" else Normal (ToNumber v).

(** [localStorage]: the stored items, and whether reading and writing are
    possible at all (a browser may refuse either, and a write may exceed the
    quota); a refused access throws. *)
Record Storage : Type := {
  items : gmap string string;
  readable : bool;
  writable : bool;
}.

Definition getItem (key : string) (ls : Storage) : completion (option string) :=
  if readable ls then Normal (items ls !! key) else Throw "SecurityError".

Definition setItem (key text : string) (ls : Storage) : completion Storage :=
  if writable ls
  then Normal {| items := <[key := text]> (items ls);
                 readable := readable ls; writable := writable ls |}
  else Throw "QuotaExceededError".

(** [JSON.parse] and [JSON.stringify] are the platform's: [JSON_parse] gives
    the parsed value, or nothing when the text is no JSON text (it throws a
    [SyntaxError]). *)
Class JSON : Type := {
  JSON_parse : string → option value;
  JSON_stringify : value → string;
}.

(** How a [fetch] followed by [res.text()] can end: the request is rejected,
    or a response arrives with its [ok] flag and a body, when it can be
    read. *)
Inductive FetchResult : Type :=
  | Rejected
  | Response (ok : bool) (body : option string).

(** ** The energy sources *)

Inductive SourceKey : Type :=
  | Coal | OilGas | Nuclear | Hydro | Solar | Wind | SmallHydro | BioPower.

#[global] Instance SourceKey_eq_dec : EqDecision SourceKey.
Proof. solve_decision. Defined.

Definition SOURCES : list SourceKey :=
  [Coal; OilGas; Nuclear; Hydro; Solar; Wind; SmallHydro; BioPower].

Definition sourceName (k : SourceKey) : string :=
  match k with
  | Coal => "Coal"
  | OilGas => "Oil & Gas"
  | Nuclear => "Nuclear"
  | Hydro => "Hydro"
  | Solar => "Solar"
  | Wind => "Wind"
  | SmallHydro => "Small-Hydro"
  | BioPower => "Bio Power"
  end.

(** An object with one slot per energy source, [Record<SourceKey, A>], and
    one in which a slot may be absent, [Partial<Record<SourceKey, A>>]. *)
Definition SourceRecord (A : Type) : Type := SourceKey → A.
Definition PartialRecord (A : Type) : Type := SourceKey → option A.

(** [{ ...r, [k]: v }] and [r[k] = v]. *)
Definition setSlot {A} (r : SourceRecord A) (k : SourceKey) (v : A) : SourceRecord A :=
  fun k' => if decide (k' = k) then v else r k'.

Definition emptyRecord {A} : PartialRecord A := fun _ => None.

(** The object as a value: its slots in the order they were created, which
    is the order of [SOURCES]. *)
Definition recordProps (r : SourceRecord value) : list (string * value) :=
  List.map (fun k => (sourceName k, r k)) SOURCES.

(** [k in obj] and [obj[k]] for a source name and a parsed value: only a
    plain object can have such a property. *)
Definition propOf (obj : value) (k : SourceKey) : option value :=
  match obj with
  | VObj props => lookupProp (sourceName k) props
  | _ => None
  end.

(** ** The snapshot store with storage restore and CSV ingestion
       ([src/src/RatedCapacity.tsx]) *)

Module RatedCapacityTsx.

Definition LS_INSTALLED : string := "ratedCapacity_installed".
Definition LS_PLF : string := "ratedCapacity_plf".

(** [safeNum] as a computation: a string is trimmed and converted, anything
    else is converted, which can throw; a result that is not finite becomes
    0. *)
Definition safeNumCall (v : value) : completion number :=
  n ← match v with
      | VStr s => NumberCall (VStr (trim s))
      | _ => NumberCall v
      end;
  Normal (if Number_isFinite n then n else 0%float).

(** The number that [safeNum] returns, when it returns: on a string, a
    number, a boolean, [null] and [undefined] it always does. *)
Definition safeNum (v : value) : number :=
  let n := match v with
           | VStr s => StringToNumber (trim s)
           | _ => ToNumber v
           end in
  if Number_isFinite n then n else 0%float.

Definition round2 (n : number) : number :=
  (Math_round (n * 100) / 100)%float.

(** The data row may be shorter than the header: [values[i] ?? ""]. *)
Definition cellOr (values : list string) (i : nat) : string :=
  match values !! i with
  | Some v => v
  | None => ""
  end.

(** [parseCapacityCSV]: the first two non-blank lines are the header and
    the data row; every source must be a column. *)
Definition parseCapacityCSV (text : string) : option (SourceRecord number) :=
  let lines := filterBoolean (List.map trim (splitLines text)) in
  match lines with
  | line0 :: line1 :: _ =>
      let headers := List.map trim (splitOn "," line0) in
      let values := List.map trim (splitOn "," line1) in
      let map : gmap string string :=
        fold_left
          (fun m i => <[cellOr headers i := cellOr values i]> m)
          (seq 0 (length headers)) ∅ in
      if forallb (fun k => bool_decide (is_Some (map !! sourceName k))) SOURCES
      then Some (fun k => safeNum (match map !! sourceName k with
                                   | Some v => VStr v
                                   | None => VUndefined
                                   end))
      else None
  | _ => None
  end.

Section WithJSON.
Context `{JSON}.

(** [loadLS]: the stored object restricted to the sources it has, each slot
    coerced; nothing when the key is absent or empty, the text is no JSON,
    the parsed value is falsy or no object, or the storage or the coercion
    of a slot throws. *)
Definition loadLS (key : string) (ls : Storage) : option (PartialRecord number) :=
  tryCatch
    (raw ← getItem key ls;
     match raw with
     | None => Normal None
     | Some raw =>
         if isEmpty raw then Normal None
         else
           match JSON_parse raw with
           | None => Throw "SyntaxError"
           | Some obj =>
               if negb (truthy obj) || negb (typeofObject obj) then Normal None
               else
                 out ← fold_left
                         (fun (out : completion (PartialRecord number)) k =>
                            out ← out;
                            match propOf obj k with
                            | Some v =>
                                n ← safeNumCall v;
                                Normal (setSlot out k (Some n))
                            | None => Normal out
                            end)
                         SOURCES (Normal emptyRecord);
                 Normal (Some out)
           end
     end)
    None.

(** [saveLS]: a failed write is ignored. *)
Definition saveLS (key : string) (obj : SourceRecord number) (ls : Storage) : Storage :=
  tryCatch
    (setItem key (JSON_stringify (VObj (recordProps (fun k => VNum (obj k))))) ls)
    ls.

(** The state of the component. *)
Record State : Type := {
  installed : SourceRecord number;
  plf : SourceRecord number;
  csvLoaded : bool;
}.

(** The three [useState] initialisers. *)
Definition zeroRecord : SourceRecord number :=
  fold_left (fun base k => setSlot base k 0%float) SOURCES (fun _ => 0%float).

Definition initialState : State :=
  {| installed := zeroRecord; plf := zeroRecord; csvLoaded := true |}.

(** The updater passed to [setPlf] and [setInstalled] on restore: the slots
    the stored record has replace those of the previous state. *)
Definition overlay (stored : PartialRecord number) (prev : SourceRecord number)
  : SourceRecord number :=
  fold_left
    (fun next k =>
       match stored k with
       | Some v => setSlot next k (safeNum (VNum v))
       | None => next
       end)
    SOURCES prev.

(** What the capacity fetch does to the state when it ends. *)
Definition csvCompletion (res : FetchResult) (s : State) : State :=
  tryCatch
    (text ← match res with
            | Rejected => Throw "TypeError"
            | Response ok body =>
                if negb ok then Throw "HTTP"
                else match body with
                     | Some text => Normal text
                     | None => Throw "TypeError"
                     end
            end;
     parsed ← match parseCapacityCSV text with
              | Some parsed => Normal parsed
              | None => Throw "Parse failed"
              end;
     Normal {| installed := parsed; plf := plf s; csvLoaded := true |})
    {| installed := installed s; plf := plf s; csvLoaded := false |}.

(** How the mount effect ends: it has either finished, or it has issued the
    one request for the capacity CSV, whose completion is applied to the
    state then current. *)
Inductive Mounted : Type :=
  | Settled (s : State)
  | Fetching (s : State) (url : string) (resume : FetchResult → State → State).

(** The mount effect.  The path of the request carries a cache-busting
    query, [?v=<time>], which is left out. *)
Definition mountEffect (ls : Storage) (s : State) : Mounted :=
  let s1 :=
    match loadLS LS_PLF ls with
    | Some plfLS =>
        {| installed := installed s; plf := overlay plfLS (plf s);
           csvLoaded := csvLoaded s |}
    | None => s
    end in
  match loadLS LS_INSTALLED ls with
  | Some instLS =>
      Settled {| installed := overlay instLS (installed s1); plf := plf s1;
                 csvLoaded := true |}
  | None => Fetching s1 "/data/Capacity.csv" csvCompletion
  end.

(** The two save effects, run after every change of the record. *)
Definition saveEffects (s : State) (ls : Storage) : Storage :=
  saveLS LS_PLF (plf s) (saveLS LS_INSTALLED (installed s) ls).

End WithJSON.

(** The [onChange] handlers of the two editable rows. *)
Definition onChangeInstalled (k : SourceKey) (input : string) (s : State) : State :=
  {| installed := setSlot (installed s) k (safeNum (VStr input));
     plf := plf s; csvLoaded := csvLoaded s |}.

Definition onChangePlf (k : SourceKey) (input : string) (s : State) : State :=
  let raw := safeNum (VStr input) in
  let bounded := Math_min 100 (Math_max 0 raw) in
  {| installed := installed s; plf := setSlot (plf s) k bounded;
     csvLoaded := csvLoaded s |}.

(** The derived values. *)
Definition installedTotal (installed : SourceRecord number) : number :=
  round2 (fold_left (fun s k => (s + safeNum (VNum (installed k)))%float) SOURCES 0%float).

Definition ratedBySource (installed plf : SourceRecord number) : PartialRecord number :=
  fold_left
    (fun (out : PartialRecord number) k =>
       setSlot out k
         (Some (round2 (safeNum (VNum (installed k))
                        * (safeNum (VNum (plf k)) / 100))%float)))
    SOURCES emptyRecord.

Definition ratedTotal (rated : PartialRecord number) : number :=
  round2 (fold_left
            (fun s k => (s + safeNum (match rated k with
                                      | Some x => VNum x
                                      | None => VUndefined
                                      end))%float)
            SOURCES 0%float).

End RatedCapacityTsx.


(** ** The tab with the historical ledger (the second variant) *)

Module HistoricalTab.

Definition INST_KEY : string := "ratedCapacity_installed".
Definition PLF_KEY : string := "ratedCapacity_plf".

Definition round2 (n : number) : number :=
  (Math_round (n * 100) / 100)%float.

(** [safeNum] as a computation, and the number it returns when the
    conversion returns. *)
Definition safeNumCall (x : value) : completion number :=
  n ← NumberCall x;
  if Number_isFinite n then NumberCall x else Normal 0%float.

Definition safeNum (x : value) : number :=
  if Number_isFinite (ToNumber x) then ToNumber x else 0%float.

(** [sumSources], for an object whose values convert to numbers without
    throwing. *)
Definition sumSources (obj : SourceRecord value) : number :=
  fold_left (fun a s => (a + safeNum (obj s))%float) SOURCES 0%float.

(** *** The CSV parser *)

Definition quote : ascii := "034"%char.

(** The loop of [parseLine] over the characters that remain: a quote
    followed by a quote adds one quote and skips both; another quote flips
    [q]; a comma outside quotes ends the field. *)
Fixpoint parseLineFrom (l : string) (out : list string) (cur : string) (q : bool)
  : list string :=
  match l with
  | EmptyString => out ++ [trim cur]
  | String c r =>
      if Ascii.eqb c quote then
        match r with
        | String c' r' =>
            if Ascii.eqb c' quote
            then parseLineFrom r' out (cur +:+ String quote EmptyString) q
            else parseLineFrom r out cur (negb q)
        | EmptyString => parseLineFrom r out cur (negb q)
        end
      else if Ascii.eqb c "," && negb q
      then parseLineFrom r (out ++ [trim cur]) EmptyString q
      else parseLineFrom r out (cur +:+ String c EmptyString) q
  end.

Definition parseLine (l : string) : list string :=
  parseLineFrom l [] EmptyString false.

(** [parseCSV].  When no line is left, [lines[0]] is [undefined] and
    [parseLine] throws a [TypeError] on reading its [length]. *)
Definition parseCSV (text : string) : completion (list string * list (list string)) :=
  let lines := filterBoolean (splitLines text) in
  header ← match lines !! 0%nat with
           | Some l => Normal (parseLine l)
           | None => Throw "TypeError"
           end;
  let rows := List.map parseLine (drop 1 lines) in
  Normal (header, rows).

(** *** The month normaliser *)

(** [\d{1,2}] at the start of [s], as many digits as it can take, and the
    rest.  What follows it in each pattern is a separator, so taking fewer
    digits never gives a match that taking more does not. *)
Definition digits12 (s : string) : option (string * string) :=
  match s with
  | String a r =>
      if isDigit a then
        match r with
        | String b r' =>
            if isDigit b then Some (String a (String b EmptyString), r')
            else Some (String a EmptyString, r)
        | EmptyString => Some (String a EmptyString, r)
        end
      else None
  | EmptyString => None
  end.

(** One literal character at the start of [s], and the rest. *)
Definition literal (c : ascii) (s : string) : option string :=
  match s with
  | String c' r => if Ascii.eqb c' c then Some r else None
  | EmptyString => None
  end.

(** [(\d{4})$]: the whole of [s] is four digits. *)
Definition digits4End (s : string) : option string :=
  if (String.length s =? 4)%nat && allDigits s then Some s else None.

(** [/^(\d{1,2})\/(\d{4})$/] with its two groups. *)
Definition matchMonthYear (t : string) : option (string * string) :=
  '(m1, r) ← digits12 t;
  r ← literal "/" r;
  m2 ← digits4End r;
  Some (m1, m2).

(** [/^(\d{1,2})SEP(\d{1,2})SEP(\d{4})$/] with its three groups. *)
Definition matchDayMonthYear (sep : ascii) (t : string)
  : option (string * string * string) :=
  '(m1, r) ← digits12 t;
  r ← literal sep r;
  '(m2, r) ← digits12 r;
  r ← literal sep r;
  m3 ← digits4End r;
  Some (m1, m2, m3).

(** [String(+d).padStart(2, "0") + "/" + y]. *)
Definition monthKey (d y : string) : string :=
  padStart2 (IntegerToString (digitsValue 0 d)) +:+ "/" +:+ y.

(** [normalizeMonth]: nothing stands for [null]. *)
Definition normalizeMonth (input : option string) : option string :=
  match input with
  | None => None
  | Some input =>
      if isEmpty input then None
      else
        let t := trim input in
        match matchMonthYear t with
        | Some (m1, m2) => Some (monthKey m1 m2)
        | None =>
            match matchDayMonthYear "/" t with
            | Some (_, m2, m3) => Some (monthKey m2 m3)
            | None =>
                match matchDayMonthYear "-" t with
                | Some (_, m2, m3) => Some (monthKey m2 m3)
                | None => None
                end
            end
        end
  end.

(** [const [m, y] = s.split("/").map(Number)]: the first two pieces as
    integers.  Nothing stands for a piece that is missing or that is not an
    integer written in decimal, which the integer model does not cover. *)
Definition monthAndYear (s : string) : option Z * option Z :=
  let parts := List.map StringToInteger (splitOn "/" s) in
  (mjoin (parts !! 0%nat), mjoin (parts !! 1%nat)).

(** [compareMonth]: the difference of the years when they differ, of the
    months otherwise; nothing when a number it needs is not covered. *)
Definition compareMonth (a b : string) : option Z :=
  let '(am, ay) := monthAndYear a in
  let '(bm, by_) := monthAndYear b in
  match ay, by_ with
  | Some ay, Some by_ =>
      if negb (ay =? by_) then Some (ay - by_)
      else match am, bm with
           | Some am, Some bm => Some (am - bm)
           | _, _ => None
           end
  | _, _ => None
  end.

(** One turn of the loop of [minusMonths]. *)
Definition monthBefore (p : Z * Z) : Z * Z :=
  let '(mm, yy) := p in
  let mm := mm - 1 in
  if mm =? 0 then (12, yy - 1) else (mm, yy).

(** The loop of [minusMonths], [while (n--) { ... }], run for at most [fuel]
    turns: nothing when it has not ended by then.  The count [n] is a
    binary64 number; [n--] tests it and then subtracts 1 from it, with the
    rounding of binary64, so that a large count may never reach zero. *)
Fixpoint minusLoop (fuel : nat) (p : Z * Z) (n : number) : option (Z * Z) :=
  match fuel with
  | O => None
  | S fuel =>
      if truthy (VNum n) then minusLoop fuel (monthBefore p) (n - 1)%float
      else Some p
  end.

(** [minusMonths].  The month and the year are followed as integers, which
    is what binary64 does as long as they are integers that it holds
    exactly: the model covers a key whose month is from 0 to 2^53 and whose
    year is at most 2^52 in absolute value, and a count that is an integer
    from 0 to 2^53.  The loop is given one turn more than the count, the
    turn that finds the count at zero.  Nothing stands for what the model
    does not cover. *)
Definition minusMonths (m : string) (n : number) : option string :=
  match monthAndYear m, integerOf n with
  | (Some mm, Some yy), Some count =>
      if (0 <=? mm) && (mm <=? 2 ^ 53) && (Z.abs yy <=? 2 ^ 52)
         && (0 <=? count) && (count <=? 2 ^ 53)
      then
        '(mm, yy) ← minusLoop (S (Z.to_nat count)) (mm, yy) n;
        Some (padStart2 (IntegerToString mm) +:+ "/" +:+ IntegerToString yy)
      else None
  | _, _ => None
  end.

(** *** The snapshot store of this variant *)

Section WithJSON.
Context `{JSON}.

(** [Object.assign(base, parsed)] on the slots of the sources: a slot the
    parsed object has replaces that of [base], with whatever value it holds.
    Properties other than the eight sources are never read afterwards and
    are left out. *)
Definition Object_assign (base : SourceRecord value) (parsed : value)
  : SourceRecord value :=
  fun k =>
    match propOf parsed k with
    | Some v => v
    | None => base k
    end.

(** The initialiser of [installed] and of [plf]: zeros, overwritten by the
    stored object when there is one. *)
Definition initRecord (key : string) (ls : Storage) : SourceRecord value :=
  let base : SourceRecord value :=
    fold_left (fun b s => setSlot b s (VNum 0)) SOURCES (fun _ => VNum 0) in
  tryCatch
    (raw ← getItem key ls;
     match raw with
     | Some raw =>
         if isEmpty raw then Normal base
         else match JSON_parse raw with
              | Some parsed => Normal (Object_assign base parsed)
              | None => Throw "SyntaxError"
              end
     | None => Normal base
     end)
    base.

(** The save effect of a record; a refused write throws out of the effect. *)
Definition saveRecord (key : string) (r : SourceRecord value) (ls : Storage)
  : completion Storage :=
  setItem key (JSON_stringify (VObj (recordProps r))) ls.

End WithJSON.

(** [rated]: the operators convert their operands to numbers, which is
    taken to return. *)
Definition rated (installed plf : SourceRecord value) : PartialRecord number :=
  fold_left
    (fun (out : PartialRecord number) s =>
       setSlot out s
         (Some (round2 (ToNumber (installed s) * (ToNumber (plf s) / 100))%float)))
    SOURCES emptyRecord.

(** The [onChange] handlers: [{ ...installed, [s]: +e.target.value }]. *)
Definition onChangeInstalled (s : SourceKey) (input : string)
  (installed : SourceRecord value) : SourceRecord value :=
  setSlot installed s (VNum (StringToNumber input)).

Definition onChangePlf (s : SourceKey) (input : string)
  (plf : SourceRecord value) : SourceRecord value :=
  setSlot plf s (VNum (StringToNumber input)).

(** *** The historical ledger *)

Record Entry : Type := {
  month : string;
  values : PartialRecord number;
}.

Record Ledger : Type := {
  history : list Entry;
  err : option string;
}.

Definition initialLedger : Ledger := {| history := []; err := None |}.

Definition notLoaded : string :=
  "capacity.csv not loaded – ensure /public/data/capacity.csv exists with Month + source columns.".

(** [header.findIndex(p)] and [header.indexOf(s)]: the first position, when
    there is one. *)
Fixpoint findIndex {A} (p : A → bool) (l : list A) : option nat :=
  match l with
  | x :: t => if p x then Some 0%nat else S <$> findIndex p t
  | [] => None
  end.

Definition isMonthHeader (h : string) : bool :=
  String.eqb (toLowerCase (trim h)) "month".

(** The value of a cell: [undefined] when the row is too short. *)
Definition cell (r : list string) (i : nat) : value :=
  match r !! i with
  | Some c => VStr c
  | None => VUndefined
  end.

(** The body of the loop over the rows. *)
Definition entryOfRow (header : list string) (mIdx : nat) (r : list string)
  : option Entry :=
  match normalizeMonth (r !! mIdx) with
  | Some mk =>
      if isEmpty mk then None
      else
        Some {| month := mk;
                values :=
                  fold_left
                    (fun (vals : PartialRecord number) s =>
                       setSlot vals s
                         (Some (match findIndex (String.eqb (sourceName s)) header with
                                | Some i => safeNum (cell r i)
                                | None => 0%float
                                end)))
                    SOURCES emptyRecord |}
  | None => None
  end.

Definition rowsToEntries (header : list string) (mIdx : nat)
  (rows : list (list string)) : list Entry :=
  omap (entryOfRow header mIdx) rows.

(** [data.sort(cmp)].  For a comparator that orders the elements
    consistently, the result is the one sorted permutation that keeps equal
    elements in their order, obtained here by insertion.  Nothing when a
    comparison is not covered. *)
Fixpoint insertBy {A} (cmp : A → A → option Z) (x : A) (l : list A)
  : option (list A) :=
  match l with
  | [] => Some [x]
  | y :: t =>
      c ← cmp x y;
      if 0 <? c then (t' ← insertBy cmp x t; Some (y :: t'))
      else Some (x :: l)
  end.

Fixpoint sortBy {A} (cmp : A → A → option Z) (l : list A) : option (list A) :=
  match l with
  | [] => Some []
  | x :: t => t' ← sortBy cmp t; insertBy cmp x t'
  end.

(** The body of the [try] that runs when the fetch of the historical CSV
    ends.  The inner nothing is for a sort with a comparison that is not
    covered. *)
Definition historyAttempt (res : FetchResult) (l : Ledger)
  : completion (option Ledger) :=
  txt ← match res with
        | Rejected => Throw "TypeError"
        | Response ok body =>
            if negb ok then Throw "Error"
            else match body with
                 | Some txt => Normal txt
                 | None => Throw "TypeError"
                 end
        end;
  '(header, rows) ← parseCSV txt;
  mIdx ← match findIndex isMonthHeader header with
         | Some i => Normal i
         | None => Throw "Error"
         end;
  let data := rowsToEntries header mIdx rows in
  Normal (data ← sortBy (fun a b => compareMonth (month a) (month b)) data;
          Some {| history := data; err := err l |}).

(** The whole handler: whatever the body throws is caught, and the advisory
    is set. *)
Definition loadHistory (res : FetchResult) (l : Ledger) : option Ledger :=
  tryCatch (historyAttempt res l)
    (Some {| history := history l; err := Some notLoaded |}).

(** The months offered in the two selectors. *)
Definition months (l : Ledger) : list string := List.map month (history l).

End HistoricalTab.

(** ** The historical card: selection, lookup and net addition
       (the second variant) *)

Module HistoricalCard.

Import HistoricalTab.

(** [netColor]: the class of a positive, a negative and any other value. *)
Definition netColor (v : number) : string :=
  if (0 <? v)%float then "text-emerald-600"
  else if (v <? 0)%float then "text-rose-600"
  else "text-slate-700".

(** [months[months.length - 1]], [undefined] for an empty ledger. *)
Definition latest (l : Ledger) : option string := last (months l).

(** [latest ? minusMonths(latest, 12) : ""]; the outer nothing is for a key
    the integer model does not cover. *)
Definition defaultStart (l : Ledger) : option string :=
  match latest l with
  | Some latest =>
      if isEmpty latest then Some "" else minusMonths latest 12%float
  | None => Some ""
  end.

(** The effect on [start] and [end]:
    [if (compareMonth(start, end) > 0) setStart(end)].  It gives the new
    value of [start].  With [end] undefined, [compareMonth] reads
    [b.split] of [undefined] and throws; the inner nothing is for a
    comparison the integer model does not cover. *)
Definition rangeGuard (start : string) (end_ : option string)
  : completion (option string) :=
  match end_ with
  | None => Throw "TypeError"
  | Some e =>
      Normal (c ← compareMonth start e; Some (if 0 <? c then e else start))
  end.

(** [history.find((h) => h.month === key)]; no entry has the month
    [undefined]. *)
Definition findRow (history : list Entry) (key : option string) : option Entry :=
  match key with
  | Some k => List.find (fun h => String.eqb (month h) k) history
  | None => None
  end.

(** [row.values[s]] in arithmetic: an absent slot is [undefined], which
    converts to NaN. *)
Definition slotNumber (row : Entry) (s : SourceKey) : number :=
  match values row s with
  | Some x => x
  | None => nan
  end.

(** [row.values] as the object passed to [sumSources]. *)
Definition rowObject (row : Entry) : SourceRecord value :=
  fun s =>
    match values row s with
    | Some x => VNum x
    | None => VUndefined
    end.

(** [sRow && eRow ? eRow.values[s] - sRow.values[s] : 0]. *)
Definition netAddition (sRow eRow : option Entry) (s : SourceKey) : number :=
  match sRow, eRow with
  | Some sRow, Some eRow => (slotNumber eRow s - slotNumber sRow s)%float
  | _, _ => 0%float
  end.

(** [sumSources(eRow.values) - sumSources(sRow.values)] when both rows
    exist; nothing stands for the placeholder shown otherwise. *)
Definition netTotal (sRow eRow : option Entry) : option number :=
  match sRow, eRow with
  | Some sRow, Some eRow =>
      Some (sumSources (rowObject eRow) - sumSources (rowObject sRow))%float
  | _, _ => None
  end.

End HistoricalCard.

(** ** The vocabulary of the properties *)

Import HistoricalTab.

(** A record all of whose slots are finite numbers. *)
Definition finiteRecord (r : SourceRecord number) : Prop :=
  ∀ k, is_finite (r k) = true.

(** The strict equality of two numbers, [===]. *)
Definition strictEq (x y : number) : Prop := (x =? y)%float = true.

(** 1.5 GW of coal at a PLF of 15. *)
Definition sampleInstalled : SourceRecord number :=
  setSlot RatedCapacityTsx.zeroRecord Coal 1.5%float.

Definition samplePlf : SourceRecord number :=
  setSlot RatedCapacityTsx.zeroRecord Coal 15%float.

(** A string that is empty or starts with a character that is no white
    space. *)
Definition startsBlack (s : string) : Prop :=
  match s with
  | String c _ => isWhite c = false
  | EmptyString => True
  end.

(** A field as [trim] leaves it. *)
Definition trimmed (f : string) : Prop := trim f = f.

(** The lines of a text that [filter(Boolean)] keeps. *)
Definition hasNonEmptyLine (text : string) : Prop :=
  ∃ l, In l (splitLines text) ∧ l ≠ EmptyString.

(** A line feed, and three historical CSV texts. *)
Definition lf : string := String "010" EmptyString.

Definition sampleHistoryCsv : string :=
  "Month,Coal" +:+ lf +:+ "01/2023, 5" +:+ lf +:+ "31/12/2022,4" +:+ lf.

Definition csvWithoutMonth : string :=
  "Date,Coal,Solar" +:+ lf +:+ "01/2023,5,7" +:+ lf.

(** The shapes of the specification: in a shape such as [DD/MM/YYYY] each
    of the letters D, M and Y stands for one decimal digit, and any other
    character for itself. *)
Definition isShapeLetter (p : ascii) : bool :=
  match p with
  | "D" | "M" | "Y" => true
  | _ => false
  end%char.

Fixpoint matchesShape (shape s : string) : bool :=
  match shape, s with
  | EmptyString, EmptyString => true
  | String p shape', String c s' =>
      (if isShapeLetter p then isDigit c else Ascii.eqb p c)
      && matchesShape shape' s'
  | _, _ => false
  end.

Definition hasShape (shapes : list string) (s : string) : bool :=
  existsb (fun shape => matchesShape shape s) shapes.

(** The five accepted shapes of the specification. *)
Definition acceptedShapes : list string :=
  ["M/YYYY"; "MM/YYYY"; "D/M/YYYY"; "DD/MM/YYYY"; "DD-MM-YYYY"].

(** The shapes the three patterns of the code accept: one or two digits for
    the day and for the month, independently, with either separator. *)
Definition patternShapes : list string :=
  ["M/YYYY"; "MM/YYYY";
   "D/M/YYYY"; "D/MM/YYYY"; "DD/M/YYYY"; "DD/MM/YYYY";
   "D-M-YYYY"; "D-MM-YYYY"; "DD-M-YYYY"; "DD-MM-YYYY"].

(** The canonical key: two digits, a slash, four digits. *)
Definition canonicalKey (k : string) : Prop := matchesShape "MM/YYYY" k = true.

(** One or two digits; exactly four digits. *)
Inductive oneOrTwoDigits : string → Prop :=
  | one_digit a :
      isDigit a = true → oneOrTwoDigits (String a EmptyString)
  | two_digits a b :
      isDigit a = true → isDigit b = true →
      oneOrTwoDigits (String a (String b EmptyString)).

Inductive fourDigits : string → Prop :=
  | four_digits a b c d :
      isDigit a = true → isDigit b = true → isDigit c = true →
      isDigit d = true →
      fourDigits (String a (String b (String c (String d EmptyString)))).

(** Follows the spec's words: one month back, wrapping the month to 12 and
    decrementing the year whenever the counter drops below 1. *)
Definition specMonthBefore (p : Z * Z) : Z * Z :=
  let '(mm, yy) := p in
  if mm - 1 <? 1 then (12, yy - 1) else (mm - 1, yy).

(** [String(mm).padStart(2, "0") + "/" + yy]. *)
Definition formatKey (p : Z * Z) : string :=
  padStart2 (IntegerToString (fst p)) +:+ "/" +:+ IntegerToString (snd p).

Definition specMinusMonths (m : string) (n : nat) : option string :=
  match monthAndYear m with
  | (Some mm, Some yy) => Some (formatKey (Nat.iter n specMonthBefore (mm, yy)))
  | _ => None
  end.

(** The month counter [n] months before month [mm] of year [yy]: months are
    counted from month 1 of year 0. *)
Definition monthsBack (mm yy : Z) (n : nat) : Z * Z :=
  let t := 12 * yy + (mm - 1) - Z.of_nat n in
  (t mod 12 + 1, t / 12).

Definition digitChars : list ascii :=
  ["0"; "1"; "2"; "3"; "4"; "5"; "6"; "7"; "8"; "9"]%char.

(** The year and the month of a key. *)
Definition keyOrder (k : string) : Z * Z :=
  match monthAndYear k with
  | (Some mm, Some yy) => (yy, mm)
  | _ => (0, 0)
  end.

(** Ascending by year, then by month. *)
Definition monthLe (a b : string) : Prop :=
  fst (keyOrder a) < fst (keyOrder b)
  ∨ (fst (keyOrder a) = fst (keyOrder b) ∧ snd (keyOrder a) ≤ snd (keyOrder b)).

Definition duplicateMonthsCsv : string :=
  "Month,Coal" +:+ lf +:+ "01/2023,1" +:+ lf +:+ "31/12/2022,2" +:+ lf
  +:+ "13-01-2023,3" +:+ lf.

(** The capacity record a fetch brings, when the request succeeds, the
    response is [ok], its body can be read and the CSV parses. *)
Definition fetchedRecord (res : FetchResult) : option (SourceRecord number) :=
  match res with
  | Response true (Some text) => RatedCapacityTsx.parseCapacityCSV text
  | _ => None
  end.

(** What can happen to the component of [RatedCapacity.tsx]: the mount
    effect runs against some storage, the capacity fetch ends, or a value is
    typed into one of the two editable rows. *)
Inductive Event : Type :=
  | Mount (ls : Storage)
  | FetchEnded (res : FetchResult)
  | EditInstalled (k : SourceKey) (input : string)
  | EditPlf (k : SourceKey) (input : string).

Section Events.
Context `{JSON}.

(** The state after an event; of the mount effect, the state it leaves when
    it returns. *)
Definition handle (e : Event) (s : RatedCapacityTsx.State)
  : RatedCapacityTsx.State :=
  match e with
  | Mount ls =>
      match RatedCapacityTsx.mountEffect ls s with
      | RatedCapacityTsx.Settled s' => s'
      | RatedCapacityTsx.Fetching s' _ _ => s'
      end
  | FetchEnded res => RatedCapacityTsx.csvCompletion res s
  | EditInstalled k input => RatedCapacityTsx.onChangeInstalled k input s
  | EditPlf k input => RatedCapacityTsx.onChangePlf k input s
  end.

(** The state after a sequence of events, from the initial state. *)
Definition run (events : list Event) : RatedCapacityTsx.State :=
  fold_left (fun s e => handle e s) events RatedCapacityTsx.initialState.

Definition finiteState (s : RatedCapacityTsx.State) : Prop :=
  finiteRecord (RatedCapacityTsx.installed s)
  ∧ finiteRecord (RatedCapacityTsx.plf s).

End Events.

(** The record as the value that is serialised. *)
Definition recordValue (r : SourceRecord number) : value :=
  VObj (recordProps (fun k => VNum (r k))).

(** What the JSON text of a finite number reads back as: the number, the
    negative zero being written as [0]. *)
Definition jsonNumber (x : number) : number :=
  if isNegZero x then 0%float else x.

(** A JSON codec for flat objects whose values are integers, enough to run
    the round trip on a capacity record of whole gigawatts. *)
Definition quoted (s : string) : string :=
  String quote (s +:+ String quote EmptyString).

Definition printMember (p : string * value) : string :=
  quoted (fst p) +:+ ":" +:+
  match snd p with
  | VNum x => match integerOf x with
              | Some n => IntegerToString n
              | None => "null"
              end
  | _ => "null"
  end.

Definition integerStringify (v : value) : string :=
  match v with
  | VObj props => "{" +:+ String.concat "," (List.map printMember props) +:+ "}"
  | _ => "null"
  end.

(** The string between a first character [l] and a last character [r]. *)
Definition between (l r : ascii) (s : string) : option string :=
  match s with
  | String c s' =>
      if Ascii.eqb c l then
        match String.rev s' with
        | String c' s'' => if Ascii.eqb c' r then Some (String.rev s'') else None
        | EmptyString => None
        end
      else None
  | EmptyString => None
  end.

Definition parseMember (s : string) : option (string * value) :=
  match splitOn ":" s with
  | [k; v] => k ← between quote quote k; Some (k, VNum (StringToNumber v))
  | _ => None
  end.

Definition integerParse (s : string) : option value :=
  inner ← between "{" "}" s;
  if isEmpty inner then Some (VObj [])
  else VObj <$> mapM parseMember (splitOn "," inner).

Definition integerJSON : JSON :=
  {| JSON_parse := integerParse; JSON_stringify := integerStringify |}.

(** The record of the scenario of the specification. *)
Definition scenarioRecord : SourceRecord number :=
  fun k =>
    match k with
    | Coal => 50 | OilGas => 10 | Nuclear => 8 | Hydro => 5
    | Solar => 20 | Wind => 15 | SmallHydro => 2 | BioPower => 3
    end%float.

Definition emptyStorage : Storage :=
  {| items := ∅; readable := true; writable := true |}.

(** The current-capacity CSV of the scenario of the specification. *)
Definition scenarioCsv : string :=
  "Coal,Oil & Gas,Nuclear,Hydro,Solar,Wind,Small-Hydro,Bio Power" +:+ lf
  +:+ "50,10,8,5,20,15,2,3".

(** A line without the double quote. *)
Fixpoint quoteFree (l : string) : bool :=
  match l with
  | String c r => negb (Ascii.eqb c quote) && quoteFree r
  | EmptyString => true
  end.

(** The last position at which [key] stands in [l]. *)
Fixpoint lastIndexOf (key : string) (l : list string) : option nat :=
  match l with
  | x :: t =>
      match lastIndexOf key t with
      | Some i => Some (S i)
      | None => if String.eqb x key then Some 0%nat else None
      end
  | [] => None
  end.

(** A storage that holds a PLF of 150 for coal. *)
Definition plf150Storage : Storage :=
  {| items := {[ PLF_KEY := "{" +:+ quoted "Coal" +:+ ":150}" ]};
     readable := true; writable := true |}.

(** The line ending of two characters, and a line that holds neither of
    them. *)
Definition crlf : string := String "013" lf.

Fixpoint plainLine (l : string) : bool :=
  match l with
  | String c r => negb (Ascii.eqb c "010") && negb (Ascii.eqb c "013") && plainLine r
  | EmptyString => true
  end.

(** A source of a parsed object whose value makes [Number] throw. *)
Definition throwingSlot (obj : value) (k : SourceKey) : bool :=
  match propOf obj k with
  | Some v => ToPrimitiveThrows v
  | None => false
  end.

Section Persisted.
Context `{JSON}.

(** The storage holds the record [obj] under [key]: it can be read, and it
    holds there a non-empty JSON text of an object or an array, [obj], in
    which no value of a source makes [Number] throw. *)
Definition persisted (ls : Storage) (key : string) (obj : value) : Prop :=
  readable ls = true
  ∧ (∃ raw, items ls !! key = Some raw ∧ raw ≠ EmptyString
            ∧ JSON_parse raw = Some obj)
  ∧ truthy obj = true ∧ typeofObject obj = true
  ∧ ∀ k, throwingSlot obj k = false.

End Persisted.

(** A storage that holds an installed capacity of 50 for coal. *)
Definition installed50Storage : Storage :=
  {| items := {[ RatedCapacityTsx.LS_INSTALLED := "{" +:+ quoted "Coal" +:+ ":50}" ]};
     readable := true; writable := true |}.

(** A stored object that holds, for coal, an object with a property named
    toString, its JSON text, a storage that holds it, and the codec for
    integers made to read this text too. *)
Definition toStringRecord : value :=
  VObj [("Coal", VObj [("toString", VNum 0)]); ("Wind", VNum 55)].

Definition toStringText : string :=
  "{" +:+ quoted "Coal" +:+ ":{" +:+ quoted "toString" +:+ ":0},"
  +:+ quoted "Wind" +:+ ":55}".

Definition toStringStorage : Storage :=
  {| items := {[ RatedCapacityTsx.LS_INSTALLED := toStringText ]};
     readable := true; writable := true |}.

Definition toStringJSON : JSON :=
  {| JSON_parse := fun raw =>
       if String.eqb raw toStringText then Some toStringRecord
       else integerParse raw;
     JSON_stringify := integerStringify |}.

(** The number of binary digits of a positive integer, and the binary64
    form of a positive integer of at most 53 digits: its digits moved to the
    top of the 53, with the exponent that makes up for it. *)
Definition digits (q : positive) : nat := Pos.to_nat (digits2_pos q).

Definition normalForm (q : positive) : spec_float :=
  S754_finite false (Nat.iter (53 - digits q) xO q) (Z.of_nat (digits q) - 53).

(** ** Properties *)

(** *** Numbers *)

Lemma is_finite_not_nan (x : number) : is_finite x = true → is_nan x = false.
Proof.
  unfold is_finite. destruct (is_nan x); [discriminate | reflexivity].
Qed.

Lemma strictEq_refl (x : number) : is_finite x = true → strictEq x x.
Proof.
  intros Hx. apply is_finite_not_nan in Hx. unfold is_nan in Hx.
  unfold strictEq. destruct (x =? x)%float; [reflexivity | discriminate].
Qed.

Lemma ltb_leb (x y : number) : (x <? y)%float = true → (x <=? y)%float = true.
Proof.
  rewrite FloatAxioms.ltb_spec, FloatAxioms.leb_spec. unfold SFltb, SFleb.
  destruct (SFcompare _ _) as [[]|]; congruence.
Qed.

Lemma tsx_safeNum_finite (v : value) :
  is_finite (RatedCapacityTsx.safeNum v) = true.
Proof.
  unfold RatedCapacityTsx.safeNum, Number_isFinite.
  match goal with |- context [if is_finite ?n then _ else _] =>
    destruct (is_finite n) eqn:E end; [exact E | reflexivity].
Qed.

Lemma tsx_safeNum_id (x : number) :
  is_finite x = true → RatedCapacityTsx.safeNum (VNum x) = x.
Proof.
  intros Hx. unfold RatedCapacityTsx.safeNum, Number_isFinite. simpl.
  rewrite Hx. reflexivity.
Qed.

(** *** Loops over the sources *)

Lemma In_SOURCES (k : SourceKey) : In k SOURCES.
Proof. destruct k; simpl; tauto. Qed.

(** A loop that assigns every slot leaves in slot [s] what it assigned to
    [s]. *)
Lemma assign_all_slots {A} (f : SourceKey → A) (s : SourceKey) :
  fold_left (fun (out : PartialRecord A) k => setSlot out k (Some (f k)))
    SOURCES emptyRecord s = Some (f s).
Proof. destruct s; reflexivity. Qed.

(** *** Rated capacity (C1) *)

Lemma sampleInstalled_finite : finiteRecord sampleInstalled.
Proof. intros k; destruct k; reflexivity. Qed.

Lemma samplePlf_finite : finiteRecord samplePlf.
Proof. intros k; destruct k; reflexivity. Qed.

(** Two options of numbers that differ under [===] are not equal. *)
Lemma Some_number_neq (x y : number) :
  (x =? x)%float = true → (x =? y)%float = false → Some x ≠ Some y.
Proof. intros Hx Hxy [= ->]. congruence. Qed.

(** C1, as stated, fails: with 1.5 GW installed at a PLF of 15, the code
    gives 0.22, and [round2 (installed * plf / 100)] is 0.23.  The code
    divides the PLF by 100 before it multiplies. *)
Lemma rated_is_not_round2_of_product_over_100 :
  ¬ (∀ (installed plf : SourceRecord number) (s : SourceKey),
       finiteRecord installed → finiteRecord plf →
       RatedCapacityTsx.ratedBySource installed plf s
       = Some (RatedCapacityTsx.round2 (installed s * plf s / 100)%float))
  ∧ ¬ (∀ (installed plf : SourceRecord number) (s : SourceKey),
       finiteRecord installed → finiteRecord plf →
       HistoricalTab.rated (fun k => VNum (installed k)) (fun k => VNum (plf k)) s
       = Some (HistoricalTab.round2 (installed s * plf s / 100)%float)).
Proof.
  split; intros Hall;
    specialize (Hall sampleInstalled samplePlf Coal
                  sampleInstalled_finite samplePlf_finite);
    vm_compute in Hall; revert Hall; apply Some_number_neq; reflexivity.
Qed.

(** C1, amended: for records of finite numbers, in both variants the rated
    capacity of every source [s] is
    [round2 (installed[s] * (plf[s] / 100))], where [round2 n] is
    [Math.round (n * 100) / 100]; it is a function of the two records. *)
Theorem rated_is_round2_of_installed_times_plf_fraction
  (installed plf : SourceRecord number) (s : SourceKey) :
  finiteRecord installed → finiteRecord plf →
  RatedCapacityTsx.ratedBySource installed plf s
  = Some (Math_round (installed s * (plf s / 100) * 100) / 100)%float
  ∧ HistoricalTab.rated (fun k => VNum (installed k)) (fun k => VNum (plf k)) s
  = Some (Math_round (installed s * (plf s / 100) * 100) / 100)%float.
Proof.
  intros Hi Hp. split.
  - unfold RatedCapacityTsx.ratedBySource.
    rewrite (assign_all_slots
               (fun k => RatedCapacityTsx.round2
                           (RatedCapacityTsx.safeNum (VNum (installed k))
                            * (RatedCapacityTsx.safeNum (VNum (plf k)) / 100))%float)).
    rewrite !tsx_safeNum_id by auto. reflexivity.
  - unfold HistoricalTab.rated.
    rewrite (assign_all_slots
               (fun k => HistoricalTab.round2
                           (ToNumber (VNum (installed k))
                            * (ToNumber (VNum (plf k)) / 100))%float)).
    reflexivity.
Qed.

(** C1 at 1.5 GW of coal and a PLF of 15. *)
Lemma rated_is_round2_of_installed_times_plf_fraction_witness :
  RatedCapacityTsx.ratedBySource sampleInstalled samplePlf Coal
  = Some (Math_round (1.5 * (15 / 100) * 100) / 100)%float
  ∧ HistoricalTab.rated (fun k => VNum (sampleInstalled k))
      (fun k => VNum (samplePlf k)) Coal
  = Some (Math_round (1.5 * (15 / 100) * 100) / 100)%float.
Proof.
  apply (rated_is_round2_of_installed_times_plf_fraction
           sampleInstalled samplePlf Coal).
  - intros k; destruct k; reflexivity.
  - intros k; destruct k; reflexivity.
Defined.

(** In the second variant the slots may hold any value, and the operators
    convert them. *)
Lemma rated_of_values (installed plf : SourceRecord value) (s : SourceKey) :
  HistoricalTab.rated installed plf s
  = Some (HistoricalTab.round2
            (ToNumber (installed s) * (ToNumber (plf s) / 100))%float).
Proof.
  unfold HistoricalTab.rated.
  exact (assign_all_slots
           (fun k => HistoricalTab.round2
                       (ToNumber (installed k) * (ToNumber (plf k) / 100))%float) s).
Qed.

(** *** PLF entry (C9) *)

Lemma clamp_bounds (x : number) :
  is_nan x = false →
  (0 <=? Math_min 100 (Math_max 0 x))%float = true
  ∧ (Math_min 100 (Math_max 0 x) <=? 100)%float = true.
Proof.
  intros Hx. unfold Math_max. rewrite Hx.
  change (is_nan 0 || false) with false. cbv iota.
  destruct (0 <? x)%float eqn:Hpos.
  - unfold Math_min. rewrite Hx. change (is_nan 100 || false) with false.
    cbv iota.
    destruct (100 <? x)%float eqn:Hbig; [split; reflexivity|].
    destruct (x <? 100)%float eqn:Hsmall.
    + split; apply ltb_leb; assumption.
    + split; reflexivity.
  - assert (Hm : (if (x <? 0)%float then 0%float
                  else if isNegZero 0 then x else 0%float) = 0%float).
    { destruct (x <? 0)%float; reflexivity. }
    rewrite Hm. split; reflexivity.
Qed.

(** C9: in [RatedCapacity.tsx] the PLF entered for a source is stored as
    [min(100, max(0, safeNum(input)))], which lies in the interval from 0 to
    100, and the other slots are kept; in the second variant the number the
    input converts to is stored as it is. *)
Theorem plf_entry_clamped_in_one_variant_only (k : SourceKey) (input : string) :
  (∀ s : RatedCapacityTsx.State,
     let stored := RatedCapacityTsx.plf (RatedCapacityTsx.onChangePlf k input s) in
     stored k = Math_min 100 (Math_max 0 (RatedCapacityTsx.safeNum (VStr input)))
     ∧ (0 <=? stored k)%float = true
     ∧ (stored k <=? 100)%float = true
     ∧ ∀ k', k' ≠ k → stored k' = RatedCapacityTsx.plf s k')
  ∧ (∀ plf : SourceRecord value,
       HistoricalTab.onChangePlf k input plf k = VNum (StringToNumber input)
       ∧ ∀ k', k' ≠ k → HistoricalTab.onChangePlf k input plf k' = plf k').
Proof.
  split.
  - intros s. cbv zeta. unfold RatedCapacityTsx.onChangePlf. simpl.
    unfold setSlot. rewrite decide_True by reflexivity.
    pose proof (clamp_bounds (RatedCapacityTsx.safeNum (VStr input))
                  (is_finite_not_nan _ (tsx_safeNum_finite _))) as [H0 H100].
    repeat split; try assumption.
    intros k' Hk. rewrite decide_False by assumption. reflexivity.
  - intros plf. unfold HistoricalTab.onChangePlf, setSlot. split.
    + rewrite decide_True by reflexivity. reflexivity.
    + intros k' Hk. rewrite decide_False by assumption. reflexivity.
Qed.

(** The second variant stores 150 for the input 150. *)
Example plf_entry_unclamped_150 :
  HistoricalTab.onChangePlf Coal "150" (fun _ => VNum 0) Coal = VNum 150.
Proof. reflexivity. Qed.

(** *** Strings *)

Lemma trimEnd_idem (s : string) : trimEnd (trimEnd s) = trimEnd s.
Proof.
  induction s as [|c r IH]; [reflexivity|]. simpl.
  destruct (isWhite c && isEmpty (trimEnd r)) eqn:E; [reflexivity|].
  simpl. rewrite IH, E. reflexivity.
Qed.

Lemma trimStart_startsBlack (s : string) : startsBlack (trimStart s).
Proof.
  induction s as [|c r IH]; simpl; [exact I|].
  destruct (isWhite c) eqn:E; [exact IH | exact E].
Qed.

Lemma trimStart_id (s : string) : startsBlack s → trimStart s = s.
Proof. destruct s as [|c r]; simpl; [reflexivity|]. intros ->. reflexivity. Qed.

Lemma trimEnd_startsBlack (s : string) : startsBlack s → startsBlack (trimEnd s).
Proof.
  destruct s as [|c r]; simpl; [exact id|]. intros E. rewrite E. simpl. exact E.
Qed.

Lemma trim_idem (s : string) : trim (trim s) = trim s.
Proof.
  unfold trim.
  rewrite (trimStart_id (trimEnd (trimStart s))).
  - apply trimEnd_idem.
  - apply trimEnd_startsBlack, trimStart_startsBlack.
Qed.

Lemma isEmpty_false (s : string) : s ≠ EmptyString → isEmpty s = false.
Proof. destruct s; [congruence | reflexivity]. Qed.

(** *** The CSV parser (C10) *)

Lemma parseLineFrom_trimmed (l : string) :
  ∀ out cur q, Forall trimmed out → Forall trimmed (parseLineFrom l out cur q).
Proof.
  remember (String.length l) as n eqn:Hn. revert l Hn.
  induction n as [n IH] using lt_wf_ind. intros l Hn out cur q Hout.
  assert (Hpush : Forall trimmed (out ++ [trim cur])).
  { apply Forall_app; split; [exact Hout|].
    constructor; [apply trim_idem | constructor]. }
  destruct l as [|c r]; simpl; [exact Hpush|].
  simpl in Hn.
  repeat case_match; subst;
    (eapply IH; [ | reflexivity | ]; simpl; [lia | assumption]).
Qed.

Lemma parseLine_trimmed (l : string) : Forall trimmed (parseLine l).
Proof. apply parseLineFrom_trimmed. constructor. Qed.

Lemma filterBoolean_In (l : string) (ls : list string) :
  In l (filterBoolean ls) ↔ In l ls ∧ l ≠ EmptyString.
Proof.
  unfold filterBoolean. rewrite filter_In.
  destruct l; simpl; split; intros [? ?]; split; try assumption;
    try discriminate; try congruence.
Qed.

Lemma filterBoolean_nil (text : string) :
  filterBoolean (splitLines text) = [] ↔ ¬ hasNonEmptyLine text.
Proof.
  split.
  - intros E [l [Hin Hne]].
    assert (Hf : In l (filterBoolean (splitLines text)))
      by (apply filterBoolean_In; split; assumption).
    rewrite E in Hf. exact Hf.
  - intros Hno. destruct (filterBoolean (splitLines text)) as [|l ls] eqn:E;
      [reflexivity|].
    exfalso. apply Hno. exists l. apply filterBoolean_In. rewrite E. left.
    reflexivity.
Qed.

(** C10: [parseCSV] returns a header and data rows, every field trimmed,
    when the text has a non-empty line; the header is then the first such
    line and each further one is a row.  When every line is empty, it reads
    element 0 of the empty list of lines and throws a [TypeError]. *)
Theorem parseCSV_returns_iff_text_has_nonempty_line (text : string) :
  (hasNonEmptyLine text →
     ∃ first rest header rows,
       filterBoolean (splitLines text) = first :: rest
       ∧ parseCSV text = Normal (header, rows)
       ∧ header = parseLine first
       ∧ rows = List.map parseLine rest
       ∧ Forall trimmed header
       ∧ Forall (Forall trimmed) rows)
  ∧ (¬ hasNonEmptyLine text → parseCSV text = Throw "TypeError").
Proof.
  split.
  - intros Hne. unfold parseCSV.
    destruct (filterBoolean (splitLines text)) as [|first rest] eqn:E.
    + apply filterBoolean_nil in E. contradiction.
    + exists first, rest, (parseLine first), (List.map parseLine rest).
      repeat split.
      * apply parseLine_trimmed.
      * apply List.Forall_forall. intros row Hrow. apply in_map_iff in Hrow.
        destruct Hrow as [l [<- _]]. apply parseLine_trimmed.
  - intros Hno. apply filterBoolean_nil in Hno. unfold parseCSV.
    rewrite Hno. reflexivity.
Qed.

(** C10 at a CSV of three lines and at the empty text. *)
Lemma parseCSV_returns_iff_text_has_nonempty_line_witness :
  (∃ first rest header rows,
     filterBoolean (splitLines sampleHistoryCsv) = first :: rest
     ∧ parseCSV sampleHistoryCsv = Normal (header, rows)
     ∧ header = parseLine first
     ∧ rows = List.map parseLine rest
     ∧ Forall trimmed header
     ∧ Forall (Forall trimmed) rows)
  ∧ parseCSV EmptyString = Throw "TypeError".
Proof.
  split.
  - apply (proj1 (parseCSV_returns_iff_text_has_nonempty_line sampleHistoryCsv)).
    exists "Month,Coal". split; [vm_compute; tauto | discriminate].
  - apply (proj2 (parseCSV_returns_iff_text_has_nonempty_line EmptyString)).
    intros [l [Hin Hne]]. simpl in Hin. destruct Hin as [<- | []].
    apply Hne. reflexivity.
Defined.

Example parseCSV_sample :
  parseCSV sampleHistoryCsv
  = Normal (["Month"; "Coal"], [["01/2023"; "5"]; ["31/12/2022"; "4"]]).
Proof. reflexivity. Qed.

(** *** A historical CSV without a month column (C5) *)

Lemma findIndex_None {A} (p : A → bool) (l : list A) :
  (∀ x, In x l → p x = false) → findIndex p l = None.
Proof.
  induction l as [|x t IH]; intros Hall; simpl; [reflexivity|].
  rewrite (Hall x) by (left; reflexivity).
  rewrite IH by (intros y Hy; apply Hall; right; exact Hy). reflexivity.
Qed.

Lemma findIndex_Some {A} (p : A → bool) (l : list A) (i : nat) :
  findIndex p l = Some i → ∃ x, l !! i = Some x ∧ p x = true.
Proof.
  revert i. induction l as [|x t IH]; intros i; simpl; [discriminate|].
  destruct (p x) eqn:E.
  - intros [= <-]. exists x. split; [reflexivity | exact E].
  - destruct (findIndex p t) as [j|]; simpl; [|discriminate].
    intros [= <-]. destruct (IH j eq_refl) as [y [Hy Hp]]. exists y.
    split; assumption.
Qed.

(** C5: when the header of the historical CSV has no column whose trimmed,
    lower-cased name is [month], the body of the handler throws, the throw
    is caught, the ledger keeps its entries (none, at the start) and the
    advisory is set. *)
Theorem history_not_loaded_without_month_column
  (txt : string) (header : list string) (rows : list (list string)) :
  parseCSV txt = Normal (header, rows) →
  (∀ h, In h header → toLowerCase (trim h) ≠ "month") →
  historyAttempt (Response true (Some txt)) initialLedger = Throw "Error"
  ∧ loadHistory (Response true (Some txt)) initialLedger
    = Some {| history := []; err := Some notLoaded |}
  ∧ ∀ l, loadHistory (Response true (Some txt)) l
         = Some {| history := history l; err := Some notLoaded |}.
Proof.
  intros Hparse Hnone.
  assert (Hidx : findIndex isMonthHeader header = None).
  { apply findIndex_None. intros h Hh. unfold isMonthHeader.
    apply String.eqb_neq. apply Hnone. exact Hh. }
  assert (Hthrow : ∀ l, historyAttempt (Response true (Some txt)) l = Throw "Error").
  { intros l. unfold historyAttempt. simpl. rewrite Hparse. simpl.
    rewrite Hidx. reflexivity. }
  split; [apply Hthrow|]. split.
  - unfold loadHistory. rewrite Hthrow. reflexivity.
  - intros l. unfold loadHistory. rewrite Hthrow. reflexivity.
Qed.

(** C5 at a CSV whose first column is named Date. *)
Lemma history_not_loaded_without_month_column_witness :
  historyAttempt (Response true (Some csvWithoutMonth)) initialLedger = Throw "Error"
  ∧ loadHistory (Response true (Some csvWithoutMonth)) initialLedger
    = Some {| history := []; err := Some notLoaded |}
  ∧ ∀ l, loadHistory (Response true (Some csvWithoutMonth)) l
         = Some {| history := history l; err := Some notLoaded |}.
Proof.
  apply (history_not_loaded_without_month_column csvWithoutMonth
           ["Date"; "Coal"; "Solar"] [["01/2023"; "5"; "7"]]).
  - reflexivity.
  - intros h [<- | [<- | [<- | []]]]; discriminate.
Defined.

(** Whatever the fetch brings, the handler ends with a ledger: every throw
    of its body is caught. *)
Lemma loadHistory_throw_caught (res : FetchResult) (l : Ledger) (e : string) :
  historyAttempt res l = Throw e →
  loadHistory res l = Some {| history := history l; err := Some notLoaded |}.
Proof. intros E. unfold loadHistory. rewrite E. reflexivity. Qed.

(** *** The month normaliser (C7) *)

Lemma isDigit_cases (c : ascii) :
  isDigit c = true →
  In c ["0"; "1"; "2"; "3"; "4"; "5"; "6"; "7"; "8"; "9"]%char.
Proof.
  destruct c as [[] [] [] [] [] [] [] []]; simpl; intros E;
    try discriminate E; tauto.
Qed.

Lemma isDigit_not_white (c : ascii) : isDigit c = true → isWhite c = false.
Proof.
  intros E. apply isDigit_cases in E. simpl in E.
  repeat (destruct E as [<- | E]; [reflexivity|]). destruct E.
Qed.

Lemma isDigit_not_sep (c sep : ascii) :
  isDigit c = true → isDigit sep = false → Ascii.eqb c sep = false.
Proof.
  intros Hc Hs. apply Ascii.eqb_neq. intros ->. congruence.
Qed.

Lemma sep_not_isDigit (c sep : ascii) :
  isDigit c = true → isDigit sep = false → Ascii.eqb sep c = false.
Proof.
  intros Hc Hs. apply Ascii.eqb_neq. intros ->. congruence.
Qed.

#[local] Arguments Ascii.eqb : simpl nomatch.

Lemma digits12_Some (s m r : string) :
  digits12 s = Some (m, r) → s = m +:+ r ∧ oneOrTwoDigits m.
Proof.
  unfold digits12. destruct s as [|a [|b r']]; [discriminate | |].
  - destruct (isDigit a) eqn:Ha; [|discriminate]. intros [= <- <-].
    split; [reflexivity | constructor; assumption].
  - destruct (isDigit a) eqn:Ha; [|discriminate].
    destruct (isDigit b) eqn:Hb; intros [= <- <-];
      (split; [reflexivity | constructor; assumption]).
Qed.

Lemma literal_Some (c : ascii) (s r : string) :
  literal c s = Some r → s = String c r.
Proof.
  unfold literal. destruct s as [|c' s']; [discriminate|].
  destruct (Ascii.eqb c' c) eqn:E; [|discriminate].
  apply Ascii.eqb_eq in E. intros [= <-]. subst. reflexivity.
Qed.

Lemma digits4End_Some (s y : string) :
  digits4End s = Some y → s = y ∧ fourDigits y.
Proof.
  unfold digits4End.
  destruct s as [|a [|b [|c [|d [|e s']]]]]; simpl; try discriminate.
  destruct (isDigit a) eqn:Ha; [|discriminate].
  destruct (isDigit b) eqn:Hb; [|discriminate].
  destruct (isDigit c) eqn:Hc; [|discriminate].
  destruct (isDigit d) eqn:Hd; [|discriminate].
  intros [= <-]. split; [reflexivity | constructor; assumption].
Qed.

Lemma matchMonthYear_Some (t m y : string) :
  matchMonthYear t = Some (m, y) →
  t = m +:+ "/" +:+ y ∧ oneOrTwoDigits m ∧ fourDigits y.
Proof.
  unfold matchMonthYear.
  destruct (digits12 t) as [[m1 r1]|] eqn:E1; simpl; [|discriminate].
  destruct (literal "/" r1) as [r2|] eqn:E2; simpl; [|discriminate].
  destruct (digits4End r2) as [y'|] eqn:E3; simpl; [|discriminate].
  intros [= <- <-].
  apply digits12_Some in E1 as [-> Hm]. apply literal_Some in E2 as ->.
  apply digits4End_Some in E3 as [-> Hy]. auto.
Qed.

Lemma matchDayMonthYear_Some (sep : ascii) (t d m y : string) :
  matchDayMonthYear sep t = Some (d, m, y) →
  t = d +:+ String sep (m +:+ String sep y)
  ∧ oneOrTwoDigits d ∧ oneOrTwoDigits m ∧ fourDigits y.
Proof.
  unfold matchDayMonthYear.
  destruct (digits12 t) as [[m1 r1]|] eqn:E1; simpl; [|discriminate].
  destruct (literal sep r1) as [r2|] eqn:E2; simpl; [|discriminate].
  destruct (digits12 r2) as [[m2 r3]|] eqn:E3; simpl; [|discriminate].
  destruct (literal sep r3) as [r4|] eqn:E4; simpl; [|discriminate].
  destruct (digits4End r4) as [y'|] eqn:E5; simpl; [|discriminate].
  intros [= <- <- <-].
  apply digits12_Some in E1 as [-> Hd]. apply literal_Some in E2 as ->.
  apply digits12_Some in E3 as [-> Hm]. apply literal_Some in E4 as ->.
  apply digits4End_Some in E5 as [-> Hy]. auto.
Qed.

Lemma matchesShape_cons (p : ascii) (shape t : string) :
  matchesShape (String p shape) t = true →
  ∃ c t', t = String c t'
          ∧ (if isShapeLetter p then isDigit c else Ascii.eqb p c) = true
          ∧ matchesShape shape t' = true.
Proof.
  destruct t as [|c t']; simpl; [discriminate|]. intros E.
  apply andb_prop in E as [E1 E2]. exists c, t'. auto.
Qed.

Lemma matchesShape_nil (t : string) :
  matchesShape EmptyString t = true → t = EmptyString.
Proof. destruct t; simpl; [reflexivity | discriminate]. Qed.

(** Takes a string apart along a shape it matches. *)
Ltac invert_shape H :=
  repeat
    (let c := fresh "c" in
     let t' := fresh "t" in
     let Hc := fresh "Hc" in
     apply matchesShape_cons in H as (c & t' & -> & Hc & H);
     simpl in Hc;
     try (apply Ascii.eqb_eq in Hc; subst c));
  apply matchesShape_nil in H; subst.

(** Rewrites with what is known of the characters that are digits. *)
Ltac digit_step :=
  match goal with
  | H : isDigit ?c = true |- context [isDigit ?c] => rewrite H
  | H : isDigit ?c = true |- context [isWhite ?c] =>
      rewrite (isDigit_not_white c H)
  | H : isDigit ?c = true |- context [Ascii.eqb ?c ?sep] =>
      rewrite (isDigit_not_sep c sep H eq_refl)
  | H : isDigit ?c = true |- context [Ascii.eqb ?sep ?c] =>
      rewrite (sep_not_isDigit c sep H eq_refl)
  end.

Ltac eval_digits :=
  cbv [String.append]; simpl; repeat (digit_step; simpl).

Lemma pad2_two_digits (m : string) :
  oneOrTwoDigits m →
  ∃ a b, padStart2 (IntegerToString (digitsValue 0 m))
         = String a (String b EmptyString)
         ∧ isDigit a = true ∧ isDigit b = true
         ∧ padStart2 (IntegerToString
                        (digitsValue 0 (String a (String b EmptyString))))
           = String a (String b EmptyString).
Proof.
  intros [a Ha | a b Ha Hb].
  - apply isDigit_cases in Ha. simpl in Ha.
    repeat (destruct Ha as [<- | Ha];
            [eexists _, _; repeat split; reflexivity|]).
    destruct Ha.
  - apply isDigit_cases in Ha. apply isDigit_cases in Hb. simpl in Ha, Hb.
    repeat (destruct Ha as [<- | Ha];
            [repeat (destruct Hb as [<- | Hb];
                     [eexists _, _; repeat split; reflexivity|]);
             destruct Hb|]).
    destruct Ha.
Qed.

(** What [normalizeMonth] returns is a key made of a month of one or two
    digits and a year of four digits, and the trimmed input has one of the
    shapes of the patterns. *)
Lemma normalizeMonth_Some_inv (s k : string) :
  normalizeMonth (Some s) = Some k →
  hasShape patternShapes (trim s) = true
  ∧ ∃ m y, oneOrTwoDigits m ∧ fourDigits y ∧ k = monthKey m y.
Proof.
  unfold normalizeMonth. destruct (isEmpty s); [discriminate|].
  destruct (matchMonthYear (trim s)) as [[m y]|] eqn:E1.
  { intros [= <-]. apply matchMonthYear_Some in E1 as (-> & Hm & Hy).
    split; [|eauto].
    destruct Hm, Hy; eval_digits; reflexivity. }
  destruct (matchDayMonthYear "/" (trim s)) as [[[d m] y]|] eqn:E2.
  { intros [= <-]. apply matchDayMonthYear_Some in E2 as (-> & Hd & Hm & Hy).
    split; [|eauto].
    destruct Hd, Hm, Hy; eval_digits; reflexivity. }
  destruct (matchDayMonthYear "-" (trim s)) as [[[d m] y]|] eqn:E3;
    [|discriminate].
  intros [= <-]. apply matchDayMonthYear_Some in E3 as (-> & Hd & Hm & Hy).
  split; [|eauto].
  destruct Hd, Hm, Hy; eval_digits; reflexivity.
Qed.

(** A key is canonical and is its own normal form. *)
Lemma monthKey_canonical_fixed (m y : string) :
  oneOrTwoDigits m → fourDigits y →
  canonicalKey (monthKey m y)
  ∧ normalizeMonth (Some (monthKey m y)) = Some (monthKey m y).
Proof.
  intros Hm Hy. unfold monthKey.
  destruct (pad2_two_digits m Hm) as (a & b & -> & Ha & Hb & Hfix).
  destruct Hy as [y1 y2 y3 y4 H1 H2 H3 H4]. split.
  - unfold canonicalKey. eval_digits. reflexivity.
  - unfold normalizeMonth, trim. eval_digits.
    unfold matchMonthYear. eval_digits. unfold digits4End. eval_digits.
    unfold monthKey. rewrite Hfix. reflexivity.
Qed.

(** A string with one of the shapes of the patterns is normalised. *)
Lemma normalizeMonth_of_shape (t : string) :
  hasShape patternShapes t = true → is_Some (normalizeMonth (Some t)).
Proof.
  unfold hasShape. rewrite existsb_exists. intros (shape & Hin & Hmatch).
  simpl in Hin.
  repeat (destruct Hin as [<- | Hin];
          [invert_shape Hmatch;
           unfold normalizeMonth, trim; eval_digits;
           unfold matchMonthYear, matchDayMonthYear, digits4End; eval_digits;
           eexists; reflexivity|]).
  destruct Hin.
Qed.

Lemma shape_trimmed (t : string) :
  hasShape patternShapes t = true → trim t = t.
Proof.
  unfold hasShape. rewrite existsb_exists. intros (shape & Hin & Hmatch).
  simpl in Hin.
  repeat (destruct Hin as [<- | Hin];
          [invert_shape Hmatch; unfold trim; eval_digits; reflexivity|]).
  destruct Hin.
Qed.

Lemma accepted_shape_is_pattern_shape (s : string) :
  hasShape acceptedShapes s = true → hasShape patternShapes s = true.
Proof.
  unfold hasShape. rewrite !existsb_exists. intros (shape & Hin & Hmatch).
  exists shape. split; [|exact Hmatch]. simpl in Hin |- *. tauto.
Qed.

Lemma normalizeMonth_trim (s : string) :
  normalizeMonth (Some (trim s)) = normalizeMonth (Some s).
Proof.
  unfold normalizeMonth. rewrite trim_idem.
  destruct (trim s) as [|c t] eqn:Et.
  - destruct (isEmpty s); reflexivity.
  - destruct s as [|c' s']; [discriminate Et|]. reflexivity.
Qed.

(** C7, as stated, fails in its last part: a day and a month of one digit
    each with dashes is none of the five shapes, and it is normalised. *)
Lemma unlisted_shape_is_normalised :
  ¬ (∀ s, hasShape acceptedShapes s = false → normalizeMonth (Some s) = None).
Proof.
  intros Hall. specialize (Hall "1-2-2023" eq_refl). discriminate Hall.
Qed.

(** C7, amended: a string with one of the five shapes is normalised; what
    [normalizeMonth] returns is always a canonical key, two digits, a slash
    and four digits; normalising is idempotent; and the sentinel is returned
    exactly when the trimmed input has none of the shapes of the three
    patterns, in which the day and the month have one or two digits each,
    with slashes or with dashes. *)
Theorem normalizeMonth_canonical_and_idempotent (s : string) :
  (hasShape acceptedShapes s = true → is_Some (normalizeMonth (Some s)))
  ∧ (∀ k, normalizeMonth (Some s) = Some k → canonicalKey k)
  ∧ normalizeMonth (normalizeMonth (Some s)) = normalizeMonth (Some s)
  ∧ (normalizeMonth (Some s) = None ↔ hasShape patternShapes (trim s) = false).
Proof.
  split; [|split; [|split]].
  - intros Hs. apply accepted_shape_is_pattern_shape in Hs.
    apply normalizeMonth_of_shape. exact Hs.
  - intros k Hk. apply normalizeMonth_Some_inv in Hk as (_ & m & y & Hm & Hy & ->).
    apply monthKey_canonical_fixed; assumption.
  - destruct (normalizeMonth (Some s)) as [k|] eqn:Hk; [|reflexivity].
    apply normalizeMonth_Some_inv in Hk as (_ & m & y & Hm & Hy & ->).
    apply monthKey_canonical_fixed; assumption.
  - split.
    + intros Hnone. destruct (hasShape patternShapes (trim s)) eqn:Hshape;
        [|reflexivity].
      apply normalizeMonth_of_shape in Hshape as [k Hk].
      rewrite normalizeMonth_trim in Hk. congruence.
    + intros Hshape. destruct (normalizeMonth (Some s)) as [k|] eqn:Hk;
        [|reflexivity].
      apply normalizeMonth_Some_inv in Hk as (Hyes & _). congruence.
Qed.

(** C7 at the last day of 2022. *)
Lemma normalizeMonth_canonical_and_idempotent_witness :
  is_Some (normalizeMonth (Some "31/12/2022")) ∧ canonicalKey "12/2022".
Proof.
  pose proof (normalizeMonth_canonical_and_idempotent "31/12/2022")
    as (Hsome & Hkey & _).
  split.
  - apply Hsome. reflexivity.
  - apply (Hkey "12/2022"). reflexivity.
Defined.

(** The scenario of the specification. *)
Example normalizeMonth_scenario :
  List.map (fun s => normalizeMonth (Some s)) ["01/2023"; "31/12/2022"; "13-01-2023"]
  = [Some "01/2023"; Some "12/2022"; Some "01/2023"].
Proof. reflexivity. Qed.

(** *** Month arithmetic (C8) *)

Lemma splitOn_canonical (a b c d e f : ascii) :
  isDigit a = true → isDigit b = true → isDigit c = true →
  isDigit d = true → isDigit e = true → isDigit f = true →
  splitOn "/" (String a (String b (String "/"
                 (String c (String d (String e (String f EmptyString)))))))
  = [String a (String b EmptyString);
     String c (String d (String e (String f EmptyString)))].
Proof. intros Ha Hb Hc Hd He Hf. eval_digits. reflexivity. Qed.

Lemma StringToInteger_digits2 (a b : ascii) :
  isDigit a = true → isDigit b = true →
  StringToInteger (String a (String b EmptyString))
  = Some (digitsValue 0 (String a (String b EmptyString))).
Proof.
  intros Ha Hb. unfold StringToInteger, trim. eval_digits. reflexivity.
Qed.

Lemma StringToInteger_digits4 (a b c d : ascii) :
  isDigit a = true → isDigit b = true → isDigit c = true → isDigit d = true →
  StringToInteger (String a (String b (String c (String d EmptyString))))
  = Some (digitsValue 0 (String a (String b (String c (String d EmptyString))))).
Proof.
  intros Ha Hb Hc Hd. unfold StringToInteger, trim. eval_digits. reflexivity.
Qed.

Lemma digitVal_range (c : ascii) : isDigit c = true → 0 ≤ digitVal c ≤ 9.
Proof.
  intros E. apply isDigit_cases in E. simpl in E.
  repeat (destruct E as [<- | E]; [vm_compute; split; discriminate|]).
  destruct E.
Qed.

(** A canonical key splits into its month and its year. *)
Lemma canonicalKey_inv (k : string) :
  canonicalKey k →
  ∃ a b c d e f,
    k = String a (String b (String "/"
          (String c (String d (String e (String f EmptyString))))))
    ∧ isDigit a = true ∧ isDigit b = true ∧ isDigit c = true
    ∧ isDigit d = true ∧ isDigit e = true ∧ isDigit f = true.
Proof.
  unfold canonicalKey. intros H. invert_shape H.
  eexists _, _, _, _, _, _. repeat split; eassumption.
Qed.

Lemma monthAndYear_canonical (k : string) :
  canonicalKey k →
  ∃ mm yy, monthAndYear k = (Some mm, Some yy)
           ∧ 0 ≤ mm ≤ 99 ∧ 0 ≤ yy ≤ 9999.
Proof.
  intros Hk. apply canonicalKey_inv in Hk
    as (a & b & c & d & e & f & -> & Ha & Hb & Hc & Hd & He & Hf).
  unfold monthAndYear.
  rewrite splitOn_canonical by assumption.
  cbn [List.map lookup list_lookup mjoin option_join].
  rewrite StringToInteger_digits2, StringToInteger_digits4 by assumption.
  eexists _, _. split; [reflexivity|].
  apply digitVal_range in Ha, Hb, Hc, Hd, He, Hf. cbn [digitsValue]. lia.
Qed.

(** The loop of [minusMonths], started at a month from 1 to 12, counts
    months back. *)
Lemma iter_monthBefore (mm yy : Z) (n : nat) :
  1 ≤ mm ≤ 12 → Nat.iter n monthBefore (mm, yy) = monthsBack mm yy n.
Proof.
  intros Hmm. induction n as [|n IH].
  - unfold monthsBack. simpl. f_equal.
    + rewrite Z.sub_0_r. replace (12 * yy + (mm - 1)) with ((mm - 1) + yy * 12) by lia.
      rewrite Z.mod_add by lia. rewrite Z.mod_small by lia. lia.
    + rewrite Z.sub_0_r. replace (12 * yy + (mm - 1)) with ((mm - 1) + yy * 12) by lia.
      rewrite Z.div_add by lia. rewrite Z.div_small by lia. lia.
  - rewrite Nat.iter_succ, IH. unfold monthsBack, monthBefore.
    set (t := 12 * yy + (mm - 1) - Z.of_nat n).
    replace (12 * yy + (mm - 1) - Z.of_nat (S n)) with (t - 1) by lia.
    pose proof (Z.div_mod t 12 ltac:(lia)) as Ht.
    pose proof (Z.mod_pos_bound t 12 ltac:(lia)) as Hr.
    pose proof (Z.div_mod (t - 1) 12 ltac:(lia)) as Ht'.
    pose proof (Z.mod_pos_bound (t - 1) 12 ltac:(lia)) as Hr'.
    destruct (t mod 12 + 1 - 1 =? 0) eqn:E.
    + apply Z.eqb_eq in E. f_equal; lia.
    + apply Z.eqb_neq in E. f_equal; lia.
Qed.

(** From a month from 1 to 12 the loop of the code and the wording of the
    specification agree. *)
Lemma iter_specMonthBefore (mm yy : Z) (n : nat) :
  1 ≤ mm ≤ 12 →
  Nat.iter n specMonthBefore (mm, yy) = Nat.iter n monthBefore (mm, yy).
Proof.
  intros Hmm. induction n as [|n IH]; [reflexivity|].
  rewrite !Nat.iter_succ, IH, iter_monthBefore by assumption.
  unfold monthsBack, specMonthBefore, monthBefore.
  set (t := 12 * yy + (mm - 1) - Z.of_nat n).
  pose proof (Z.mod_pos_bound t 12 ltac:(lia)) as Hr.
  destruct (t mod 12 + 1 - 1 <? 1) eqn:E1, (t mod 12 + 1 - 1 =? 0) eqn:E2;
    try reflexivity; lia.
Qed.

(** Printing what two digits denote, padded, gives them back; so does
    printing what four digits denote when the first is not 0. *)
Lemma print_two_digits_all :
  forallb (fun a => forallb (fun b =>
    String.eqb
      (padStart2 (IntegerToString (digitsValue 0 (String a (String b EmptyString)))))
      (String a (String b EmptyString))) digitChars) digitChars = true.
Proof. vm_compute. reflexivity. Qed.

Lemma print_four_digits_all :
  forallb (fun a => forallb (fun b => forallb (fun c => forallb (fun d =>
    String.eqb
      (IntegerToString
         (digitsValue 0 (String a (String b (String c (String d EmptyString))))))
      (String a (String b (String c (String d EmptyString)))))
    digitChars) digitChars) digitChars) (tail digitChars) = true.
Proof. vm_compute. reflexivity. Qed.

Lemma print_two_digits (a b : ascii) :
  isDigit a = true → isDigit b = true →
  padStart2 (IntegerToString (digitsValue 0 (String a (String b EmptyString))))
  = String a (String b EmptyString).
Proof.
  intros Ha%isDigit_cases Hb%isDigit_cases.
  pose proof print_two_digits_all as H.
  rewrite forallb_forall in H. specialize (H a Ha).
  rewrite forallb_forall in H. specialize (H b Hb).
  apply String.eqb_eq in H. exact H.
Qed.

Lemma print_four_digits (a b c d : ascii) :
  isDigit a = true → a ≠ "0"%char →
  isDigit b = true → isDigit c = true → isDigit d = true →
  IntegerToString
    (digitsValue 0 (String a (String b (String c (String d EmptyString)))))
  = String a (String b (String c (String d EmptyString))).
Proof.
  intros Ha%isDigit_cases Hnz Hb%isDigit_cases Hc%isDigit_cases Hd%isDigit_cases.
  assert (Ha' : In a (tail digitChars)).
  { destruct Ha as [Ha | Ha]; [congruence | exact Ha]. }
  pose proof print_four_digits_all as H.
  rewrite forallb_forall in H. specialize (H a Ha').
  rewrite forallb_forall in H. specialize (H b Hb).
  rewrite forallb_forall in H. specialize (H c Hc).
  rewrite forallb_forall in H. specialize (H d Hd).
  apply String.eqb_eq in H. exact H.
Qed.

(** From a month that is at least 1 the loop of the code and the wording of
    the specification agree, and the month stays at least 1. *)
Lemma iter_specMonthBefore_from_1 (mm yy : Z) (n : nat) :
  1 ≤ mm →
  Nat.iter n specMonthBefore (mm, yy) = Nat.iter n monthBefore (mm, yy)
  ∧ 1 ≤ fst (Nat.iter n monthBefore (mm, yy)).
Proof.
  intros Hmm. induction n as [|n [IH Hge]]; [split; [reflexivity | exact Hmm]|].
  rewrite !Nat.iter_succ, IH.
  destruct (Nat.iter n monthBefore (mm, yy)) as [mm' yy']. cbn [fst] in Hge.
  unfold specMonthBefore, monthBefore.
  destruct (Z.ltb_spec (mm' - 1) 1), (Z.eqb_spec (mm' - 1) 0);
    cbn [fst]; split; try reflexivity; lia.
Qed.

(** **** The count of the loop in binary64 *)

Lemma iter_pos_nat {A} (f : A → A) (n : positive) (x : A) :
  SpecFloat.iter_pos f n x = Nat.iter (Pos.to_nat n) f x.
Proof.
  revert x. induction n as [n IH|n IH|]; intros x; cbn [SpecFloat.iter_pos].
  - rewrite !IH, Pos2Nat.inj_xI.
    replace (S (2 * Pos.to_nat n)) with (Pos.to_nat n + (Pos.to_nat n + 1))%nat by lia.
    rewrite !Nat.iter_add. reflexivity.
  - rewrite !IH, Pos2Nat.inj_xO.
    replace (2 * Pos.to_nat n)%nat with (Pos.to_nat n + Pos.to_nat n)%nat by lia.
    rewrite Nat.iter_add. reflexivity.
  - reflexivity.
Qed.

Lemma pos_iter_nat {A} (f : A → A) (n : positive) (x : A) :
  Pos.iter f x n = Nat.iter (Pos.to_nat n) f x.
Proof. apply Pos2Nat.inj_iter. Qed.

Lemma digits_shift (q : positive) (i : nat) :
  digits (Nat.iter i xO q) = (digits q + i)%nat.
Proof.
  induction i as [|i IH]; [cbn [Nat.iter nat_rect]; lia|].
  rewrite Nat.iter_succ. unfold digits in *. cbn [digits2_pos].
  rewrite Pos2Nat.inj_succ, IH. lia.
Qed.

Lemma Zpos_shift (q : positive) (i : nat) :
  Z.pos (Nat.iter i xO q) = Z.pos q * 2 ^ Z.of_nat i.
Proof.
  induction i as [|i IH]; [cbn [Nat.iter nat_rect]; lia|].
  rewrite Nat.iter_succ, (Pos2Z.inj_xO (Nat.iter i xO q)), IH, Nat2Z.inj_succ, Z.pow_succ_r by lia.
  lia.
Qed.

Lemma digits_bounds (q : positive) :
  2 ^ (Z.of_nat (digits q) - 1) ≤ Z.pos q < 2 ^ Z.of_nat (digits q).
Proof.
  unfold digits. induction q as [q IH|q IH|]; cbn [digits2_pos].
  - pose proof (Pos2Nat.is_pos (digits2_pos q)) as Hpos.
    rewrite Pos2Nat.inj_succ, Nat2Z.inj_succ, (Pos2Z.inj_xI q).
    set (d := Z.of_nat (Pos.to_nat (digits2_pos q))) in *.
    replace (Z.succ d - 1) with (Z.succ (d - 1)) by lia.
    rewrite !Z.pow_succ_r by lia.
    revert IH. generalize (2 ^ (d - 1)) (2 ^ d). intros. lia.
  - pose proof (Pos2Nat.is_pos (digits2_pos q)) as Hpos.
    rewrite Pos2Nat.inj_succ, Nat2Z.inj_succ, (Pos2Z.inj_xO q).
    set (d := Z.of_nat (Pos.to_nat (digits2_pos q))) in *.
    replace (Z.succ d - 1) with (Z.succ (d - 1)) by lia.
    rewrite !Z.pow_succ_r by lia.
    revert IH. generalize (2 ^ (d - 1)) (2 ^ d). intros; lia.
  - cbn. lia.
Qed.

Lemma digits_le_53 (q : positive) : Z.pos q < 2 ^ 53 → (digits q ≤ 53)%nat.
Proof.
  intros Hq. pose proof (digits_bounds q) as [Hlo _].
  destruct (Nat.le_gt_cases (digits q) 53) as [|Hgt]; [assumption|].
  exfalso. assert (2 ^ 53 ≤ 2 ^ (Z.of_nat (digits q) - 1)); [|lia].
  apply Z.pow_le_mono_r; lia.
Qed.

Lemma shl_align_le (mx : positive) (ex ex' : Z) :
  ex' ≤ ex →
  shl_align mx ex ex' = (Nat.iter (Z.to_nat (ex - ex')) xO mx, ex').
Proof.
  intros Hle. unfold shl_align.
  destruct (ex' - ex) as [|d|d] eqn:E; [ | lia | ].
  - replace (ex - ex') with 0 by lia. cbn [Z.to_nat Nat.iter nat_rect].
    f_equal. lia.
  - replace (ex - ex') with (Z.pos d) by lia. rewrite pos_iter_nat.
    reflexivity.
Qed.

Lemma shl_align_ge (mx : positive) (ex ex' : Z) :
  ex ≤ ex' → shl_align mx ex ex' = (mx, ex).
Proof.
  intros Hle. unfold shl_align.
  destruct (ex' - ex) as [|d|d] eqn:E; [reflexivity | reflexivity | lia].
Qed.

Lemma shr_trailing_zeros (q : positive) (j : nat) :
  Nat.iter j shr_1 {| shr_m := Z.pos (Nat.iter j xO q); shr_r := false; shr_s := false |}
  = {| shr_m := Z.pos q; shr_r := false; shr_s := false |}.
Proof.
  induction j as [|j IH]; [reflexivity|].
  rewrite Nat.iter_succ_r. rewrite Nat.iter_succ. cbn [shr_1 orb]. exact IH.
Qed.

Lemma shr_fexp_canonical (m : positive) (e : Z) :
  digits m = 53%nat → -1074 ≤ e →
  shr_fexp prec emax (Z.pos m) e loc_Exact
  = ({| shr_m := Z.pos m; shr_r := false; shr_s := false |}, e).
Proof.
  intros Hd He. unfold shr_fexp, fexp, emin, Zdigits2, prec, emax.
  unfold digits in Hd.
  replace (Z.pos (digits2_pos m)) with 53 by lia.
  replace (Z.max (53 + e - 53) (3 - 1024 - 53) - e) with 0 by lia.
  reflexivity.
Qed.

Lemma binary_round_aux_canonical (m : positive) (e : Z) :
  digits m = 53%nat → -1074 ≤ e ≤ 0 →
  binary_round_aux prec emax false (Z.pos m) e loc_Exact = S754_finite false m e.
Proof.
  intros Hd He. unfold binary_round_aux.
  rewrite shr_fexp_canonical by (assumption || lia).
  cbn [shr_m loc_of_shr_record round_nearest_even].
  rewrite shr_fexp_canonical by (assumption || lia).
  cbn [shr_m]. unfold prec, emax.
  destruct (Z.leb_spec e (1024 - 53)); [reflexivity | lia].
Qed.

(** Rounding an integer of at most 53 digits, given with [i] more zeros and
    the exponent [-i], gives its canonical form. *)
Lemma binary_round_exact (q : positive) (i : nat) :
  (digits q ≤ 53)%nat → (i ≤ 1000)%nat →
  binary_round prec emax false (Nat.iter i xO q) (- Z.of_nat i) = normalForm q.
Proof.
  intros Hd Hi. unfold binary_round, normalForm.
  pose proof (Pos2Nat.is_pos (digits2_pos q)) as Hpos. fold (digits q) in Hpos.
  assert (Hfexp : fexp prec emax (Z.pos (digits2_pos (Nat.iter i xO q)) + - Z.of_nat i)
                  = Z.of_nat (digits q) - 53).
  { unfold fexp, emin, prec, emax.
    pose proof (digits_shift q i) as Hs. unfold digits in Hs |- *. lia. }
  rewrite Hfexp.
  destruct (Z.le_gt_cases (Z.of_nat (digits q) - 53) (- Z.of_nat i)) as [Hle|Hgt].
  - rewrite shl_align_le by exact Hle.
    rewrite <- Nat.iter_add.
    replace (Z.to_nat (- Z.of_nat i - (Z.of_nat (digits q) - 53)) + i)%nat
      with (53 - digits q)%nat by lia.
    apply binary_round_aux_canonical; [|lia].
    rewrite digits_shift. lia.
  - rewrite shl_align_ge by lia.
    unfold binary_round_aux.
    set (j := (digits q + i - 53)%nat).
    assert (Hshr : shr_fexp prec emax (Z.pos (Nat.iter i xO q)) (- Z.of_nat i) loc_Exact
                   = ({| shr_m := Z.pos (Nat.iter (53 - digits q) xO q);
                         shr_r := false; shr_s := false |},
                      Z.of_nat (digits q) - 53)).
    { unfold shr_fexp. cbn [Zdigits2]. rewrite Hfexp. cbn [shr_record_of_loc].
      unfold shr.
      destruct (Z.of_nat (digits q) - 53 - - Z.of_nat i) as [|d|d] eqn:E; [lia| |lia].
      rewrite iter_pos_nat.
      assert (Hi2 : Nat.iter i xO q
                    = Nat.iter (Pos.to_nat d) xO (Nat.iter (53 - digits q) xO q)).
      { rewrite <- Nat.iter_add. f_equal. lia. }
      rewrite Hi2, shr_trailing_zeros. f_equal. lia. }
    rewrite Hshr. cbn [shr_m loc_of_shr_record round_nearest_even].
    rewrite shr_fexp_canonical by (rewrite ?digits_shift; lia).
    cbn [shr_m]. unfold prec, emax.
    destruct (Z.leb_spec (Z.of_nat (digits q) - 53) (1024 - 53)); [reflexivity | lia].
Qed.

Lemma Prim2SF_ofZ (q : positive) :
  Z.pos q < 2 ^ 53 → Prim2SF (ofZ (Z.pos q)) = normalForm q.
Proof.
  intros Hq. unfold ofZ. cbn [Z.ltb Z.compare].
  rewrite of_uint63_spec, Uint63.of_Z_spec.
  rewrite Z.mod_small.
  - cbn [binary_normalize].
    apply (binary_round_exact q 0); [apply digits_le_53; exact Hq | lia].
  - assert (Hw : 2 ^ 53 < wB) by reflexivity. lia.
Qed.

Lemma ofZ_minus_one (q : positive) :
  Z.pos q < 2 ^ 53 → (ofZ (Z.pos q) - 1)%float = ofZ (Z.pos q - 1).
Proof.
  intros Hq. apply FloatAxioms.Prim2SF_inj.
  rewrite FloatAxioms.sub_spec, (Prim2SF_ofZ q Hq).
  change (Prim2SF 1) with (S754_finite false 4503599627370496 (-52)).
  pose proof (digits_le_53 q Hq) as Hd.
  pose proof (Pos2Nat.is_pos (digits2_pos q)) as Hpos. fold (digits q) in Hpos.
  unfold SF64sub, SFsub, normalForm.
  rewrite Z.min_r by lia.
  rewrite shl_align_le by lia. rewrite (shl_align_le 4503599627370496) by lia.
  cbn [fst cond_Zopp]. rewrite <- Nat.iter_add.
  replace (Z.to_nat (Z.of_nat (digits q) - 53 - -52) + (53 - digits q))%nat
    with 52%nat by lia.
  replace (Z.to_nat (-52 - -52)) with 0%nat by lia.
  change (Nat.iter 0 xO 4503599627370496%positive) with 4503599627370496%positive.
  destruct (Pos.eq_dec q 1%positive) as [->|Hne].
  - reflexivity.
  - assert (Hq' : Z.pos q - 1 = Z.pos (Pos.pred q)) by lia.
    rewrite Hq', (Prim2SF_ofZ (Pos.pred q)) by lia.
    replace (Z.pos (Nat.iter 52 xO q) - 4503599627370496)
      with (Z.pos (Nat.iter 52 xO (Pos.pred q))).
    + cbn [binary_normalize].
      apply (binary_round_exact (Pos.pred q) 52); [|lia].
      apply digits_le_53. lia.
    + rewrite !Zpos_shift. change (2 ^ Z.of_nat 52) with 4503599627370496. lia.
Qed.

Lemma ofZ_truthy (q : positive) :
  Z.pos q < 2 ^ 53 → truthy (VNum (ofZ (Z.pos q))) = true.
Proof.
  intros Hq. cbn [truthy]. unfold is_nan, PrimFloat.is_zero.
  rewrite !FloatAxioms.eqb_spec, (Prim2SF_ofZ q Hq).
  change (Prim2SF PrimFloat.zero) with (S754_zero false).
  unfold normalForm, SFeqb, SFcompare.
  rewrite Z.compare_refl, Pos.compare_cont_refl. reflexivity.
Qed.

Lemma integerOf_ofZ (N : Z) : 0 ≤ N ≤ 2 ^ 53 → integerOf (ofZ N) = Some N.
Proof.
  intros HN. destruct N as [|q|q]; [reflexivity | | lia].
  destruct (Z.eq_dec (Z.pos q) (2 ^ 53)) as [E|E].
  { change (2 ^ 53) with (Z.pos 9007199254740992) in E. injection E as ->.
    reflexivity. }
  assert (Hq : Z.pos q < 2 ^ 53) by lia.
  unfold integerOf. rewrite (Prim2SF_ofZ q Hq). unfold normalForm.
  pose proof (digits_le_53 q Hq) as Hd.
  rewrite Zpos_shift.
  destruct (Z.leb_spec 0 (Z.of_nat (digits q) - 53)) as [Hz|Hneg].
  - cbn [orb]. replace (53 - digits q)%nat with 0%nat by lia.
    replace (Z.of_nat (digits q) - 53) with 0 by lia. f_equal.
    change (2 ^ Z.of_nat 0) with 1. change (2 ^ 0) with 1. lia.
  - cbn [orb].
    replace (- (Z.of_nat (digits q) - 53)) with (Z.of_nat (53 - digits q)) by lia.
    assert (Hpow : 0 < 2 ^ Z.of_nat (53 - digits q))
      by (apply Z.pow_pos_nonneg; lia).
    rewrite Z.mod_mul, Z.div_mul by lia. reflexivity.
Qed.

(** The loop with a count that is an integer from 0 to 2^53 ends after as
    many turns as the count, whatever fuel beyond that it is given: every
    decrement of the count is exact. *)
Lemma minusLoop_count (N : nat) :
  ∀ (p : Z * Z) (fuel : nat),
    Z.of_nat N ≤ 2 ^ 53 → (N < fuel)%nat →
    minusLoop fuel p (ofZ (Z.of_nat N)) = Some (Nat.iter N monthBefore p).
Proof.
  induction N as [|N IH]; intros p fuel HN Hfuel;
    (destruct fuel as [|fuel]; [lia|]).
  - reflexivity.
  - cbn [minusLoop]. rewrite Nat.iter_succ_r.
    destruct (Z.eq_dec (Z.of_nat (S N)) (2 ^ 53)) as [E|E].
    + rewrite E. change (truthy (VNum (ofZ (2 ^ 53)))) with true. cbv iota.
      change (ofZ (2 ^ 53) - 1)%float with (ofZ (2 ^ 53 - 1)).
      replace (2 ^ 53 - 1) with (Z.of_nat N) by lia. apply IH; lia.
    + assert (Hq : Z.of_nat (S N) = Z.pos (Pos.of_succ_nat N))
          by reflexivity.
      rewrite Hq, ofZ_truthy, ofZ_minus_one by lia.
      replace (Z.pos (Pos.of_succ_nat N) - 1) with (Z.of_nat N) by lia.
      apply IH; lia.
Qed.

(** The loop with the count 2^53 + 4 never ends: subtracting 1 from that
    count gives the count again. *)
Lemma minusLoop_never_ends (fuel : nat) :
  ∀ p, minusLoop fuel p 9007199254740996%float = None.
Proof.
  induction fuel as [|fuel IH]; intros p; [reflexivity|].
  cbn [minusLoop].
  change (truthy (VNum 9007199254740996%float)) with true. cbv iota.
  change (9007199254740996 - 1)%float with 9007199254740996%float. apply IH.
Qed.

Lemma minusMonths_unfold (m : string) (N : Z) (mm yy : Z) :
  monthAndYear m = (Some mm, Some yy) →
  0 ≤ mm ≤ 2 ^ 53 → - 2 ^ 52 ≤ yy ≤ 2 ^ 52 → 0 ≤ N ≤ 2 ^ 53 →
  minusMonths m (ofZ N)
  = Some (formatKey (Nat.iter (Z.to_nat N) monthBefore (mm, yy))).
Proof.
  intros E Hmm Hyy HN. unfold minusMonths.
  rewrite E, (integerOf_ofZ N HN).
  destruct (Z.leb_spec 0 mm); [|lia]. destruct (Z.leb_spec mm (2 ^ 53)); [|lia].
  destruct (Z.leb_spec (Z.abs yy) (2 ^ 52)); [|lia].
  destruct (Z.leb_spec 0 N); [|lia]. destruct (Z.leb_spec N (2 ^ 53)); [|lia].
  cbn [andb].
  pose proof (minusLoop_count (Z.to_nat N) (mm, yy) (S (Z.to_nat N))) as Hloop.
  rewrite Z2Nat.id in Hloop by lia.
  rewrite Hloop by lia. cbn [mbind option_bind].
  destruct (Nat.iter (Z.to_nat N) monthBefore (mm, yy)) as [mm' yy'].
  reflexivity.
Qed.

(** C8, as stated, fails in three ways.  After month 00 the counter goes to
    -1 without wrapping; a year with leading zeros is printed without them,
    so that subtracting no month changes the key; and the count 2^53 + 4, a
    non-negative integer, is not changed by the decrement of the loop,
    which then never ends, whatever the key. *)
Lemma minusMonths_month_00_padded_year_and_endless_loop :
  ¬ (∀ m n, canonicalKey m →
            minusMonths m (ofZ (Z.of_nat n)) = specMinusMonths m n)
  ∧ ¬ (∀ m, canonicalKey m → minusMonths m (ofZ 0) = Some m)
  ∧ integerOf 9007199254740996%float = Some (2 ^ 53 + 4)
  ∧ (9007199254740996 - 1)%float = 9007199254740996%float
  ∧ ∀ fuel p, minusLoop fuel p 9007199254740996%float = None.
Proof.
  split; [|split; [|split; [|split]]].
  - intros Hall. specialize (Hall "00/2023" 1%nat eq_refl).
    vm_compute in Hall. discriminate Hall.
  - intros Hall. specialize (Hall "01/0999" eq_refl).
    vm_compute in Hall. discriminate Hall.
  - reflexivity.
  - reflexivity.
  - intros fuel p. apply minusLoop_never_ends.
Qed.

(** C8, amended: for every canonical key and every count [N] that is an
    integer from 0 to 2^53, the loop of [minusMonths] ends after [N] turns,
    with any fuel beyond [N], and [minusMonths] returns the key of the month
    and year that these turns reach; when the month of the key is not 00
    this is the key that the wording of the specification gives, the month
    wrapping to 12 and the year decreasing whenever the month drops below 1
    (the year is printed as a plain integer, which may be negative), and
    when the month is from 01 to 12 it is the month [N] months earlier;
    [minusMonths] with the count 0 gives the key back when its year does not
    start with 0.  With the count 2^53 + 4 the loop does not end, whatever
    fuel it is given. *)
Theorem minusMonths_counts_months_back (m : string) (N : Z) :
  canonicalKey m → 0 ≤ N ≤ 2 ^ 53 →
  ∃ mm yy,
    monthAndYear m = (Some mm, Some yy)
    ∧ (∀ fuel, (Z.to_nat N < fuel)%nat →
         minusLoop fuel (mm, yy) (ofZ N)
         = Some (Nat.iter (Z.to_nat N) monthBefore (mm, yy)))
    ∧ minusMonths m (ofZ N)
      = Some (formatKey (Nat.iter (Z.to_nat N) monthBefore (mm, yy)))
    ∧ (1 ≤ mm → minusMonths m (ofZ N) = specMinusMonths m (Z.to_nat N))
    ∧ (1 ≤ mm ≤ 12 →
       minusMonths m (ofZ N) = Some (formatKey (monthsBack mm yy (Z.to_nat N))))
    ∧ (String.get 3 m ≠ Some "0"%char → minusMonths m (ofZ 0) = Some m)
    ∧ ∀ fuel, minusLoop fuel (mm, yy) 9007199254740996%float = None.
Proof.
  intros Hk HN.
  destruct (monthAndYear_canonical m Hk) as (mm & yy & E & Hmm & Hyy).
  assert (Hunfold : ∀ N', 0 ≤ N' ≤ 2 ^ 53 →
            minusMonths m (ofZ N')
            = Some (formatKey (Nat.iter (Z.to_nat N') monthBefore (mm, yy)))).
  { intros N' HN'. apply minusMonths_unfold; [exact E | lia | lia | exact HN']. }
  exists mm, yy. split; [exact E|]. split.
  { intros fuel Hfuel.
    pose proof (minusLoop_count (Z.to_nat N) (mm, yy) fuel) as Hloop.
    rewrite Z2Nat.id in Hloop by lia. apply Hloop; lia. }
  split; [apply Hunfold, HN|]. split; [|split; [|split]];
    [| | |intros fuel; apply minusLoop_never_ends].
  - intros Hge. rewrite (Hunfold N HN). unfold specMinusMonths.
    rewrite E, (proj1 (iter_specMonthBefore_from_1 mm yy _ Hge)). reflexivity.
  - intros Hrange. rewrite (Hunfold N HN), iter_monthBefore by assumption.
    reflexivity.
  - intros Hyear. rewrite (Hunfold 0) by lia.
    apply canonicalKey_inv in Hk
      as (a & b & c & d & e & f & -> & Ha & Hb & Hc & Hd & He & Hf).
    unfold monthAndYear in E. rewrite splitOn_canonical in E by assumption.
    cbn [List.map lookup list_lookup mjoin option_join] in E.
    rewrite StringToInteger_digits2, StringToInteger_digits4 in E by assumption.
    assert (Emm : mm = digitsValue 0 (String a (String b EmptyString)))
      by congruence.
    assert (Eyy : yy = digitsValue 0
                         (String c (String d (String e (String f EmptyString)))))
      by congruence.
    subst mm yy. clear E.
    unfold formatKey. change (Z.to_nat 0) with 0%nat.
    cbn [Nat.iter nat_rect fst snd].
    rewrite print_two_digits by assumption.
    rewrite print_four_digits; try assumption; [reflexivity|].
    intros ->. apply Hyear. reflexivity.
Qed.

(** C8 at the default start: twelve months before January 2023. *)
Lemma minusMonths_counts_months_back_witness :
  ∃ mm yy,
    monthAndYear "01/2023" = (Some mm, Some yy)
    ∧ (∀ fuel, (Z.to_nat 12 < fuel)%nat →
         minusLoop fuel (mm, yy) (ofZ 12)
         = Some (Nat.iter (Z.to_nat 12) monthBefore (mm, yy)))
    ∧ minusMonths "01/2023" (ofZ 12)
      = Some (formatKey (Nat.iter (Z.to_nat 12) monthBefore (mm, yy)))
    ∧ (1 ≤ mm → minusMonths "01/2023" (ofZ 12) = specMinusMonths "01/2023" (Z.to_nat 12))
    ∧ (1 ≤ mm ≤ 12 →
       minusMonths "01/2023" (ofZ 12)
       = Some (formatKey (monthsBack mm yy (Z.to_nat 12))))
    ∧ (String.get 3 "01/2023" ≠ Some "0"%char →
       minusMonths "01/2023" (ofZ 0) = Some "01/2023")
    ∧ ∀ fuel, minusLoop fuel (mm, yy) 9007199254740996%float = None.
Proof.
  apply (minusMonths_counts_months_back "01/2023" 12); [reflexivity | lia].
Defined.

Example minusMonths_default_start :
  minusMonths "01/2023" 12%float = Some "01/2022".
Proof. reflexivity. Qed.

Example minusMonths_before_year_zero :
  minusMonths "03/0000" 5%float = Some "10/-1".
Proof. reflexivity. Qed.

(** *** The order of the ledger (C4) *)

Section SortBy.
Context {A : Type} (cmp : A → A → option Z).
Context (le : A → A → Prop) (covered : A → Prop).

Hypothesis cmp_covered : ∀ x y, covered x → covered y →
  ∃ c, cmp x y = Some c ∧ (c ≤ 0 → le x y) ∧ (0 < c → le y x).
Hypothesis le_trans : ∀ x y z, le x y → le y z → le x z.

Lemma insertBy_sorted (x : A) (l : list A) :
  covered x → Forall covered l → StronglySorted le l →
  ∃ l', insertBy cmp x l = Some l'
        ∧ Permutation (x :: l) l' ∧ StronglySorted le l'.
Proof.
  intros Hx. induction l as [|y t IH]; intros Hl Hs; simpl.
  - exists [x]. repeat split; [reflexivity | repeat constructor].
  - apply Forall_cons in Hl as [Hy Ht].
    apply StronglySorted_inv in Hs as [Hst Hyt].
    destruct (cmp_covered x y Hx Hy) as (c & -> & Hle & Hgt). simpl.
    destruct (0 <? c) eqn:Ec.
    + apply Z.ltb_lt in Ec.
      destruct (IH Ht Hst) as (l' & -> & Hperm & Hsorted). simpl.
      exists (y :: l'). split; [reflexivity|]. split.
      * rewrite perm_swap. constructor. exact Hperm.
      * constructor; [exact Hsorted|].
        eapply Permutation_Forall; [exact Hperm|].
        constructor; [apply Hgt, Ec | exact Hyt].
    + apply Z.ltb_ge in Ec. exists (x :: y :: t).
      split; [reflexivity|]. split; [reflexivity|].
      constructor; [constructor; assumption|].
      constructor; [apply Hle, Ec|].
      eapply Forall_impl; [exact Hyt|]. intros z Hz.
      eapply le_trans; [apply Hle, Ec | exact Hz].
Qed.

Lemma sortBy_sorted (l : list A) :
  Forall covered l →
  ∃ l', sortBy cmp l = Some l' ∧ Permutation l l' ∧ StronglySorted le l'.
Proof.
  induction l as [|x t IH]; intros Hl; simpl.
  - exists []. repeat split; constructor.
  - apply Forall_cons in Hl as [Hx Ht].
    destruct (IH Ht) as (t' & -> & Hperm & Hsorted). simpl.
    destruct (insertBy_sorted x t' Hx) as (l' & El & Hperm' & Hsorted').
    + eapply Permutation_Forall; eassumption.
    + exact Hsorted.
    + exists l'. split; [exact El|]. split; [|exact Hsorted'].
      rewrite <- Hperm'. constructor. exact Hperm.
Qed.
End SortBy.

Lemma monthLe_trans (a b c : string) : monthLe a b → monthLe b c → monthLe a c.
Proof. unfold monthLe. lia. Qed.

Lemma compareMonth_canonical (a b : string) :
  canonicalKey a → canonicalKey b →
  ∃ c, compareMonth a b = Some c
       ∧ (c ≤ 0 → monthLe a b) ∧ (0 < c → monthLe b a).
Proof.
  intros Ha Hb.
  destruct (monthAndYear_canonical a Ha) as (am & ay & Ea & _).
  destruct (monthAndYear_canonical b Hb) as (bm & by_ & Eb & _).
  unfold compareMonth, monthLe, keyOrder. rewrite Ea, Eb. simpl.
  destruct (ay =? by_) eqn:E; simpl.
  - apply Z.eqb_eq in E. eexists. split; [reflexivity|]. lia.
  - apply Z.eqb_neq in E. eexists. split; [reflexivity|]. lia.
Qed.

Lemma normalizeMonth_canonical (input : option string) (k : string) :
  normalizeMonth input = Some k → canonicalKey k.
Proof.
  destruct input as [s|]; [|discriminate]. intros Hk.
  apply normalizeMonth_Some_inv in Hk as (_ & m & y & Hm & Hy & ->).
  apply monthKey_canonical_fixed; assumption.
Qed.

Lemma rowsToEntries_canonical (header : list string) (mIdx : nat)
  (rows : list (list string)) :
  Forall (fun e => canonicalKey (month e)) (rowsToEntries header mIdx rows).
Proof.
  unfold rowsToEntries. induction rows as [|r rows IH]; simpl; [constructor|].
  destruct (entryOfRow header mIdx r) as [e|] eqn:Ee; [|exact IH].
  constructor; [|exact IH].
  unfold entryOfRow in Ee.
  destruct (normalizeMonth (r !! mIdx)) as [mk|] eqn:Emk; [|discriminate].
  destruct (isEmpty mk); [discriminate|]. injection Ee as <-. simpl.
  eapply normalizeMonth_canonical. exact Emk.
Qed.

(** The sort of the ledger is covered by the integer model and sorts. *)
Lemma sort_entries (data : list Entry) :
  Forall (fun e => canonicalKey (month e)) data →
  ∃ sorted,
    sortBy (fun a b => compareMonth (month a) (month b)) data = Some sorted
    ∧ Permutation data sorted
    ∧ StronglySorted (fun a b => monthLe (month a) (month b)) sorted.
Proof.
  apply (sortBy_sorted _ _ (fun e => canonicalKey (month e))).
  - intros x y Hx Hy. apply compareMonth_canonical; assumption.
  - intros x y z. apply monthLe_trans.
Qed.

Lemma StronglySorted_map {A B} (f : A → B) (R : B → B → Prop) (l : list A) :
  StronglySorted (fun a b => R (f a) (f b)) l → StronglySorted R (List.map f l).
Proof.
  induction 1 as [|a l Hs IH Ha]; simpl; constructor; [exact IH|].
  apply List.Forall_map. exact Ha.
Qed.

(** The scenario of the specification: the duplicate month is kept. *)
Example history_scenario_months :
  months <$> loadHistory (Response true (Some duplicateMonthsCsv)) initialLedger
  = Some ["12/2022"; "01/2023"; "01/2023"].
Proof. vm_compute. reflexivity. Qed.

(** C4, as stated, fails in its second part: two rows of one month are two
    entries of the ledger. *)
Lemma history_keeps_duplicate_months :
  ¬ (∀ res l, loadHistory res initialLedger = Some l → NoDup (months l)).
Proof.
  intros Hall.
  pose proof history_scenario_months as E.
  destruct (loadHistory (Response true (Some duplicateMonthsCsv)) initialLedger)
    as [l|] eqn:El; [|discriminate E].
  specialize (Hall _ l El). simpl in E. injection E as E. rewrite E in Hall.
  apply NoDup_cons in Hall as [_ Hall]. apply NoDup_cons in Hall as [Hnotin _].
  apply Hnotin. left.
Qed.

Lemma normalizeMonth_not_empty (input : option string) (k : string) :
  normalizeMonth input = Some k → isEmpty k = false.
Proof.
  intros Hk. apply normalizeMonth_canonical in Hk.
  destruct k; [discriminate Hk | reflexivity].
Qed.

(** The months of the entries made from the rows are the normalised month
    cells of the rows, in the order of the rows: a row gives an entry
    exactly when its month cell normalises. *)
Lemma rowsToEntries_months (header : list string) (mIdx : nat)
  (rows : list (list string)) :
  List.map month (rowsToEntries header mIdx rows)
  = omap (fun r => normalizeMonth (r !! mIdx)) rows.
Proof.
  unfold rowsToEntries. induction rows as [|r rows IH]; [reflexivity|].
  cbn [omap list_omap]. unfold entryOfRow at 1.
  destruct (normalizeMonth (r !! mIdx)) as [mk|] eqn:Emk; [|exact IH].
  rewrite (normalizeMonth_not_empty _ _ Emk). cbn [List.map month].
  f_equal. exact IH.
Qed.

(** C4, amended: after the ingestion of the historical CSV, whatever the
    fetch brought, the months of the ledger are canonical keys in ascending
    order of year and then month, equal months allowed; when the CSV was
    read, the entries are those of the rows whose month normalises, each row
    once, so that two rows of one month give two entries: the months of the
    ledger are, up to their order, the normalised month cells of the data
    rows, which are the non-empty lines of the text after the first. *)
Theorem history_sorted_by_year_then_month (res : FetchResult) :
  ∃ l, loadHistory res initialLedger = Some l
       ∧ StronglySorted monthLe (months l)
       ∧ Forall canonicalKey (months l)
       ∧ ∀ txt header rows mIdx,
           res = Response true (Some txt) →
           parseCSV txt = Normal (header, rows) →
           findIndex isMonthHeader header = Some mIdx →
           Permutation (rowsToEntries header mIdx rows) (history l)
           ∧ Permutation (omap (fun r => normalizeMonth (r !! mIdx)) rows)
               (months l)
           ∧ ∃ first rest,
               filterBoolean (splitLines txt) = first :: rest
               ∧ header = parseLine first
               ∧ rows = List.map parseLine rest.
Proof.
  unfold loadHistory.
  destruct (historyAttempt res initialLedger) as [result|e] eqn:E; simpl.
  - unfold historyAttempt in E.
    destruct res as [|ok body]; [discriminate E|].
    destruct ok; [|discriminate E]. destruct body as [txt|]; [|discriminate E].
    simpl in E. destruct (parseCSV txt) as [[header rows]|e] eqn:Ep;
      [|discriminate E]. simpl in E.
    destruct (findIndex isMonthHeader header) as [mIdx|] eqn:Ei;
      [|discriminate E]. simpl in E. injection E as <-.
    destruct (sort_entries (rowsToEntries header mIdx rows)
                (rowsToEntries_canonical header mIdx rows))
      as (sorted & -> & Hperm & Hsorted).
    simpl. eexists. split; [reflexivity|]. unfold months. simpl.
    split; [apply StronglySorted_map; exact Hsorted|]. split.
    + apply List.Forall_map. eapply Permutation_Forall; [exact Hperm|].
      apply rowsToEntries_canonical.
    + intros txt' header' rows' mIdx' [= <-] Ep' Ei'.
      rewrite Ep in Ep'. injection Ep' as <- <-.
      rewrite Ei in Ei'. injection Ei' as <-.
      split; [exact Hperm|]. split.
      * rewrite <- (rowsToEntries_months header mIdx rows).
        apply Permutation_map. exact Hperm.
      * unfold parseCSV in Ep.
        destruct (filterBoolean (splitLines txt)) as [|first rest];
          [discriminate Ep|].
        cbn [lookup list_lookup mbind completion_bind drop] in Ep.
        injection Ep as <- <-. eauto.
  - eexists. split; [reflexivity|]. unfold months. simpl.
    split; [constructor|]. split; [constructor|].
    intros txt header rows mIdx -> Ep Ei. unfold historyAttempt in E.
    simpl in E. rewrite Ep in E. simpl in E. rewrite Ei in E. simpl in E.
    destruct (sortBy _ _); discriminate E.
Qed.

(** *** Restoring and ingesting the installed capacity (C2) *)

Lemma NoDup_SOURCES : NoDup SOURCES.
Proof.
  unfold SOURCES.
  repeat (apply NoDup_cons; split;
          [rewrite ?elem_of_cons, ?elem_of_nil; intuition discriminate|]).
  apply NoDup_nil_2.
Qed.

(** A loop over the sources that assigns the slots for which [g] has a
    value leaves the others as they were. *)
Lemma fold_assign_some {A B} (g : SourceKey → option B) (f : B → A)
  (l : list SourceKey) :
  NoDup l →
  ∀ (r : SourceRecord A) (k : SourceKey),
    fold_left (fun next k' => match g k' with
                              | Some v => setSlot next k' (f v)
                              | None => next
                              end) l r k
    = if decide (k ∈ l)
      then match g k with Some v => f v | None => r k end
      else r k.
Proof.
  induction 1 as [|k0 l Hk0 Hl IH]; intros r k; cbn [fold_left].
  - destruct (decide (k ∈ [])) as [Hin|_]; [|reflexivity].
    apply elem_of_nil in Hin. destruct Hin.
  - rewrite IH.
    destruct (decide (k ∈ k0 :: l)) as [Hin|Hnin];
      destruct (decide (k ∈ l)) as [Hin'|Hnin'].
    + destruct (g k); [reflexivity|].
      assert (Hne : k ≠ k0) by (intros ->; contradiction).
      destruct (g k0); [|reflexivity]. unfold setSlot.
      rewrite decide_False by assumption. reflexivity.
    + apply elem_of_cons in Hin as [-> | Hin]; [|contradiction].
      destruct (g k0); [|reflexivity]. unfold setSlot.
      rewrite decide_True by reflexivity. reflexivity.
    + exfalso. apply Hnin. apply elem_of_cons. right. exact Hin'.
    + assert (Hne : k ≠ k0).
      { intros ->. apply Hnin. apply elem_of_cons. left. reflexivity. }
      destruct (g k0); [|reflexivity]. unfold setSlot.
      rewrite decide_False by assumption. reflexivity.
Qed.

Lemma elem_of_SOURCES (k : SourceKey) : k ∈ SOURCES.
Proof. apply list_elem_of_In, In_SOURCES. Qed.

Lemma zeroRecord_zero (k : SourceKey) : RatedCapacityTsx.zeroRecord k = 0%float.
Proof. destruct k; reflexivity. Qed.

Section Restore.
Context `{JSON}.

Import RatedCapacityTsx.

Lemma overlay_slot (stored : PartialRecord number) (prev : SourceRecord number)
  (k : SourceKey) :
  overlay stored prev k
  = match stored k with
    | Some v => safeNum (VNum v)
    | None => prev k
    end.
Proof.
  unfold overlay.
  rewrite (fold_assign_some stored (fun v => safeNum (VNum v))
             SOURCES NoDup_SOURCES prev k).
  rewrite decide_True by apply elem_of_SOURCES. reflexivity.
Qed.
End Restore.

Section Mount.
Context `{JSON}.

Import RatedCapacityTsx.

Lemma tsx_safeNumCall (v : value) :
  safeNumCall v
  = if ToPrimitiveThrows v then Throw "TypeError" else Normal (safeNum v).
Proof.
  unfold safeNumCall, safeNum, NumberCall.
  destruct v; try reflexivity; cbn [mbind completion_bind];
    destruct (ToPrimitiveThrows _); reflexivity.
Qed.

Lemma existsb_none {A} (f : A → bool) (l : list A) :
  (∀ x, f x = false) → existsb f l = false.
Proof.
  intros Hf. induction l as [|x t IH]; [reflexivity|]. cbn [existsb].
  rewrite Hf, IH. reflexivity.
Qed.

(** The loop of [loadLS] over the sources: it throws when the value of a
    source makes [Number] throw, and otherwise assigns the coerced slots of
    the sources present. *)
Lemma load_fold (obj : value) (l : list SourceKey) :
  ∀ out : PartialRecord number,
    fold_left
      (fun (out : completion (PartialRecord number)) k =>
         out ← out;
         match propOf obj k with
         | Some v => n ← safeNumCall v; Normal (setSlot out k (Some n))
         | None => Normal out
         end)
      l (Normal out)
    = if existsb (throwingSlot obj) l then Throw "TypeError"
      else Normal (fold_left
                     (fun (out : PartialRecord number) k =>
                        match propOf obj k with
                        | Some v => setSlot out k (Some (safeNum v))
                        | None => out
                        end)
                     l out).
Proof.
  induction l as [|k l IH]; intros out; [reflexivity|].
  cbn [fold_left existsb mbind completion_bind]. unfold throwingSlot at 1.
  destruct (propOf obj k) as [v|]; [|apply IH].
  rewrite tsx_safeNumCall. destruct (ToPrimitiveThrows v).
  - cbn [mbind completion_bind orb]. clear IH.
    induction l as [|k' l IH]; [reflexivity|]. exact IH.
  - cbn [mbind completion_bind orb]. apply IH.
Qed.

(** What [loadLS] returns is a record that the storage holds, with the
    coerced slots of the sources present in it; and a record that the
    storage holds is what [loadLS] returns. *)
Lemma loadLS_Some (key : string) (ls : Storage) (stored : PartialRecord number) :
  loadLS key ls = Some stored →
  ∃ obj,
    persisted ls key obj
    ∧ ∀ k, stored k = match propOf obj k with
                      | Some v => Some (safeNum v)
                      | None => None
                      end.
Proof.
  unfold loadLS, getItem. destruct (readable ls) eqn:Er; [|discriminate].
  cbn [mbind completion_bind].
  destruct (items ls !! key) as [raw|] eqn:Eraw; [|discriminate].
  destruct raw as [|c raw']; [discriminate|]. cbn [isEmpty].
  destruct (JSON_parse (String c raw')) as [obj|] eqn:Ep; [|discriminate].
  destruct (truthy obj) eqn:Et; [|discriminate].
  destruct (typeofObject obj) eqn:Eo; [|discriminate].
  cbn [negb orb]. rewrite load_fold.
  destruct (existsb (throwingSlot obj) SOURCES) eqn:Ethrow; [discriminate|].
  cbn [mbind completion_bind tryCatch].
  intros Hstored. apply (inj Some) in Hstored. subst stored.
  exists obj. split.
  - split; [exact Er|]. split; [exists (String c raw'); repeat split; congruence|].
    split; [exact Et|]. split; [exact Eo|]. intros k.
    destruct (throwingSlot obj k) eqn:Ek; [|reflexivity].
    assert (Hex : existsb (throwingSlot obj) SOURCES = true)
      by (apply existsb_exists; exists k; split; [apply In_SOURCES | exact Ek]).
    congruence.
  - intros k.
    etransitivity;
      [exact (fold_assign_some (propOf obj) (fun v => Some (safeNum v))
                SOURCES NoDup_SOURCES emptyRecord k)|].
    rewrite decide_True by apply elem_of_SOURCES. reflexivity.
Qed.

Lemma loadLS_persisted (key : string) (ls : Storage) (obj : value) :
  persisted ls key obj →
  ∃ stored,
    loadLS key ls = Some stored
    ∧ ∀ k, stored k = match propOf obj k with
                      | Some v => Some (safeNum v)
                      | None => None
                      end.
Proof.
  intros (Hread & (raw & Hraw & Hne & Hparse) & Ht & Ho & Hthrow).
  unfold loadLS, getItem. rewrite Hread. cbn [mbind completion_bind].
  rewrite Hraw, (isEmpty_false _ Hne), Hparse, Ht, Ho.
  cbn [negb orb]. rewrite load_fold, (existsb_none _ _ Hthrow).
  cbn [mbind completion_bind tryCatch]. eexists. split; [reflexivity|]. intros k.
  etransitivity;
    [exact (fold_assign_some (propOf obj) (fun v => Some (safeNum v))
              SOURCES NoDup_SOURCES emptyRecord k)|].
  rewrite decide_True by apply elem_of_SOURCES. reflexivity.
Qed.

Lemma loadLS_finite (key : string) (ls : Storage) (stored : PartialRecord number)
  (k : SourceKey) (v : number) :
  loadLS key ls = Some stored → stored k = Some v → is_finite v = true.
Proof.
  intros Hload Hk. apply loadLS_Some in Hload as (obj & _ & Hslots).
  rewrite Hslots in Hk. destruct (propOf obj k); [|discriminate].
  injection Hk as <-. apply tsx_safeNum_finite.
Qed.

Lemma csvCompletion_cases (res : FetchResult) (s : State) :
  csvCompletion res s
  = match fetchedRecord res with
    | Some parsed => {| installed := parsed; plf := plf s; csvLoaded := true |}
    | None => {| installed := installed s; plf := plf s; csvLoaded := false |}
    end.
Proof.
  unfold csvCompletion, fetchedRecord.
  destruct res as [|[] [text|]]; try reflexivity. simpl.
  destruct (parseCapacityCSV text); reflexivity.
Qed.

(** C2: when the storage holds a persisted installed record, that is, when
    it can be read and holds under the key of the installed capacity a
    non-empty JSON text of an object in which no value of a source makes
    the coercion throw, the mount effect ends without a request, with the
    flag [csvLoaded] set and the coerced stored slots over zeros; when the
    storage holds no such record, the effect issues the one request for the
    capacity CSV with the installed record at zero, and when that request
    ends, the parsed record is installed if the fetch and the parse
    succeeded, and otherwise the installed record stays at zero and the flag
    [csvLoaded] is cleared. *)
Theorem installed_initialisation_priority (ls : Storage) :
  (∀ obj,
     persisted ls LS_INSTALLED obj →
     ∃ s, mountEffect ls initialState = Settled s
          ∧ csvLoaded s = true
          ∧ ∀ k, installed s k = match propOf obj k with
                                 | Some v => safeNum v
                                 | None => 0%float
                                 end)
  ∧ ((∀ obj, ¬ persisted ls LS_INSTALLED obj) →
     ∃ s1, mountEffect ls initialState
           = Fetching s1 "/data/Capacity.csv" csvCompletion
           ∧ (∀ k, installed s1 k = 0%float)
           ∧ ∀ res,
               match fetchedRecord res with
               | Some parsed =>
                   installed (csvCompletion res s1) = parsed
                   ∧ csvLoaded (csvCompletion res s1) = true
               | None =>
                   (∀ k, installed (csvCompletion res s1) k = 0%float)
                   ∧ csvLoaded (csvCompletion res s1) = false
               end).
Proof.
  split.
  - intros obj Hobj.
    destruct (loadLS_persisted _ _ _ Hobj) as (stored & Einst & Hslots).
    unfold mountEffect. rewrite Einst. eexists. split; [reflexivity|].
    split; [reflexivity|]. intros k. simpl.
    assert (Hinst : ∀ s : State, installed s = installed initialState →
              overlay stored (installed s) k
              = match propOf obj k with
                | Some v => safeNum v
                | None => 0%float
                end).
    { intros s Hs. rewrite overlay_slot, Hs, Hslots. simpl.
      destruct (propOf obj k) as [v|]; [|apply zeroRecord_zero].
      apply tsx_safeNum_id, tsx_safeNum_finite. }
    destruct (loadLS LS_PLF ls); apply Hinst; reflexivity.
  - intros Hnone.
    destruct (loadLS LS_INSTALLED ls) as [stored|] eqn:Einst.
    { apply loadLS_Some in Einst as (obj & Hobj & _).
      destruct (Hnone obj Hobj). }
    unfold mountEffect. rewrite Einst. eexists. split; [reflexivity|].
    assert (Hzero : ∀ k,
              installed (match loadLS LS_PLF ls with
                         | Some plfLS =>
                             {| installed := installed initialState;
                                plf := overlay plfLS (plf initialState);
                                csvLoaded := csvLoaded initialState |}
                         | None => initialState
                         end) k = 0%float).
    { intros k. destruct (loadLS LS_PLF ls); apply zeroRecord_zero. }
    split; [exact Hzero|]. intros res. rewrite csvCompletion_cases.
    destruct (fetchedRecord res); simpl; split; try reflexivity. exact Hzero.
Qed.

End Mount.

(** C2 at a storage that holds 50 for coal, with the codec for integers,
    and at an empty storage. *)
Lemma installed_initialisation_priority_witness :
  (∃ s, RatedCapacityTsx.mountEffect (H := integerJSON) installed50Storage
          RatedCapacityTsx.initialState = RatedCapacityTsx.Settled s
        ∧ RatedCapacityTsx.csvLoaded s = true
        ∧ ∀ k, RatedCapacityTsx.installed s k
               = match propOf (VObj [("Coal", VNum 50)]) k with
                 | Some v => RatedCapacityTsx.safeNum v
                 | None => 0%float
                 end)
  ∧ ∃ s1, RatedCapacityTsx.mountEffect (H := integerJSON) emptyStorage
            RatedCapacityTsx.initialState
          = RatedCapacityTsx.Fetching s1 "/data/Capacity.csv"
              RatedCapacityTsx.csvCompletion
          ∧ RatedCapacityTsx.installed
              (RatedCapacityTsx.csvCompletion (Response true (Some scenarioCsv)) s1)
              Coal = 50%float
          ∧ RatedCapacityTsx.csvLoaded
              (RatedCapacityTsx.csvCompletion (Response false None) s1) = false.
Proof.
  split.
  - apply (proj1 (installed_initialisation_priority (H := integerJSON)
                    installed50Storage)).
    split; [reflexivity|]. split.
    + eexists. split; [reflexivity|]. split; [discriminate | reflexivity].
    + split; [reflexivity|]. split; [reflexivity|].
      intros k; destruct k; reflexivity.
  - destruct (proj2 (installed_initialisation_priority (H := integerJSON)
                       emptyStorage)) as (s1 & Em & _ & Hres).
    + intros obj (_ & (raw & Hraw & _) & _). discriminate Hraw.
    + exists s1. split; [exact Em|]. split.
      * pose proof (Hres (Response true (Some scenarioCsv))) as Hok.
        assert (Ef : fetchedRecord (Response true (Some scenarioCsv))
                     = RatedCapacityTsx.parseCapacityCSV scenarioCsv)
          by reflexivity.
        rewrite Ef in Hok.
        destruct (RatedCapacityTsx.parseCapacityCSV scenarioCsv) as [parsed|] eqn:Ep;
          [|discriminate Ep].
        destruct Hok as [-> _]. injection Ep as <-. reflexivity.
      * exact (proj2 (Hres (Response false None))).
Defined.

(** *** Finite slots (C3) *)

Section EventLemmas.
Context `{JSON}.

Import RatedCapacityTsx.

Lemma overlay_finite (stored : PartialRecord number) (prev : SourceRecord number) :
  finiteRecord prev → finiteRecord (overlay stored prev).
Proof.
  intros Hprev k. rewrite overlay_slot.
  destruct (stored k); [apply tsx_safeNum_finite | apply Hprev].
Qed.

Lemma parseCapacityCSV_finite (text : string) (parsed : SourceRecord number) :
  parseCapacityCSV text = Some parsed → finiteRecord parsed.
Proof.
  unfold parseCapacityCSV.
  destruct (filterBoolean _) as [|line0 [|line1 rest]]; try discriminate.
  destruct (forallb _ SOURCES); [|discriminate].
  intros Hp. apply (inj Some) in Hp. subst parsed.
  intros k. apply tsx_safeNum_finite.
Qed.

Lemma clamp_cases (x : number) :
  is_nan x = false →
  Math_min 100 (Math_max 0 x) = x
  ∨ Math_min 100 (Math_max 0 x) = 0%float
  ∨ Math_min 100 (Math_max 0 x) = 100%float.
Proof.
  intros Hx. unfold Math_max. rewrite Hx.
  change (is_nan 0 || false) with false. cbv iota.
  destruct (0 <? x)%float.
  - unfold Math_min. rewrite Hx. change (is_nan 100 || false) with false.
    cbv iota. destruct (100 <? x)%float; [auto|].
    destruct (x <? 100)%float; auto.
  - right. left. destruct (x <? 0)%float; reflexivity.
Qed.

Lemma clamp_finite (x : number) :
  is_finite x = true → is_finite (Math_min 100 (Math_max 0 x)) = true.
Proof.
  intros Hx.
  destruct (clamp_cases x (is_finite_not_nan x Hx)) as [-> | [-> | ->]];
    [exact Hx | reflexivity | reflexivity].
Qed.

Lemma setSlot_finite (r : SourceRecord number) (k : SourceKey) (v : number) :
  finiteRecord r → is_finite v = true → finiteRecord (setSlot r k v).
Proof.
  intros Hr Hv k'. unfold setSlot. destruct (decide (k' = k)); [exact Hv | apply Hr].
Qed.

Lemma handle_finite (e : Event) (s : State) :
  finiteState s → finiteState (handle e s).
Proof.
  intros [Hi Hp]. destruct e as [ls|res|k input|k input]; simpl.
  - unfold mountEffect.
    destruct (loadLS LS_PLF ls), (loadLS LS_INSTALLED ls); simpl;
      split; simpl; auto using overlay_finite.
  - rewrite csvCompletion_cases. unfold fetchedRecord.
    destruct res as [|[] [text|]]; try (split; assumption).
    destruct (parseCapacityCSV text) as [parsed|] eqn:Ep;
      [|split; assumption].
    split; [|exact Hp]. simpl. eapply parseCapacityCSV_finite. exact Ep.
  - split; [|exact Hp]. simpl.
    apply setSlot_finite; [exact Hi | apply tsx_safeNum_finite].
  - split; [exact Hi|]. simpl.
    apply setSlot_finite; [exact Hp|].
    apply clamp_finite, tsx_safeNum_finite.
Qed.

(** X1.  In [RatedCapacity.tsx] every slot of the two records is finite after
    any sequence of events: initialisation, storage restore, CSV ingestion
    and edits all coerce what they write. *)
Lemma tsx_records_always_finite (events : list Event) :
  finiteState (run events).
Proof.
  unfold run.
  assert (Hinit : finiteState initialState).
  { split; intros k; simpl; rewrite zeroRecord_zero; reflexivity. }
  revert Hinit. generalize initialState.
  induction events as [|e events IH]; intros s Hs; simpl; [exact Hs|].
  apply IH, handle_finite, Hs.
Qed.

(** An input that does not convert to a finite number is stored as 0. *)
Lemma tsx_edit_coerces (k : SourceKey) (input : string) (s : State) :
  is_finite (StringToNumber (trim input)) = false →
  installed (onChangeInstalled k input s) k = 0%float
  ∧ plf (onChangePlf k input s) k = 0%float.
Proof.
  intros Hbad. unfold onChangeInstalled, onChangePlf, setSlot. simpl.
  rewrite !decide_True by reflexivity.
  unfold safeNum, Number_isFinite. rewrite Hbad. split; reflexivity.
Qed.

End EventLemmas.

(** C3 fails in the second variant: its edit handlers store what unary plus
    gives, so letters typed into a field are stored as NaN and an overflowing
    literal as Infinity, and the rated capacity of that source is NaN. *)
Theorem second_variant_edit_stores_NaN (r : SourceRecord value) :
  HistoricalTab.onChangeInstalled Coal "abc" r Coal = VNum nan
  ∧ HistoricalTab.onChangePlf Coal "abc" r Coal = VNum nan
  ∧ HistoricalTab.onChangeInstalled Coal "1e999" r Coal = VNum infinity
  ∧ is_finite nan = false ∧ is_finite infinity = false
  ∧ HistoricalTab.rated (HistoricalTab.onChangeInstalled Coal "abc" r)
      (fun _ => VNum 50) Coal
    = Some nan.
Proof.
  repeat split; reflexivity.
Qed.

(** *** Saving and loading a record (C6) *)

Lemma jsonNumber_strictEq (x : number) :
  is_finite x = true → strictEq x (jsonNumber x).
Proof.
  intros Hx. unfold jsonNumber, isNegZero.
  destruct (PrimFloat.is_zero x) eqn:Ez; simpl.
  - destruct (PrimFloat.get_sign x); [exact Ez | apply strictEq_refl, Hx].
  - apply strictEq_refl, Hx.
Qed.

Lemma jsonNumber_finite (x : number) :
  is_finite x = true → is_finite (jsonNumber x) = true.
Proof.
  intros Hx. unfold jsonNumber. destruct (isNegZero x); [reflexivity | exact Hx].
Qed.

Lemma propOf_recordProps (f : SourceRecord value) (k : SourceKey) :
  propOf (VObj (recordProps f)) k = Some (f k).
Proof. destruct k; reflexivity. Qed.

Section RoundTrip.
Context `{JSON}.

(** C6: for a record [r] of finite numbers, when the storage can be written
    and read and the JSON text written for [r] parses back to the object
    with the same eight numbers (the storage is uncorrupted), loading the
    key after saving [r] under it gives, for every source, a number
    strictly equal to that of [r]: with [saveLS] and [loadLS] in
    [RatedCapacity.tsx], and with the save effect and the initialiser in the
    second variant. *)
Theorem saved_record_loads_back
  (key : string) (r : SourceRecord number) (ls : Storage) :
  finiteRecord r →
  readable ls = true → writable ls = true →
  JSON_stringify (recordValue r) ≠ EmptyString →
  JSON_parse (JSON_stringify (recordValue r))
  = Some (recordValue (fun k => jsonNumber (r k))) →
  (∃ loaded,
     RatedCapacityTsx.loadLS key (RatedCapacityTsx.saveLS key r ls) = Some loaded
     ∧ ∀ k, ∃ v, loaded k = Some v ∧ strictEq (r k) v)
  ∧ (∃ ls',
       HistoricalTab.saveRecord key (fun k => VNum (r k)) ls = Normal ls'
       ∧ ∀ k, ∃ v, HistoricalTab.initRecord key ls' k = VNum v
                   ∧ strictEq (r k) v).
Proof.
  intros Hr Hread Hwrite Hne Hparse. split.
  - unfold RatedCapacityTsx.saveLS, setItem. rewrite Hwrite.
    cbn [tryCatch]. fold (recordValue r).
    unfold RatedCapacityTsx.loadLS, getItem. cbn [readable items].
    rewrite Hread. cbn [mbind completion_bind].
    rewrite lookup_insert_eq, (isEmpty_false _ Hne), Hparse.
    cbn [recordValue truthy typeofObject negb orb tryCatch].
    eexists. split; [reflexivity|]. intros k.
    exists (jsonNumber (r k)). split.
    + etransitivity;
        [exact (fold_assign_some
                  (propOf (VObj (recordProps (fun k => VNum (jsonNumber (r k))))))
                  (fun v => Some (RatedCapacityTsx.safeNum v))
                  SOURCES NoDup_SOURCES emptyRecord k)|].
      rewrite decide_True by apply elem_of_SOURCES.
      rewrite propOf_recordProps.
      rewrite tsx_safeNum_id by apply jsonNumber_finite, Hr. reflexivity.
    + apply jsonNumber_strictEq, Hr.
  - unfold HistoricalTab.saveRecord, setItem. rewrite Hwrite.
    eexists. split; [reflexivity|]. intros k.
    exists (jsonNumber (r k)). split; [|apply jsonNumber_strictEq, Hr].
    unfold HistoricalTab.initRecord, getItem. cbn [readable items].
    rewrite Hread. cbn [mbind completion_bind].
    rewrite lookup_insert_eq. fold (recordValue r).
    rewrite (isEmpty_false _ Hne), Hparse. cbn [tryCatch].
    unfold HistoricalTab.Object_assign, recordValue.
    rewrite propOf_recordProps. reflexivity.
Qed.

End RoundTrip.

(** C6 at the record of the scenario, with the codec for integers and an
    empty storage. *)
Lemma saved_record_loads_back_witness :
  (∃ loaded,
     RatedCapacityTsx.loadLS (H := integerJSON) RatedCapacityTsx.LS_INSTALLED
       (RatedCapacityTsx.saveLS (H := integerJSON) RatedCapacityTsx.LS_INSTALLED
          scenarioRecord emptyStorage) = Some loaded
     ∧ ∀ k, ∃ v, loaded k = Some v ∧ strictEq (scenarioRecord k) v)
  ∧ (∃ ls',
       HistoricalTab.saveRecord (H := integerJSON) INST_KEY
         (fun k => VNum (scenarioRecord k)) emptyStorage = Normal ls'
       ∧ ∀ k, ∃ v, HistoricalTab.initRecord (H := integerJSON) INST_KEY ls' k = VNum v
                   ∧ strictEq (scenarioRecord k) v).
Proof.
  apply (saved_record_loads_back (H := integerJSON)).
  - intros k; destruct k; reflexivity.
  - reflexivity.
  - reflexivity.
  - vm_compute. discriminate.
  - vm_compute. reflexivity.
Defined.

(** *** The comparator and the scenarios of the specification *)

Lemma digitVal_inj (c d : ascii) :
  isDigit c = true → isDigit d = true → digitVal c = digitVal d → c = d.
Proof.
  intros Hc%isDigit_cases Hd%isDigit_cases. simpl in Hc, Hd.
  repeat (destruct Hc as [<- | Hc];
          [repeat (destruct Hd as [<- | Hd];
                   [intros E; first [reflexivity | discriminate E]|]);
           destruct Hd|]).
  destruct Hc.
Qed.

(** X2.  On canonical keys [compareMonth] is a total order: swapping its
    arguments negates the result, and the result is 0 exactly for equal
    keys. *)
Theorem compareMonth_total_order (a b : string) :
  canonicalKey a → canonicalKey b →
  ∃ c, compareMonth a b = Some c
       ∧ compareMonth b a = Some (- c)
       ∧ (c = 0 ↔ a = b).
Proof.
  intros Ha Hb.
  apply canonicalKey_inv in Ha
    as (a1 & a2 & a3 & a4 & a5 & a6 & -> & Ha1 & Ha2 & Ha3 & Ha4 & Ha5 & Ha6).
  apply canonicalKey_inv in Hb
    as (b1 & b2 & b3 & b4 & b5 & b6 & -> & Hb1 & Hb2 & Hb3 & Hb4 & Hb5 & Hb6).
  unfold compareMonth, monthAndYear.
  rewrite !splitOn_canonical by assumption.
  cbn [List.map lookup list_lookup mjoin option_join].
  rewrite !StringToInteger_digits2, !StringToInteger_digits4 by assumption.
  cbn [digitsValue].
  pose proof (digitVal_range _ Ha1). pose proof (digitVal_range _ Ha2).
  pose proof (digitVal_range _ Ha3). pose proof (digitVal_range _ Ha4).
  pose proof (digitVal_range _ Ha5). pose proof (digitVal_range _ Ha6).
  pose proof (digitVal_range _ Hb1). pose proof (digitVal_range _ Hb2).
  pose proof (digitVal_range _ Hb3). pose proof (digitVal_range _ Hb4).
  pose proof (digitVal_range _ Hb5). pose proof (digitVal_range _ Hb6).
  set (ya := 10 * (10 * (10 * (10 * 0 + digitVal a3) + digitVal a4)
                   + digitVal a5) + digitVal a6).
  set (yb := 10 * (10 * (10 * (10 * 0 + digitVal b3) + digitVal b4)
                   + digitVal b5) + digitVal b6).
  set (ma := 10 * (10 * 0 + digitVal a1) + digitVal a2).
  set (mb := 10 * (10 * 0 + digitVal b1) + digitVal b2).
  assert (Hkeys : ya = yb ∧ ma = mb ↔
            String a1 (String a2 (String "/"
              (String a3 (String a4 (String a5 (String a6 EmptyString))))))
            = String b1 (String b2 (String "/"
              (String b3 (String b4 (String b5 (String b6 EmptyString))))))).
  { split.
    - intros [Hy Hm]. subst ya yb ma mb.
      assert (digitVal a1 = digitVal b1) by lia.
      assert (digitVal a2 = digitVal b2) by lia.
      assert (digitVal a3 = digitVal b3) by lia.
      assert (digitVal a4 = digitVal b4) by lia.
      assert (digitVal a5 = digitVal b5) by lia.
      assert (digitVal a6 = digitVal b6) by lia.
      repeat f_equal; apply digitVal_inj; assumption.
    - intros E. injection E as -> -> -> -> -> ->. split; reflexivity. }
  destruct (Z.eqb_spec ya yb) as [Ey|Ey], (Z.eqb_spec yb ya) as [Ey'|Ey'];
    simpl; try lia.
  - exists (ma - mb). split; [reflexivity|]. split; [f_equal; lia|].
    rewrite <- Hkeys. lia.
  - exists (ya - yb). split; [reflexivity|]. split; [f_equal; lia|].
    rewrite <- Hkeys. lia.
Qed.

(** The comparator at January 2023 and December 2022. *)
Lemma compareMonth_total_order_witness :
  ∃ c, compareMonth "01/2023" "12/2022" = Some c
       ∧ compareMonth "12/2022" "01/2023" = Some (- c)
       ∧ (c = 0 ↔ "01/2023" = "12/2022").
Proof.
  apply (compareMonth_total_order "01/2023" "12/2022"); reflexivity.
Defined.

(** The scenarios of the specification: the current-capacity CSV gives the
    eight installed values and the total 113, and 50 GW at a PLF of 60 are
    rated 30. *)
Theorem capacity_csv_scenario :
  (fun r => (List.map r SOURCES, RatedCapacityTsx.installedTotal r))
    <$> RatedCapacityTsx.parseCapacityCSV scenarioCsv
  = Some ([50; 10; 8; 5; 20; 15; 2; 3]%float, 113%float)
  ∧ RatedCapacityTsx.ratedBySource scenarioRecord (fun _ => 60%float) Coal
    = Some 30%float
  ∧ HistoricalTab.sumSources (fun k => VNum (scenarioRecord k)) = 113%float.
Proof. repeat split; vm_compute; reflexivity. Qed.

(** *** The two coercions *)

Lemma StringToNumber_trim (s : string) : StringToNumber (trim s) = StringToNumber s.
Proof. unfold StringToNumber. rewrite trim_idem. reflexivity. Qed.

Lemma hist_safeNumCall (v : value) :
  HistoricalTab.safeNumCall v
  = if ToPrimitiveThrows v then Throw "TypeError"
    else Normal (HistoricalTab.safeNum v).
Proof.
  unfold HistoricalTab.safeNumCall, HistoricalTab.safeNum, NumberCall.
  destruct (ToPrimitiveThrows v); [reflexivity|]. cbn [mbind completion_bind].
  destruct (Number_isFinite (ToNumber v)); reflexivity.
Qed.

Lemma safeNum_same (v : value) :
  RatedCapacityTsx.safeNum v = HistoricalTab.safeNum v.
Proof.
  unfold RatedCapacityTsx.safeNum, HistoricalTab.safeNum.
  destruct v; try reflexivity. cbn [ToNumber]. rewrite StringToNumber_trim.
  reflexivity.
Qed.

(** X3.  The coercions of the two variants behave alike on every value:
    the trimming that one of them does first changes nothing.  Both throw
    on the same values, those whose conversion to a primitive throws (an
    object with a property of its own named toString, or an array that
    holds one); on every other value both return the same number, which is
    finite.  A finite number is returned as it is, and coercing a result
    again returns it. *)
Theorem safeNum_variants_agree (v : value) :
  RatedCapacityTsx.safeNumCall v = HistoricalTab.safeNumCall v
  ∧ (ToPrimitiveThrows v = true →
     HistoricalTab.safeNumCall v = Throw "TypeError")
  ∧ (ToPrimitiveThrows v = false →
     ∃ x, HistoricalTab.safeNumCall v = Normal x
          ∧ x = HistoricalTab.safeNum v
          ∧ x = RatedCapacityTsx.safeNum v
          ∧ is_finite x = true
          ∧ HistoricalTab.safeNumCall (VNum x) = Normal x)
  ∧ (∀ x, v = VNum x → is_finite x = true →
          HistoricalTab.safeNumCall v = Normal x).
Proof.
  assert (Hfin : is_finite (HistoricalTab.safeNum v) = true).
  { unfold HistoricalTab.safeNum, Number_isFinite.
    destruct (is_finite (ToNumber v)) eqn:E; [exact E | reflexivity]. }
  split; [|split; [|split]].
  - rewrite tsx_safeNumCall, hist_safeNumCall, safeNum_same. reflexivity.
  - intros Hthrow. rewrite hist_safeNumCall, Hthrow. reflexivity.
  - intros Hreturns. rewrite hist_safeNumCall, Hreturns.
    exists (HistoricalTab.safeNum v). split; [reflexivity|].
    split; [reflexivity|]. split; [symmetry; apply safeNum_same|].
    split; [exact Hfin|].
    rewrite hist_safeNumCall. cbn [ToPrimitiveThrows]. f_equal.
    unfold HistoricalTab.safeNum at 1. unfold Number_isFinite. cbn [ToNumber].
    rewrite Hfin. reflexivity.
  - intros x -> Hx. rewrite hist_safeNumCall. cbn [ToPrimitiveThrows]. f_equal.
    unfold HistoricalTab.safeNum, Number_isFinite. cbn [ToNumber].
    rewrite Hx. reflexivity.
Qed.

Lemma safeNum_variants_agree_witness :
  RatedCapacityTsx.safeNumCall (VStr " 12.5 ")
  = HistoricalTab.safeNumCall (VStr " 12.5 ")
  ∧ HistoricalTab.safeNumCall (VObj [("toString", VNum 0)]) = Throw "TypeError"
  ∧ HistoricalTab.safeNumCall (VNum 12.5) = Normal 12.5%float.
Proof.
  split; [|split].
  - exact (proj1 (safeNum_variants_agree (VStr " 12.5 "))).
  - exact (proj1 (proj2 (safeNum_variants_agree (VObj [("toString", VNum 0)])))
             eq_refl).
  - exact (proj2 (proj2 (proj2 (safeNum_variants_agree (VNum 12.5))))
             12.5%float eq_refl eq_refl).
Defined.

(** *** What the month normaliser keeps *)

Lemma pad2_value (m : string) :
  oneOrTwoDigits m →
  ∃ a b, padStart2 (IntegerToString (digitsValue 0 m))
         = String a (String b EmptyString)
         ∧ isDigit a = true ∧ isDigit b = true
         ∧ digitsValue 0 (String a (String b EmptyString)) = digitsValue 0 m.
Proof.
  intros [a Ha | a b Ha Hb].
  - apply isDigit_cases in Ha. simpl in Ha.
    repeat (destruct Ha as [<- | Ha];
            [eexists _, _; repeat split; reflexivity|]).
    destruct Ha.
  - apply isDigit_cases in Ha. apply isDigit_cases in Hb. simpl in Ha, Hb.
    repeat (destruct Ha as [<- | Ha];
            [repeat (destruct Hb as [<- | Hb];
                     [eexists _, _; repeat split; reflexivity|]);
             destruct Hb|]).
    destruct Ha.
Qed.

Lemma monthAndYear_monthKey (m y : string) :
  oneOrTwoDigits m → fourDigits y →
  monthAndYear (monthKey m y) = (Some (digitsValue 0 m), Some (digitsValue 0 y)).
Proof.
  intros Hm Hy. unfold monthKey.
  destruct (pad2_value m Hm) as (a & b & -> & Ha & Hb & <-).
  destruct Hy as [y1 y2 y3 y4 H1 H2 H3 H4].
  unfold monthAndYear. cbv [String.append].
  rewrite splitOn_canonical by assumption.
  cbn [List.map lookup list_lookup mjoin option_join].
  rewrite StringToInteger_digits2, StringToInteger_digits4 by assumption.
  reflexivity.
Qed.

(** X4.  Of a date the normaliser keeps the month and the year and nothing
    else: with a month [m] of one or two digits and a year [y] of four,
    [m/y], [d/m/y] and [d-m-y] all give the same key, whatever the day [d]
    of one or two digits, and that key reads back as the numbers [m] and
    [y] denote.  Neither the day nor the month is checked against a
    calendar. *)
Theorem normalizeMonth_keeps_month_and_year (d m y : string) :
  oneOrTwoDigits d → oneOrTwoDigits m → fourDigits y →
  normalizeMonth (Some (m +:+ "/" +:+ y)) = Some (monthKey m y)
  ∧ normalizeMonth (Some (d +:+ "/" +:+ m +:+ "/" +:+ y)) = Some (monthKey m y)
  ∧ normalizeMonth (Some (d +:+ "-" +:+ m +:+ "-" +:+ y)) = Some (monthKey m y)
  ∧ monthAndYear (monthKey m y) = (Some (digitsValue 0 m), Some (digitsValue 0 y)).
Proof.
  intros Hd Hm Hy. split; [|split; [|split]].
  - destruct Hm, Hy; unfold normalizeMonth, trim; eval_digits;
      unfold matchMonthYear, digits4End; eval_digits; reflexivity.
  - destruct Hd, Hm, Hy; unfold normalizeMonth, trim; eval_digits;
      unfold matchMonthYear, matchDayMonthYear, digits4End; eval_digits;
      reflexivity.
  - destruct Hd, Hm, Hy; unfold normalizeMonth, trim; eval_digits;
      unfold matchMonthYear, matchDayMonthYear, digits4End; eval_digits;
      reflexivity.
  - apply monthAndYear_monthKey; assumption.
Qed.

Lemma normalizeMonth_keeps_month_and_year_witness :
  normalizeMonth (Some "7/2021") = Some "07/2021"
  ∧ normalizeMonth (Some "99/7/2021") = Some "07/2021"
  ∧ normalizeMonth (Some "99-7-2021") = Some "07/2021"
  ∧ monthAndYear "07/2021" = (Some 7, Some 2021).
Proof.
  apply (normalizeMonth_keeps_month_and_year "99" "7" "2021").
  - apply two_digits; reflexivity.
  - apply one_digit; reflexivity.
  - apply four_digits; reflexivity.
Defined.

(** *** The fields of a CSV line *)

Lemma append_empty_r (s : string) : s +:+ EmptyString = s.
Proof.
  induction s as [|c s IH]; [reflexivity|].
  change (String c (s +:+ EmptyString) = String c s). now rewrite IH.
Qed.

Lemma append_assoc (a b c : string) : (a +:+ b) +:+ c = a +:+ (b +:+ c).
Proof.
  induction a as [|x a IH]; [reflexivity|].
  change (String x ((a +:+ b) +:+ c) = String x (a +:+ (b +:+ c))).
  now rewrite IH.
Qed.

Lemma splitOn_cons (sep : ascii) (s : string) :
  ∃ h t, splitOn sep s = h :: t.
Proof.
  induction s as [|c r (h & t & IH)]; simpl; [eauto|].
  destruct (Ascii.eqb c sep); [eauto|]. rewrite IH. simpl. eauto.
Qed.

Lemma parseLineFrom_quote_free (l : string) :
  ∀ out cur,
    quoteFree l = true →
    parseLineFrom l out cur false
    = out ++ match splitOn "," l with
             | h :: t => trim (cur +:+ h) :: List.map trim t
             | [] => [trim cur]
             end.
Proof.
  induction l as [|c r IH]; intros out cur Hl.
  - cbn [parseLineFrom splitOn]. now rewrite append_empty_r.
  - simpl in Hl. apply andb_prop in Hl as [Hc Hr].
    apply negb_true_iff in Hc.
    cbn [parseLineFrom splitOn]. rewrite Hc.
    destruct (splitOn_cons "," r) as (h & t & Hsplit).
    destruct (Ascii.eqb c ",") eqn:Ecomma; cbn [andb negb].
    + rewrite IH by exact Hr. rewrite Hsplit, append_empty_r.
      rewrite <- app_assoc. reflexivity.
    + rewrite IH by exact Hr. rewrite Hsplit. cbn [consHead].
      rewrite append_assoc. reflexivity.
Qed.

(** X5.  On a line without a double quote, the parser of the historical
    CSV cuts the line at every comma and trims each piece: the fields are
    those that the parser of the capacity CSV takes. *)
Theorem parseLine_without_quotes (l : string) :
  quoteFree l = true → parseLine l = List.map trim (splitOn "," l).
Proof.
  intros Hl. unfold parseLine. rewrite parseLineFrom_quote_free by exact Hl.
  destruct (splitOn_cons "," l) as (h & t & ->). reflexivity.
Qed.

Lemma parseLine_without_quotes_witness :
  parseLine " Coal , Oil & Gas,,Hydro " = [ "Coal"; "Oil & Gas"; ""; "Hydro" ].
Proof. exact (parseLine_without_quotes " Coal , Oil & Gas,,Hydro " eq_refl). Defined.

Lemma parseLineFrom_out (l : string) :
  ∀ out cur q, parseLineFrom l out cur q = out ++ parseLineFrom l [] cur q.
Proof.
  remember (String.length l) as n eqn:Hn. revert l Hn.
  induction n as [n IH] using lt_wf_ind. intros l Hn out cur q.
  destruct l as [|c r]; [reflexivity|]. simpl in Hn.
  cbn [parseLineFrom].
  repeat case_match; subst;
    try (eapply IH; [ | reflexivity]; simpl; lia).
  rewrite (IH (String.length r)) with (out := out ++ [trim cur]);
    [ | simpl; lia | reflexivity].
  rewrite (IH (String.length r)) with (out := [] ++ [trim cur]);
    [ | simpl; lia | reflexivity].
  rewrite <- app_assoc. reflexivity.
Qed.

Lemma parseLineFrom_inside_quotes (f : string) :
  ∀ r out cur,
    quoteFree f = true →
    parseLineFrom (f +:+ r) out cur true = parseLineFrom r out (cur +:+ f) true.
Proof.
  induction f as [|c f IH]; intros r out cur Hf.
  - change (EmptyString +:+ r) with r. now rewrite append_empty_r.
  - simpl in Hf. apply andb_prop in Hf as [Hc Hf].
    apply negb_true_iff in Hc.
    change (String c f +:+ r) with (String c (f +:+ r)).
    cbn [parseLineFrom]. rewrite Hc.
    rewrite andb_false_r. rewrite IH by exact Hf.
    rewrite append_assoc. reflexivity.
Qed.

Lemma parseLineFrom_open_quote (c : ascii) (r : string) (out : list string)
  (cur : string) (q : bool) :
  Ascii.eqb c quote = false →
  parseLineFrom (String quote (String c r)) out cur q
  = parseLineFrom (String c r) out cur (negb q).
Proof.
  intros Hc. cbn [parseLineFrom]. change (Ascii.eqb quote quote) with true.
  cbn match. rewrite Hc. reflexivity.
Qed.

Lemma parseLineFrom_close_quote (r : string) (out : list string) (cur : string) :
  parseLineFrom (String quote EmptyString) out cur true = out ++ [trim cur]
  ∧ parseLineFrom (String quote (String "," r)) out cur true
    = parseLineFrom r (out ++ [trim cur]) EmptyString false.
Proof. split; reflexivity. Qed.

(** X6.  A field in double quotes keeps its commas: a non-empty text [f]
    without a quote, written between quotes, is one field, trimmed like any
    other, whether the line ends after it or goes on after a comma.  An
    empty pair of quotes is not an empty field: it is read as an escaped
    quote, a field that holds one quote. *)
Theorem parseLine_quoted_field (f r : string) :
  quoteFree f = true → f ≠ EmptyString →
  parseLine (quoted f) = [trim f]
  ∧ parseLine (quoted f +:+ String "," r) = trim f :: parseLine r
  ∧ parseLine (quoted EmptyString) = [String quote EmptyString].
Proof.
  intros Hf Hne. destruct f as [|c f]; [contradiction|].
  pose proof Hf as Hf'. simpl in Hf'. apply andb_prop in Hf' as [Hc _].
  apply negb_true_iff in Hc.
  split; [|split]; [| |reflexivity].
  - unfold parseLine, quoted.
    change (String c f +:+ String quote EmptyString)
      with (String c (f +:+ String quote EmptyString)).
    rewrite parseLineFrom_open_quote by exact Hc.
    change (String c (f +:+ String quote EmptyString))
      with (String c f +:+ String quote EmptyString).
    rewrite parseLineFrom_inside_quotes by exact Hf.
    apply parseLineFrom_close_quote. exact EmptyString.
  - unfold parseLine, quoted.
    change (String quote (String c f +:+ String quote EmptyString)
            +:+ String "," r)
      with (String quote
              (String c ((f +:+ String quote EmptyString) +:+ String "," r))).
    rewrite parseLineFrom_open_quote by exact Hc.
    change (String c ((f +:+ String quote EmptyString) +:+ String "," r))
      with ((String c f +:+ String quote EmptyString) +:+ String "," r).
    rewrite append_assoc, parseLineFrom_inside_quotes by exact Hf.
    change (String quote EmptyString +:+ String "," r)
      with (String quote (String "," r)).
    rewrite (proj2 (parseLineFrom_close_quote r _ _)).
    apply parseLineFrom_out.
Qed.

Lemma parseLine_quoted_field_witness :
  parseLine (quoted "Oil, Gas") = ["Oil, Gas"]
  ∧ parseLine (quoted "Oil, Gas" +:+ ",7") = ["Oil, Gas"; "7"]
  ∧ parseLine (quoted EmptyString) = [String quote EmptyString].
Proof.
  apply (parseLine_quoted_field "Oil, Gas" "7"); [reflexivity | discriminate].
Defined.

(** *** The entries of the ledger *)

(** How the ingestion of the historical CSV ends: with the sorted entries of
    the rows, or with the advisory. *)
Lemma loadHistory_cases (res : FetchResult) (l0 : Ledger) :
  (∃ txt header rows mIdx sorted,
     res = Response true (Some txt)
     ∧ parseCSV txt = Normal (header, rows)
     ∧ findIndex isMonthHeader header = Some mIdx
     ∧ sortBy (fun a b => compareMonth (month a) (month b))
         (rowsToEntries header mIdx rows) = Some sorted
     ∧ Permutation (rowsToEntries header mIdx rows) sorted
     ∧ StronglySorted (fun a b => monthLe (month a) (month b)) sorted
     ∧ loadHistory res l0 = Some {| history := sorted; err := err l0 |})
  ∨ loadHistory res l0 = Some {| history := history l0; err := Some notLoaded |}.
Proof.
  destruct (historyAttempt res l0) as [result|e] eqn:E.
  - left. unfold loadHistory. rewrite E. unfold historyAttempt in E.
    destruct res as [|ok body]; [discriminate E|].
    destruct ok; [|discriminate E]. destruct body as [txt|]; [|discriminate E].
    simpl in E. destruct (parseCSV txt) as [[header rows]|e] eqn:Ep;
      [|discriminate E]. simpl in E.
    destruct (findIndex isMonthHeader header) as [mIdx|] eqn:Ei;
      [|discriminate E]. simpl in E. injection E as <-.
    destruct (sort_entries (rowsToEntries header mIdx rows)
                (rowsToEntries_canonical header mIdx rows))
      as (sorted & Es & Hperm & Hsorted).
    exists txt, header, rows, mIdx, sorted. rewrite Es.
    repeat split; assumption.
  - right. eapply loadHistory_throw_caught. exact E.
Qed.

Lemma entryOfRow_Some (header : list string) (mIdx : nat) (r : list string)
  (e : Entry) :
  entryOfRow header mIdx r = Some e →
  normalizeMonth (r !! mIdx) = Some (month e)
  ∧ ∀ s, values e s
         = Some (match findIndex (String.eqb (sourceName s)) header with
                 | Some i => safeNum (cell r i)
                 | None => 0%float
                 end).
Proof.
  unfold entryOfRow.
  destruct (normalizeMonth (r !! mIdx)) as [mk|] eqn:Emk; [|discriminate].
  destruct (isEmpty mk); [discriminate|]. intros [= <-].
  split; [reflexivity|]. intros s. cbn [values].
  exact (assign_all_slots
           (fun s => match findIndex (String.eqb (sourceName s)) header with
                     | Some i => safeNum (cell r i)
                     | None => 0%float
                     end) s).
Qed.

Lemma hist_safeNum_finite (v : value) : is_finite (HistoricalTab.safeNum v) = true.
Proof.
  unfold HistoricalTab.safeNum, Number_isFinite.
  destruct (is_finite (ToNumber v)) eqn:E; [exact E | reflexivity].
Qed.

Lemma ledger_entries_finite (res : FetchResult) :
  ∃ l, loadHistory res initialLedger = Some l
       ∧ Forall (fun e => ∀ s, ∃ v, values e s = Some v ∧ is_finite v = true)
           (history l).
Proof.
  destruct (loadHistory_cases res initialLedger)
    as [(txt & header & rows & mIdx & sorted & -> & Ep & Ei & _ & Hperm & _ & El)
       | El]; rewrite El; eexists; (split; [reflexivity|]); cbn [history];
    [|constructor].
  apply List.Forall_forall. intros e He.
  apply (Permutation_in _ (Permutation_sym Hperm)) in He.
  unfold rowsToEntries in He. apply list_elem_of_In in He.
  apply list_elem_of_omap in He as (r & Hr & Ee).
  apply entryOfRow_Some in Ee as [Hm Hv].
  intros s. eexists. split; [apply Hv|].
  destruct (findIndex (String.eqb (sourceName s)) header);
    [apply hist_safeNum_finite | reflexivity].
Qed.

(** X7.  Whatever the fetch of the historical CSV brings, the ingestion
    ends with a ledger, and every entry of it comes from a data row of the
    file: its month is the normalised month cell of that row, and for each
    of the eight sources it holds a finite number, the coerced cell under
    the first column whose trimmed header is exactly the name of the
    source, or 0 when there is no such column. *)
Theorem ledger_entries_come_from_rows (res : FetchResult) :
  ∃ l, loadHistory res initialLedger = Some l
       ∧ Forall
           (fun e =>
              (∀ s, ∃ v, values e s = Some v ∧ is_finite v = true)
              ∧ ∃ txt header rows mIdx r,
                  res = Response true (Some txt)
                  ∧ parseCSV txt = Normal (header, rows)
                  ∧ findIndex isMonthHeader header = Some mIdx
                  ∧ In r rows
                  ∧ normalizeMonth (r !! mIdx) = Some (month e)
                  ∧ ∀ s, values e s
                         = Some (match findIndex (String.eqb (sourceName s)) header with
                                 | Some i => safeNum (cell r i)
                                 | None => 0%float
                                 end))
           (history l).
Proof.
  destruct (loadHistory_cases res initialLedger)
    as [(txt & header & rows & mIdx & sorted & -> & Ep & Ei & _ & Hperm & _ & El)
       | El]; rewrite El; eexists; (split; [reflexivity|]); cbn [history];
    [|constructor].
  apply List.Forall_forall. intros e He.
  apply (Permutation_in _ (Permutation_sym Hperm)) in He.
  unfold rowsToEntries in He. apply list_elem_of_In in He.
  apply list_elem_of_omap in He as (r & Hr & Ee).
  apply list_elem_of_In in Hr.
  apply entryOfRow_Some in Ee as [Hm Hv]. split.
  - intros s. eexists. split; [apply Hv|].
    destruct (findIndex (String.eqb (sourceName s)) header);
      [apply hist_safeNum_finite | reflexivity].
  - exists txt, header, rows, mIdx, r. repeat split; assumption.
Qed.

(** *** Looking a month up in the ledger *)

Section Stable.
Context {A : Type} (cmp : A → A → option Z) (p : A → bool).

(** The comparator never puts one element that satisfies [p] after
    another. *)
Hypothesis cmp_same :
  ∀ x y c, p x = true → p y = true → cmp x y = Some c → c ≤ 0.

Lemma insertBy_filter (x : A) (l l' : list A) :
  insertBy cmp x l = Some l' → List.filter p l' = List.filter p (x :: l).
Proof.
  revert l'. induction l as [|y t IH]; intros l'; cbn [insertBy].
  - intros [= <-]. reflexivity.
  - destruct (cmp x y) as [c|] eqn:Ec; [|discriminate]. cbn [mbind option_bind].
    destruct (0 <? c) eqn:Epos; [|intros [= <-]; reflexivity].
    destruct (insertBy cmp x t) as [t'|]; [|discriminate].
    cbn [mbind option_bind]. intros [= <-].
    specialize (IH t' eq_refl). cbn [List.filter] in IH |- *. rewrite IH.
    destruct (p x) eqn:Ex, (p y) eqn:Ey; try reflexivity.
    apply Z.ltb_lt in Epos. specialize (cmp_same x y c Ex Ey Ec). lia.
Qed.

Lemma sortBy_filter (l l' : list A) :
  sortBy cmp l = Some l' → List.filter p l' = List.filter p l.
Proof.
  revert l'. induction l as [|x t IH]; intros l'; cbn [sortBy].
  - intros [= <-]. reflexivity.
  - destruct (sortBy cmp t) as [t'|]; [|discriminate]. cbn [mbind option_bind].
    intros E. apply insertBy_filter in E. rewrite E. cbn [List.filter].
    rewrite (IH t' eq_refl). reflexivity.
Qed.

End Stable.

Lemma find_filter {A} (p : A → bool) (l : list A) :
  List.find p l = head (List.filter p l).
Proof.
  induction l as [|x t IH]; [reflexivity|]. cbn [List.find List.filter].
  destruct (p x); [reflexivity | exact IH].
Qed.

Lemma compareMonth_same (k : string) (c : Z) : compareMonth k k = Some c → c = 0.
Proof.
  unfold compareMonth. destruct (monthAndYear k) as [[am|] [ay|]];
    try discriminate.
  - rewrite Z.eqb_refl. cbn [negb]. intros [= <-]. lia.
  - rewrite Z.eqb_refl. cbn [negb]. discriminate.
Qed.

(** X8.  When the historical CSV has been read, looking a month up in the
    ledger gives the entry of the first data row of the file, in the order
    of the file, whose month cell normalises to that month: the sort keeps
    the rows of one month in their order, so that a later row of the same
    month is never shown.  A month is found exactly when it is among the
    months of the ledger. *)
Theorem ledger_lookup_first_row_wins
  (txt : string) (header : list string) (rows : list (list string)) (mIdx : nat) :
  parseCSV txt = Normal (header, rows) →
  findIndex isMonthHeader header = Some mIdx →
  ∃ l, loadHistory (Response true (Some txt)) initialLedger = Some l
       ∧ ∀ k,
           HistoricalCard.findRow (history l) (Some k)
           = List.find (fun e => String.eqb (month e) k)
               (rowsToEntries header mIdx rows)
           ∧ (is_Some (HistoricalCard.findRow (history l) (Some k))
              ↔ In k (months l)).
Proof.
  intros Ep Ei.
  destruct (loadHistory_cases (Response true (Some txt)) initialLedger)
    as [(txt' & header' & rows' & mIdx' & sorted & [= <-] & Ep' & Ei' & Es & _ & _ & El)
       | El].
  - rewrite Ep in Ep'. injection Ep' as <- <-.
    rewrite Ei in Ei'. injection Ei' as <-.
    rewrite El. eexists. split; [reflexivity|]. intros k.
    cbn [history HistoricalCard.findRow]. split.
    + rewrite !find_filter. f_equal.
      apply (sortBy_filter (fun a b => compareMonth (month a) (month b))
               (fun e => String.eqb (month e) k)); [|exact Es].
      intros x y c Hx Hy. apply String.eqb_eq in Hx, Hy. rewrite Hx, Hy.
      intros Hc. apply compareMonth_same in Hc. lia.
    + unfold months. cbn [history]. rewrite in_map_iff. split.
      * intros [e He]. apply find_some in He as [Hin Hk].
        apply String.eqb_eq in Hk. eauto.
      * intros (e & Hk & Hin).
        destruct (List.find (fun e => String.eqb (month e) k) sorted) eqn:Ef;
          [eauto|].
        apply (find_none _ _ Ef) in Hin. cbn beta in Hin.
        rewrite Hk, String.eqb_refl in Hin. discriminate.
  - exfalso. unfold loadHistory, historyAttempt in El.
    cbn [mbind completion_bind negb] in El. rewrite Ep in El.
    cbn [mbind completion_bind] in El. rewrite Ei in El.
    cbn [mbind completion_bind tryCatch] in El.
    destruct (sortBy _ _) in El; discriminate El.
Qed.

Lemma ledger_lookup_first_row_wins_witness :
  ∃ l, loadHistory (Response true (Some duplicateMonthsCsv)) initialLedger = Some l
       ∧ ∀ k,
           HistoricalCard.findRow (history l) (Some k)
           = List.find (fun e => String.eqb (month e) k)
               (rowsToEntries ["Month"; "Coal"] 0
                  [["01/2023"; "1"]; ["31/12/2022"; "2"]; ["13-01-2023"; "3"]])
           ∧ (is_Some (HistoricalCard.findRow (history l) (Some k))
              ↔ In k (months l)).
Proof.
  apply (ledger_lookup_first_row_wins duplicateMonthsCsv); reflexivity.
Defined.

(** *** The latest month, the default start and the guard of the range *)

Lemma monthLe_refl (a : string) : monthLe a a.
Proof. unfold monthLe. lia. Qed.

Lemma StronglySorted_last {A} (R : A → A → Prop) (l : list A) (k : A) :
  (∀ x, R x x) → StronglySorted R l → last l = Some k → Forall (fun m => R m k) l.
Proof.
  intros Hrefl Hs. induction Hs as [|a t Hs IH Ha]; intros Hlast; [constructor|].
  destruct t as [|b t'].
  - injection Hlast as <-. constructor; [apply Hrefl | constructor].
  - rewrite last_cons_cons in Hlast. constructor; [|exact (IH Hlast)].
    apply last_Some_elem_of, list_elem_of_In in Hlast.
    rewrite List.Forall_forall in Ha. exact (Ha k Hlast).
Qed.

Lemma monthsBack_12 (mm yy : Z) :
  1 ≤ mm ≤ 12 → monthsBack mm yy 12 = (mm, yy - 1).
Proof.
  intros Hmm. unfold monthsBack.
  replace (12 * yy + (mm - 1) - Z.of_nat 12) with ((mm - 1) + (yy - 1) * 12) by lia.
  rewrite Z_mod_plus_full, Z_div_plus_full by lia.
  rewrite Z.mod_small, Z.div_small by lia. f_equal; lia.
Qed.

(** X9.  Whatever the fetch of the historical CSV brings, the month taken
    as the latest is the most recent month of the ledger: it is one of its
    months and none is later.  When its month number is from 1 to 12, the
    default start is the same month of the year before.  An empty ledger
    has no latest month, and the default start is the empty string. *)
Theorem latest_is_most_recent_month (res : FetchResult) :
  ∃ l, loadHistory res initialLedger = Some l
       ∧ match HistoricalCard.latest l with
         | Some k =>
             In k (months l) ∧ canonicalKey k
             ∧ (∀ m, In m (months l) → monthLe m k)
             ∧ ∃ mm yy,
                 monthAndYear k = (Some mm, Some yy)
                 ∧ (1 ≤ mm ≤ 12 →
                    HistoricalCard.defaultStart l = Some (formatKey (mm, yy - 1)))
         | None => history l = [] ∧ HistoricalCard.defaultStart l = Some EmptyString
         end.
Proof.
  destruct (loadHistory_cases res initialLedger)
    as [(txt & header & rows & mIdx & sorted & -> & Ep & Ei & _ & Hperm & Hs & El)
       | El]; rewrite El; eexists; (split; [reflexivity|]);
    [|split; reflexivity].
  unfold HistoricalCard.defaultStart, HistoricalCard.latest, months.
  cbn [history].
  destruct (last (List.map month sorted)) as [k|] eqn:Ek.
  - assert (Hin : In k (List.map month sorted)).
    { apply list_elem_of_In. eapply last_Some_elem_of. exact Ek. }
    assert (Hk : canonicalKey k).
    { apply in_map_iff in Hin as (e & <- & He).
      apply (Permutation_in _ (Permutation_sym Hperm)) in He.
      pose proof (rowsToEntries_canonical header mIdx rows) as Hall.
      rewrite List.Forall_forall in Hall. exact (Hall e He). }
    split; [exact Hin|]. split; [exact Hk|]. split.
    + apply List.Forall_forall.
      apply (StronglySorted_last monthLe _ k monthLe_refl); [|exact Ek].
      apply StronglySorted_map. exact Hs.
    + destruct (monthAndYear_canonical k Hk) as (mm & yy & Emy & _ & Hyy).
      exists mm, yy. split; [exact Emy|]. intros Hmm.
      apply canonicalKey_inv in Hk as (a & b & c & d & e & f & -> & _).
      cbn [isEmpty]. change 12%float with (ofZ 12).
      rewrite (minusMonths_unfold _ 12 mm yy Emy) by lia.
      change (Z.to_nat 12) with 12%nat.
      rewrite iter_monthBefore, monthsBack_12 by exact Hmm. reflexivity.
  - split; [|reflexivity].
    destruct sorted as [|e t]; [reflexivity|].
    apply last_None in Ek. discriminate Ek.
Qed.

Lemma compareMonth_sign (a b : string) :
  canonicalKey a → canonicalKey b →
  ∃ c, compareMonth a b = Some c ∧ (c ≤ 0 ↔ monthLe a b).
Proof.
  intros Ha Hb.
  destruct (monthAndYear_canonical a Ha) as (am & ay & Ea & _).
  destruct (monthAndYear_canonical b Hb) as (bm & by_ & Eb & _).
  unfold compareMonth, monthLe, keyOrder. rewrite Ea, Eb. simpl.
  destruct (ay =? by_) eqn:E; simpl.
  - apply Z.eqb_eq in E. eexists. split; [reflexivity|]. lia.
  - apply Z.eqb_neq in E. eexists. split; [reflexivity|]. lia.
Qed.

(** X10.  The guard of the range, run with two canonical keys, leaves a
    start that is not later than the end: the start is kept when it is not
    later than the end, and is replaced by the end otherwise; running the
    guard again changes nothing.  With no end selected, as long as the
    ledger is empty, the comparison reads a property of [undefined] and the
    effect throws, whatever the start. *)
Theorem rangeGuard_keeps_start_before_end (start end_ : string) :
  canonicalKey start → canonicalKey end_ →
  (∃ start',
     HistoricalCard.rangeGuard start (Some end_) = Normal (Some start')
     ∧ (monthLe start end_ → start' = start)
     ∧ (¬ monthLe start end_ → start' = end_)
     ∧ monthLe start' end_
     ∧ HistoricalCard.rangeGuard start' (Some end_) = Normal (Some start'))
  ∧ ∀ l s, history l = [] →
           HistoricalCard.rangeGuard s (HistoricalCard.latest l) = Throw "TypeError".
Proof.
  intros Hs He. split.
  - destruct (compareMonth_sign start end_ Hs He) as (c & Ec & Hc).
    destruct (compareMonth_sign end_ end_ He He) as (c' & Ec' & Hc').
    pose proof (proj2 Hc' (monthLe_refl end_)) as Hle.
    unfold HistoricalCard.rangeGuard. rewrite Ec. cbn [mbind option_bind].
    destruct (0 <? c) eqn:Epos.
    + apply Z.ltb_lt in Epos. exists end_. split; [reflexivity|].
      split; [intros H; apply Hc in H; lia|]. split; [reflexivity|].
      split; [apply monthLe_refl|].
      rewrite Ec'. cbn [mbind option_bind].
      destruct (0 <? c') eqn:Epos'; [apply Z.ltb_lt in Epos'; lia | reflexivity].
    + apply Z.ltb_ge in Epos. exists start. split; [reflexivity|].
      split; [reflexivity|]. split; [intros H; elim H; apply Hc; exact Epos|].
      split; [apply Hc; exact Epos|].
      rewrite Ec. cbn [mbind option_bind].
      destruct (0 <? c) eqn:Epos'; [apply Z.ltb_lt in Epos'; lia | reflexivity].
  - intros l s Hl. unfold HistoricalCard.latest, months. rewrite Hl. reflexivity.
Qed.

Lemma rangeGuard_keeps_start_before_end_witness :
  (∃ start',
     HistoricalCard.rangeGuard "03/2024" (Some "11/2023") = Normal (Some start')
     ∧ (monthLe "03/2024" "11/2023" → start' = "03/2024")
     ∧ (¬ monthLe "03/2024" "11/2023" → start' = "11/2023")
     ∧ monthLe start' "11/2023"
     ∧ HistoricalCard.rangeGuard start' (Some "11/2023") = Normal (Some start'))
  ∧ ∀ l s, history l = [] →
           HistoricalCard.rangeGuard s (HistoricalCard.latest l) = Throw "TypeError".
Proof.
  apply (rangeGuard_keeps_start_before_end "03/2024" "11/2023"); reflexivity.
Defined.

(** *** The net addition *)

Lemma finite_classes (x : number) :
  is_finite x = true →
  (∃ s, Prim2SF x = S754_zero s) ∨ (∃ s m e, Prim2SF x = S754_finite s m e).
Proof.
  unfold is_finite, is_nan, is_infinity.
  rewrite !FloatAxioms.eqb_spec, FloatAxioms.abs_spec.
  destruct (Prim2SF x) as [s|s| |s m e]; [eauto| | |eauto 6].
  - destruct s; discriminate.
  - discriminate.
Qed.

Lemma finite_minus_itself (x : number) :
  is_finite x = true → (x - x)%float = 0%float.
Proof.
  intros Hx. apply FloatAxioms.Prim2SF_inj. rewrite FloatAxioms.sub_spec.
  destruct (finite_classes x Hx) as [[s ->] | (s & m & e & ->)].
  - destruct s; reflexivity.
  - unfold SF64sub, SFsub. rewrite Z.sub_diag. reflexivity.
Qed.

(** X11.  Whatever the fetch of the historical CSV brings, comparing a
    month of the ledger with itself gives a net addition of exactly zero for
    every source, shown in the neutral colour; and so does a selection that
    is not a month of the ledger, for which no row is found. *)
Theorem net_addition_of_a_month_with_itself (res : FetchResult) :
  ∃ l, loadHistory res initialLedger = Some l
       ∧ ∀ key s,
           let row := HistoricalCard.findRow (history l) key in
           HistoricalCard.netAddition row row s = 0%float
           ∧ HistoricalCard.netColor (HistoricalCard.netAddition row row s)
             = "text-slate-700".
Proof.
  destruct (ledger_entries_finite res) as (l & El & Hall).
  exists l. split; [exact El|]. intros key s row.
  assert (E0 : HistoricalCard.netAddition row row s = 0%float).
  { subst row. destruct key as [k|]; [|reflexivity].
    cbn [HistoricalCard.findRow].
    destruct (List.find _ (history l)) as [e|] eqn:Ef; [|reflexivity].
    apply find_some in Ef as [Hin _].
    rewrite List.Forall_forall in Hall.
    destruct (Hall e Hin s) as (v & Ev & Hv).
    unfold HistoricalCard.netAddition, HistoricalCard.slotNumber.
    rewrite Ev. apply finite_minus_itself, Hv. }
  rewrite E0. split; reflexivity.
Qed.

(** *** The columns of the capacity CSV *)

(** The object that [parseCapacityCSV] fills from the header and the data
    row holds, under a name, the data cell below the last header cell with
    that name. *)
Lemma capacity_map_lookup (headers values : list string) (key : string) :
  ∀ (t pre : list string) (m : gmap string string),
    headers = pre ++ t →
    fold_left
      (fun m i =>
         <[RatedCapacityTsx.cellOr headers i := RatedCapacityTsx.cellOr values i]> m)
      (seq (length pre) (length t)) m !! key
    = match lastIndexOf key t with
      | Some i => Some (RatedCapacityTsx.cellOr values (length pre + i))
      | None => m !! key
      end.
Proof.
  induction t as [|x t IH]; intros pre m Hh; [reflexivity|].
  cbn [length seq fold_left lastIndexOf].
  assert (Hx : RatedCapacityTsx.cellOr headers (length pre) = x).
  { unfold RatedCapacityTsx.cellOr. rewrite Hh.
    rewrite lookup_app_r by lia. rewrite Nat.sub_diag. reflexivity. }
  rewrite Hx.
  specialize (IH (pre ++ [x])
                (<[x := RatedCapacityTsx.cellOr values (length pre)]> m)).
  rewrite length_app in IH. cbn [length] in IH.
  replace (length pre + 1)%nat with (S (length pre)) in IH by lia.
  rewrite IH by (rewrite <- app_assoc; exact Hh).
  destruct (lastIndexOf key t) as [i|].
  - do 2 f_equal. lia.
  - destruct (String.eqb_spec x key) as [->|Hne].
    + rewrite lookup_insert_eq. do 2 f_equal. lia.
    + rewrite lookup_insert_ne by exact Hne. reflexivity.
Qed.

Lemma forallb_false {A} (f : A → bool) (l : list A) :
  forallb f l = false → ∃ x, In x l ∧ f x = false.
Proof.
  induction l as [|x t IH]; [discriminate|]. cbn [forallb].
  destruct (f x) eqn:Ex; cbn [andb].
  - intros Ht. destruct (IH Ht) as (y & Hy & Ey). exists y. split; [right|]; assumption.
  - intros _. exists x. split; [left; reflexivity | exact Ex].
Qed.

(** X12.  The capacity CSV is read by the names of its columns: the first
    two non-blank lines are the header and the data row, cut at the commas
    and trimmed.  The result is null when there are fewer than two such
    lines, or when some source is no header cell; otherwise each source
    gets the coerced data cell below the last header cell with its name,
    and a data row that is too short counts as the empty string there, which
    is 0.  The order of the columns, further columns and further lines do
    not matter. *)
Theorem parseCapacityCSV_reads_columns_by_name (text : string) :
  let lines := filterBoolean (List.map trim (splitLines text)) in
  ((length lines < 2)%nat → RatedCapacityTsx.parseCapacityCSV text = None)
  ∧ ∀ line0 line1 rest,
      lines = line0 :: line1 :: rest →
      let headers := List.map trim (splitOn "," line0) in
      let values := List.map trim (splitOn "," line1) in
      (RatedCapacityTsx.parseCapacityCSV text = None
       ↔ ∃ k, lastIndexOf (sourceName k) headers = None)
      ∧ ∀ r, RatedCapacityTsx.parseCapacityCSV text = Some r →
             ∀ k, ∃ i, lastIndexOf (sourceName k) headers = Some i
                       ∧ r k = RatedCapacityTsx.safeNum
                                 (VStr (RatedCapacityTsx.cellOr values i)).
Proof.
  intros lines. split.
  - unfold RatedCapacityTsx.parseCapacityCSV. fold lines.
    destruct lines as [|l0 [|l1 rest]]; cbn [length]; intros Hlen;
      [reflexivity | reflexivity | lia].
  - intros line0 line1 rest Hlines headers values.
    unfold RatedCapacityTsx.parseCapacityCSV. fold lines. rewrite Hlines.
    fold headers. fold values.
    set (map := fold_left _ (seq 0 (length headers)) ∅).
    assert (Hmap : ∀ key, map !! key
              = match lastIndexOf key headers with
                | Some i => Some (RatedCapacityTsx.cellOr values i)
                | None => None
                end).
    { intros key. subst map.
      rewrite (capacity_map_lookup headers values key headers [] ∅ eq_refl).
      destruct (lastIndexOf key headers); reflexivity. }
    destruct (forallb _ SOURCES) eqn:Eall.
    + split.
      * split; [discriminate|]. intros [k Hk].
        rewrite forallb_forall in Eall. specialize (Eall k (In_SOURCES k)).
        apply bool_decide_eq_true in Eall. rewrite Hmap, Hk in Eall.
        destruct Eall; discriminate.
      * intros r [= <-] k.
        rewrite forallb_forall in Eall. specialize (Eall k (In_SOURCES k)).
        apply bool_decide_eq_true in Eall. rewrite Hmap in Eall |- *.
        destruct (lastIndexOf (sourceName k) headers) as [i|];
          [eauto | destruct Eall; discriminate].
    + split; [|discriminate]. split; [|reflexivity]. intros _.
      apply forallb_false in Eall as (k & _ & Hk). exists k.
      apply bool_decide_eq_false in Hk. rewrite Hmap in Hk.
      destruct (lastIndexOf (sourceName k) headers) eqn:Ek; [|reflexivity].
      exfalso. apply Hk. eauto.
Qed.

(** *** What a mount finds in the storage *)

Section Reload.
Context `{JSON}.

Import RatedCapacityTsx.

(** X13.  On mount, from any state, the capacity CSV is requested exactly
    when the storage holds no record under the key of the installed
    capacity.  When it holds one (it can be read and holds there a
    non-empty JSON text of an object or an array in which no value of a
    source makes the coercion throw), the effect ends without a request,
    even if the object has no source at all: each source present takes its
    coerced value and the others keep theirs.  In every other case, which
    is when the storage cannot be read, the key is absent or empty, its
    text is no JSON or the JSON of null or of a scalar, or the value of a
    source makes the coercion throw, the one request is issued and the
    installed capacity is left as it was. *)
Theorem capacity_csv_requested_iff_no_record_stored (ls : Storage) (s : State) :
  (∀ obj,
     persisted ls LS_INSTALLED obj →
     ∃ s', mountEffect ls s = Settled s' ∧ csvLoaded s' = true
           ∧ ∀ k, installed s' k = match propOf obj k with
                                   | Some v => safeNum v
                                   | None => installed s k
                                   end)
  ∧ ((readable ls = false
      ∨ items ls !! LS_INSTALLED = None
      ∨ items ls !! LS_INSTALLED = Some EmptyString
      ∨ ∃ raw, items ls !! LS_INSTALLED = Some raw
               ∧ (JSON_parse raw = None
                  ∨ ∃ obj, JSON_parse raw = Some obj
                           ∧ (truthy obj = false ∨ typeofObject obj = false
                              ∨ ∃ k, throwingSlot obj k = true))) →
     ∃ s1, mountEffect ls s = Fetching s1 "/data/Capacity.csv" csvCompletion
           ∧ installed s1 = installed s)
  ∧ ((∃ s1 url resume, mountEffect ls s = Fetching s1 url resume)
     ↔ ∀ obj, ¬ persisted ls LS_INSTALLED obj).
Proof.
  assert (Hsettled : ∀ obj,
            persisted ls LS_INSTALLED obj →
            ∃ s', mountEffect ls s = Settled s' ∧ csvLoaded s' = true
                  ∧ ∀ k, installed s' k = match propOf obj k with
                                          | Some v => safeNum v
                                          | None => installed s k
                                          end).
  { intros obj Hobj.
    destruct (loadLS_persisted _ _ _ Hobj) as (stored & El & Hslots).
    unfold mountEffect. rewrite El. eexists. split; [reflexivity|].
    split; [reflexivity|]. intros k.
    cbn [installed]. rewrite overlay_slot, Hslots.
    destruct (propOf obj k) as [v|].
    + apply tsx_safeNum_id, tsx_safeNum_finite.
    + destruct (loadLS LS_PLF ls); reflexivity. }
  assert (Hfetch : (∀ obj, ¬ persisted ls LS_INSTALLED obj) →
            ∃ s1, mountEffect ls s = Fetching s1 "/data/Capacity.csv" csvCompletion
                  ∧ installed s1 = installed s).
  { intros Hno. unfold mountEffect.
    destruct (loadLS LS_INSTALLED ls) as [stored|] eqn:El.
    + exfalso. apply loadLS_Some in El as (obj & Hobj & _). exact (Hno obj Hobj).
    + eexists. split; [reflexivity|].
      destruct (loadLS LS_PLF ls); reflexivity. }
  split; [exact Hsettled|]. split.
  - intros Hcase. apply Hfetch.
    intros obj (Hread & (raw & Hraw & Hne & Hparse) & Ht & Ho & Hthrow).
    destruct Hcase as [Hr | [Hnone | [Hempty | (raw' & Hraw' & Hbad)]]];
      [congruence | congruence | congruence |].
    rewrite Hraw in Hraw'. injection Hraw' as <-.
    destruct Hbad as [Hp | (obj' & Hp & Hbad)]; [congruence|].
    rewrite Hparse in Hp. injection Hp as <-.
    destruct Hbad as [Hf | [Hf | [k Hk]]]; [congruence | congruence |].
    rewrite Hthrow in Hk. discriminate.
  - split.
    + intros (s1 & url & resume & Em) obj Hobj.
      destruct (Hsettled obj Hobj) as (s' & Es & _). congruence.
    + intros Hno. destruct (Hfetch Hno) as (s1 & Em & _). eauto.
Qed.

Lemma keys_differ : LS_PLF ≠ LS_INSTALLED.
Proof. discriminate. Qed.

(** X14.  What the two save effects write is what the next mount restores:
    for a state of finite numbers, when the storage can be written and read
    and the JSON texts written for the two records parse back to objects
    with the same numbers, a mount on the storage left by the save effects
    ends without a request for the CSV, and the installed capacity and the
    PLF it restores are strictly equal, source by source, to those saved,
    whatever the state it starts from. *)
Theorem reload_restores_saved_state (s s0 : State) (ls : Storage) :
  finiteRecord (installed s) → finiteRecord (plf s) →
  readable ls = true → writable ls = true →
  JSON_stringify (recordValue (installed s)) ≠ EmptyString →
  JSON_parse (JSON_stringify (recordValue (installed s)))
  = Some (recordValue (fun k => jsonNumber (installed s k))) →
  JSON_stringify (recordValue (plf s)) ≠ EmptyString →
  JSON_parse (JSON_stringify (recordValue (plf s)))
  = Some (recordValue (fun k => jsonNumber (plf s k))) →
  ∃ s', mountEffect (saveEffects s ls) s0 = Settled s'
        ∧ csvLoaded s' = true
        ∧ ∀ k, strictEq (installed s k) (installed s' k)
               ∧ strictEq (plf s k) (plf s' k).
Proof.
  intros Hi Hp Hread Hwrite Hine Hiparse Hpne Hpparse.
  set (ls' := saveEffects s ls).
  assert (Hls' : readable ls' = true
                 ∧ items ls' !! LS_INSTALLED
                   = Some (JSON_stringify (recordValue (installed s)))
                 ∧ items ls' !! LS_PLF
                   = Some (JSON_stringify (recordValue (plf s)))).
  { subst ls'. unfold saveEffects, saveLS, setItem. rewrite Hwrite.
    cbn [tryCatch writable]. rewrite ?Hwrite. cbn [tryCatch readable items].
    split; [exact Hread|]. split.
    - rewrite lookup_insert_ne by exact keys_differ. apply lookup_insert_eq.
    - apply lookup_insert_eq. }
  destruct Hls' as (Hread' & Hinst & Hplf).
  assert (Hnum : ∀ r : SourceRecord number, ∀ k,
            throwingSlot (recordValue r) k = false).
  { intros r k. unfold throwingSlot, recordValue.
    rewrite propOf_recordProps. reflexivity. }
  destruct (loadLS_persisted LS_INSTALLED ls'
              (recordValue (fun k => jsonNumber (installed s k))))
    as (instLS & Ei & Hislots).
  { split; [exact Hread'|]. split; [eauto|].
    split; [reflexivity|]. split; [reflexivity|]. apply Hnum. }
  destruct (loadLS_persisted LS_PLF ls'
              (recordValue (fun k => jsonNumber (plf s k))))
    as (plfLS & Ep & Hpslots).
  { split; [exact Hread'|]. split; [eauto|].
    split; [reflexivity|]. split; [reflexivity|]. apply Hnum. }
  unfold mountEffect. rewrite Ei, Ep. eexists. split; [reflexivity|].
  split; [reflexivity|]. intros k. cbn [installed plf].
  rewrite !overlay_slot, Hislots, Hpslots.
  unfold recordValue. rewrite !propOf_recordProps.
  rewrite !(tsx_safeNum_id (safeNum _)) by apply tsx_safeNum_finite.
  rewrite !tsx_safeNum_id by (apply jsonNumber_finite; auto).
  split; apply jsonNumber_strictEq; auto.
Qed.

End Reload.

(** The mount at a storage whose installed record holds, for coal, an
    object with a property named toString: the coercion throws, and the CSV
    is requested. *)
Lemma capacity_csv_requested_iff_no_record_stored_witness :
  ∃ s1, RatedCapacityTsx.mountEffect (H := toStringJSON) toStringStorage
          RatedCapacityTsx.initialState
        = RatedCapacityTsx.Fetching s1 "/data/Capacity.csv"
            RatedCapacityTsx.csvCompletion
        ∧ RatedCapacityTsx.installed s1
          = RatedCapacityTsx.installed RatedCapacityTsx.initialState.
Proof.
  apply (proj1 (proj2 (capacity_csv_requested_iff_no_record_stored
                         (H := toStringJSON) toStringStorage
                         RatedCapacityTsx.initialState))).
  right; right; right. exists toStringText. split; [reflexivity|].
  right. exists toStringRecord. split; [reflexivity|].
  right; right. exists Coal. reflexivity.
Defined.

(** The reload at the record of the scenario with a PLF of 60 everywhere,
    with the codec for integers and an empty storage. *)
Lemma reload_restores_saved_state_witness :
  let s := {| RatedCapacityTsx.installed := scenarioRecord;
              RatedCapacityTsx.plf := fun _ => 60%float;
              RatedCapacityTsx.csvLoaded := false |} in
  ∃ s', RatedCapacityTsx.mountEffect (H := integerJSON)
          (RatedCapacityTsx.saveEffects (H := integerJSON) s emptyStorage)
          (RatedCapacityTsx.initialState)
        = RatedCapacityTsx.Settled s'
        ∧ RatedCapacityTsx.csvLoaded s' = true
        ∧ ∀ k, strictEq (RatedCapacityTsx.installed s k)
                 (RatedCapacityTsx.installed s' k)
               ∧ strictEq (RatedCapacityTsx.plf s k) (RatedCapacityTsx.plf s' k).
Proof.
  intros s.
  apply (reload_restores_saved_state (H := integerJSON) s).
  - intros k; destruct k; reflexivity.
  - intros k; reflexivity.
  - reflexivity.
  - reflexivity.
  - vm_compute. discriminate.
  - vm_compute. reflexivity.
  - vm_compute. discriminate.
  - vm_compute. reflexivity.
Defined.

Section RestoreUnchecked.
Context `{JSON}.

(** X15.  In [RatedCapacity.tsx] the PLF restored on mount is not bounded:
    when the storage holds a record under the key of the PLF (it can be
    read and holds there a non-empty JSON text of an object in which no
    value of a source makes the coercion throw), each source that the
    object has takes the coerced stored value as it is, and the others keep
    what they had.  The bounds from 0 to 100 are applied to what is typed,
    not to what is restored. *)
Theorem restored_plf_is_not_bounded
  (ls : Storage) (s : RatedCapacityTsx.State) (obj : value) :
  persisted ls RatedCapacityTsx.LS_PLF obj →
  ∀ k, RatedCapacityTsx.plf (handle (Mount ls) s) k
       = match propOf obj k with
         | Some v => RatedCapacityTsx.safeNum v
         | None => RatedCapacityTsx.plf s k
         end.
Proof.
  intros Hobj k.
  destruct (loadLS_persisted _ _ _ Hobj) as (stored & El & Hslots).
  cbn [handle]. unfold RatedCapacityTsx.mountEffect. rewrite El.
  destruct (RatedCapacityTsx.loadLS RatedCapacityTsx.LS_INSTALLED ls);
    cbn [RatedCapacityTsx.plf]; rewrite overlay_slot, Hslots;
    (destruct (propOf obj k) as [v|];
     [apply tsx_safeNum_id, tsx_safeNum_finite | reflexivity]).
Qed.

(** X16.  The second variant restores a record without any check: when the
    storage can be read and holds under the key a non-empty JSON text, each
    source that the parsed object has takes the stored value as it is, of
    whatever type, and the others are 0; when the storage cannot be read,
    the key is absent or empty, or its text is no JSON, every source is
    0. *)
Theorem second_variant_restore_is_unchecked (key : string) (ls : Storage) :
  (∀ raw obj,
     readable ls = true → items ls !! key = Some raw → raw ≠ EmptyString →
     JSON_parse raw = Some obj →
     ∀ k, HistoricalTab.initRecord key ls k
          = match propOf obj k with
            | Some v => v
            | None => VNum 0
            end)
  ∧ ((readable ls = false ∨ items ls !! key = None
      ∨ items ls !! key = Some EmptyString
      ∨ ∃ raw, items ls !! key = Some raw ∧ JSON_parse raw = None) →
     ∀ k, HistoricalTab.initRecord key ls k = VNum 0).
Proof.
  assert (Hbase : ∀ k,
            fold_left (fun (b : SourceRecord value) s => setSlot b s (VNum 0))
              SOURCES (fun _ => VNum 0) k = VNum 0).
  { intros k; destruct k; reflexivity. }
  split.
  - intros raw obj Hread Hraw Hne Hparse k.
    unfold HistoricalTab.initRecord, getItem. rewrite Hread.
    cbn [mbind completion_bind].
    rewrite Hraw, (isEmpty_false _ Hne), Hparse. cbn [tryCatch].
    unfold HistoricalTab.Object_assign.
    destruct (propOf obj k); [reflexivity | apply Hbase].
  - intros Hcase k. unfold HistoricalTab.initRecord, getItem.
    destruct Hcase as [Hread | [Hnone | [Hempty | (raw & Hraw & Hparse)]]].
    + rewrite Hread. apply Hbase.
    + destruct (readable ls); [|apply Hbase].
      cbn [mbind completion_bind]. rewrite Hnone. apply Hbase.
    + destruct (readable ls); [|apply Hbase].
      cbn [mbind completion_bind]. rewrite Hempty. apply Hbase.
    + destruct (readable ls); [|apply Hbase].
      cbn [mbind completion_bind]. rewrite Hraw.
      destruct (isEmpty raw); [apply Hbase|]. rewrite Hparse. apply Hbase.
Qed.

End RestoreUnchecked.

(** The two restores at a storage that holds a PLF of 150 for coal, with
    the codec for integers. *)
Lemma restored_plf_is_not_bounded_witness :
  RatedCapacityTsx.plf
    (handle (H := integerJSON) (Mount plf150Storage) RatedCapacityTsx.initialState)
    Coal
  = 150%float.
Proof.
  apply (restored_plf_is_not_bounded (H := integerJSON) plf150Storage
           RatedCapacityTsx.initialState (VObj [("Coal", VNum 150)])).
  split; [reflexivity|]. split.
  - eexists. split; [reflexivity|]. split; [discriminate | reflexivity].
  - split; [reflexivity|]. split; [reflexivity|].
    intros k; destruct k; reflexivity.
Defined.

Lemma second_variant_restore_is_unchecked_witness :
  HistoricalTab.initRecord (H := integerJSON) PLF_KEY plf150Storage Coal = VNum 150
  ∧ HistoricalTab.initRecord (H := integerJSON) PLF_KEY emptyStorage Coal = VNum 0.
Proof.
  split.
  - exact (proj1 (second_variant_restore_is_unchecked (H := integerJSON)
                    PLF_KEY plf150Storage)
             _ (VObj [("Coal", VNum 150)])
             eq_refl eq_refl ltac:(discriminate) eq_refl Coal).
  - exact (proj2 (second_variant_restore_is_unchecked (H := integerJSON)
                    PLF_KEY emptyStorage)
             (or_intror (or_introl eq_refl)) Coal).
Defined.

(** *** When the advisory of the historical card is set *)

(** X17.  Whatever the fetch of the historical CSV brings, the ingestion
    ends either with no advisory, or with the advisory and an empty ledger;
    and there is no advisory exactly when a response that is ok was read,
    its text has a non-empty line, and a field of the first such line,
    trimmed and in lower case, is the word month.  The rows play no part:
    one whose month is not recognised is left out without a notice. *)
Theorem advisory_iff_no_month_header (res : FetchResult) :
  ∃ l, loadHistory res initialLedger = Some l
       ∧ (err l = None ∨ (err l = Some notLoaded ∧ history l = []))
       ∧ (err l = None
          ↔ ∃ txt first rest,
              res = Response true (Some txt)
              ∧ filterBoolean (splitLines txt) = first :: rest
              ∧ is_Some (findIndex isMonthHeader (parseLine first))).
Proof.
  destruct (loadHistory_cases res initialLedger)
    as [(txt & header & rows & mIdx & sorted & -> & Ep & Ei & _ & _ & _ & El)
       | El]; rewrite El; eexists; (split; [reflexivity|]); cbn [err history].
  - split; [left; reflexivity|]. split; [intros _|reflexivity].
    unfold parseCSV in Ep.
    destruct (filterBoolean (splitLines txt)) as [|first rest] eqn:Hlines;
      [discriminate Ep|].
    cbn [lookup list_lookup mbind completion_bind] in Ep.
    injection Ep as <- _. exists txt, first, rest.
    split; [reflexivity|]. split; [exact Hlines|]. rewrite Ei. eauto.
  - split; [right; split; reflexivity|]. split; [discriminate|].
    intros (txt & first & rest & -> & Hlines & [mIdx Ei]). exfalso.
    unfold loadHistory, historyAttempt, parseCSV in El.
    cbn [negb mbind completion_bind] in El. rewrite Hlines in El.
    cbn [lookup list_lookup mbind completion_bind] in El.
    rewrite Ei in El. cbn [mbind completion_bind] in El.
    destruct (sort_entries
                (rowsToEntries (parseLine first) mIdx
                   (List.map parseLine (drop 1 (first :: rest))))
                (rowsToEntries_canonical _ _ _))
      as (sorted & Es & _).
    rewrite Es in El. discriminate El.
Qed.

(** *** Going back by months, twice *)

Lemma splitOn_none (sep : ascii) (b : string) :
  existsb (fun c => Ascii.eqb c sep) (list_ascii_of_string b) = false →
  splitOn sep b = [b].
Proof.
  induction b as [|c r IH]; [reflexivity|]. cbn [list_ascii_of_string existsb].
  intros Hb. apply orb_false_iff in Hb as [Hc Hr].
  cbn [splitOn]. rewrite Hc, (IH Hr). reflexivity.
Qed.

Lemma splitOn_two (sep : ascii) (a b : string) :
  existsb (fun c => Ascii.eqb c sep) (list_ascii_of_string a) = false →
  existsb (fun c => Ascii.eqb c sep) (list_ascii_of_string b) = false →
  splitOn sep (a +:+ String sep b) = [a; b].
Proof.
  intros Ha Hb. induction a as [|c r IH].
  - change (EmptyString +:+ String sep b) with (String sep b).
    cbn [splitOn]. rewrite Ascii.eqb_refl, (splitOn_none _ _ Hb). reflexivity.
  - cbn [list_ascii_of_string existsb] in Ha.
    apply orb_false_iff in Ha as [Hc Hr].
    change (String c r +:+ String sep b) with (String c (r +:+ String sep b)).
    cbn [splitOn]. rewrite Hc, (IH Hr). reflexivity.
Qed.

(** Printing and reading back a month from 1 to 12 and a year from 0 to
    9999, by enumeration. *)
Lemma print_read_all :
  forallb
    (fun n =>
       negb (existsb (fun c => Ascii.eqb c "/")
               (list_ascii_of_string (padStart2 (IntegerToString (Z.of_nat n)))))
       && match StringToInteger (padStart2 (IntegerToString (Z.of_nat n))) with
          | Some z => z =? Z.of_nat n
          | None => false
          end)
    (seq 1 12)
  && forallb
       (fun n =>
          negb (existsb (fun c => Ascii.eqb c "/")
                  (list_ascii_of_string (IntegerToString (Z.of_nat n))))
          && match StringToInteger (IntegerToString (Z.of_nat n)) with
             | Some z => z =? Z.of_nat n
             | None => false
             end)
       (seq 0 (100 * 100))
  = true.
Proof. vm_compute. reflexivity. Qed.

Lemma monthAndYear_formatKey (mm yy : Z) :
  1 ≤ mm ≤ 12 → 0 ≤ yy ≤ 9999 →
  monthAndYear (formatKey (mm, yy)) = (Some mm, Some yy).
Proof.
  intros Hmm Hyy. pose proof print_read_all as Hall.
  apply andb_prop in Hall as [Hm Hy]. rewrite forallb_forall in Hm, Hy.
  specialize (Hm (Z.to_nat mm)). specialize (Hy (Z.to_nat yy)).
  rewrite in_seq in Hm, Hy. rewrite !Z2Nat.id in Hm, Hy by lia.
  specialize (Hm ltac:(lia)). specialize (Hy ltac:(lia)).
  apply andb_prop in Hm as [Hm1 Hm2]. apply andb_prop in Hy as [Hy1 Hy2].
  apply negb_true_iff in Hm1, Hy1.
  unfold formatKey, monthAndYear. cbn [fst snd].
  change ("/" +:+ IntegerToString yy) with (String "/" (IntegerToString yy)).
  rewrite (splitOn_two _ _ _ Hm1 Hy1).
  cbn [List.map lookup list_lookup mjoin option_join].
  destruct (StringToInteger (padStart2 (IntegerToString mm))) as [zm|];
    [|discriminate].
  destruct (StringToInteger (IntegerToString yy)) as [zy|]; [|discriminate].
  apply Z.eqb_eq in Hm2, Hy2. subst. reflexivity.
Qed.

(** X18.  Going back by months adds up and never goes forward: from a
    canonical key whose month is from 1 to 12, with counts [a] and [b] that
    are integers whose sum is at most 2^53, and as long as the year reached
    is not before 0, going back [a] months gives a key from which going
    back [b] more months is going back [a + b] months from the first; the
    key reached is not later than the first, and is the first only for
    [a = 0]. *)
Theorem minusMonths_adds_up (m : string) (a b : nat) (mm yy : Z) :
  canonicalKey m → monthAndYear m = (Some mm, Some yy) →
  1 ≤ mm ≤ 12 → Z.of_nat a ≤ 12 * yy + (mm - 1) →
  Z.of_nat (a + b) ≤ 2 ^ 53 →
  ∃ k c,
    minusMonths m (ofZ (Z.of_nat a)) = Some k
    ∧ minusMonths k (ofZ (Z.of_nat b)) = minusMonths m (ofZ (Z.of_nat (a + b)))
    ∧ compareMonth k m = Some c ∧ c ≤ 0 ∧ (c = 0 ↔ a = 0%nat).
Proof.
  intros Hm Emy Hmm Ha Hab.
  destruct (monthAndYear_canonical m Hm) as (mm0 & yy0 & Emy0 & _ & Hyy).
  rewrite Emy in Emy0. injection Emy0 as <- <-.
  set (t := 12 * yy + (mm - 1) - Z.of_nat a).
  assert (Hback : monthsBack mm yy a = (t mod 12 + 1, t / 12)) by reflexivity.
  assert (Hmod : 0 ≤ t mod 12 < 12) by (apply Z.mod_pos_bound; lia).
  assert (Hdiv : 0 ≤ t / 12 ≤ 9999).
  { subst t. split; [apply Z.div_pos; lia|].
    apply Z.lt_succ_r. apply Z.div_lt_upper_bound; lia. }
  assert (Hk : monthAndYear (formatKey (monthsBack mm yy a))
               = (Some (t mod 12 + 1), Some (t / 12))).
  { rewrite Hback. apply monthAndYear_formatKey; lia. }
  exists (formatKey (monthsBack mm yy a)).
  exists (if negb (t / 12 =? yy) then t / 12 - yy else t mod 12 + 1 - mm).
  split; [|split; [|split; [|split]]].
  - rewrite (minusMonths_unfold _ _ mm yy Emy) by lia.
    rewrite Nat2Z.id, iter_monthBefore by exact Hmm. reflexivity.
  - rewrite (minusMonths_unfold _ _ _ _ Hk) by lia.
    rewrite (minusMonths_unfold _ _ mm yy Emy) by lia.
    rewrite !Nat2Z.id, !iter_monthBefore by lia.
    do 2 f_equal. unfold monthsBack.
    replace (12 * (t / 12) + (t mod 12 + 1 - 1) - Z.of_nat b)
      with (12 * yy + (mm - 1) - Z.of_nat (a + b)); [reflexivity|].
    pose proof (Z.div_mod t 12). subst t. lia.
  - unfold compareMonth. rewrite Hk, Emy.
    destruct (negb (t / 12 =? yy)); reflexivity.
  - destruct (Z.eqb_spec (t / 12) yy) as [E|E]; cbn [negb].
    + pose proof (Z.div_mod t 12). subst t. lia.
    + assert (t / 12 ≤ yy); [|lia].
      subst t. apply Z.lt_succ_r. apply Z.div_lt_upper_bound; lia.
  - destruct (Z.eqb_spec (t / 12) yy) as [E|E]; cbn [negb].
    + pose proof (Z.div_mod t 12). subst t. lia.
    + split; [lia|]. intros ->. exfalso. apply E. subst t.
      replace (12 * yy + (mm - 1) - Z.of_nat 0) with ((mm - 1) + yy * 12) by lia.
      rewrite Z_div_plus_full by lia. rewrite Z.div_small by lia. lia.
Qed.

Lemma minusMonths_adds_up_witness :
  ∃ k c,
    minusMonths "03/2023" (ofZ (Z.of_nat 5)) = Some k
    ∧ minusMonths k (ofZ (Z.of_nat 7))
      = minusMonths "03/2023" (ofZ (Z.of_nat (5 + 7)))
    ∧ compareMonth k "03/2023" = Some c ∧ c ≤ 0 ∧ (c = 0 ↔ 5%nat = 0%nat).
Proof.
  apply (minusMonths_adds_up "03/2023" 5 7 3 2023);
    [reflexivity | reflexivity | lia | lia | lia].
Defined.

(** *** Totals and unusable slots *)

Lemma fold_sum_ext (f g : SourceKey → number) (l : list SourceKey) (a : number) :
  (∀ k, f k = g k) →
  fold_left (fun a k => (a + f k)%float) l a
  = fold_left (fun a k => (a + g k)%float) l a.
Proof.
  intros Hfg. revert a. induction l as [|k l IH]; intros a; [reflexivity|].
  cbn [fold_left]. rewrite Hfg. apply IH.
Qed.

(** X19.  In the second variant a total counts a slot that does not
    convert to a finite number as 0: after an edit whose input is no finite
    number, which stores NaN or an infinity in the slot, the total of the
    record is that of the record with 0 there, while the slot itself keeps
    the value stored. *)
Theorem total_counts_unusable_slot_as_zero
  (r : SourceRecord value) (s : SourceKey) (input : string) :
  is_finite (StringToNumber input) = false →
  sumSources (HistoricalTab.onChangeInstalled s input r)
  = sumSources (setSlot r s (VNum 0))
  ∧ HistoricalTab.onChangeInstalled s input r s = VNum (StringToNumber input).
Proof.
  intros Hbad. split.
  - unfold sumSources. apply fold_sum_ext. intros k.
    unfold HistoricalTab.onChangeInstalled, setSlot.
    destruct (decide (k = s)); [|reflexivity].
    unfold HistoricalTab.safeNum, Number_isFinite. cbn [ToNumber].
    rewrite Hbad. reflexivity.
  - unfold HistoricalTab.onChangeInstalled, setSlot.
    rewrite decide_True by reflexivity. reflexivity.
Qed.

Lemma total_counts_unusable_slot_as_zero_witness :
  sumSources (HistoricalTab.onChangeInstalled Solar "12 GW"
                (fun k => VNum (scenarioRecord k)))
  = sumSources (setSlot (fun k => VNum (scenarioRecord k)) Solar (VNum 0))
  ∧ HistoricalTab.onChangeInstalled Solar "12 GW"
      (fun k => VNum (scenarioRecord k)) Solar
    = VNum (StringToNumber "12 GW").
Proof.
  apply (total_counts_unusable_slot_as_zero _ Solar "12 GW"). reflexivity.
Defined.

(** *** Line endings *)

Lemma splitLines_plain_char (c : ascii) (x : string) :
  Ascii.eqb c "010" = false → Ascii.eqb c "013" = false →
  splitLines (String c x) = consHead c (splitLines x).
Proof.
  intros Hlf Hcr. destruct x as [|c' x']; cbn [splitLines]; rewrite Hlf, ?Hcr;
    reflexivity.
Qed.

Lemma splitLines_plain (l : string) : plainLine l = true → splitLines l = [l].
Proof.
  induction l as [|c r IH]; [reflexivity|]. cbn [plainLine].
  intros Hl. apply andb_prop in Hl as [Hc Hr]. apply andb_prop in Hc as [Hlf Hcr].
  apply negb_true_iff in Hlf, Hcr.
  rewrite splitLines_plain_char, (IH Hr) by assumption. reflexivity.
Qed.

Lemma splitLines_ending (l rest : string) :
  plainLine l = true →
  splitLines (l +:+ lf +:+ rest) = l :: splitLines rest
  ∧ splitLines (l +:+ crlf +:+ rest) = l :: splitLines rest.
Proof.
  induction l as [|c r IH]; [intros _; split; reflexivity|]. cbn [plainLine].
  intros Hl. apply andb_prop in Hl as [Hc Hr]. apply andb_prop in Hc as [Hlf Hcr].
  apply negb_true_iff in Hlf, Hcr. destruct (IH Hr) as [IH1 IH2].
  change (String c r +:+ lf +:+ rest) with (String c (r +:+ lf +:+ rest)).
  change (String c r +:+ crlf +:+ rest) with (String c (r +:+ crlf +:+ rest)).
  rewrite !splitLines_plain_char, IH1, IH2 by assumption. split; reflexivity.
Qed.

Lemma splitLines_joined (ls : list string) :
  ls ≠ [] → Forall (fun l => plainLine l = true) ls →
  splitLines (String.concat lf ls) = ls
  ∧ splitLines (String.concat crlf ls) = ls.
Proof.
  intros Hne Hall. induction Hall as [|l t Hl Ht IH]; [contradiction|].
  destruct t as [|l' t'].
  - cbn [String.concat]. rewrite splitLines_plain by exact Hl. split; reflexivity.
  - destruct (IH ltac:(discriminate)) as [IH1 IH2].
    change (String.concat lf (l :: l' :: t'))
      with (l +:+ lf +:+ String.concat lf (l' :: t')).
    change (String.concat crlf (l :: l' :: t'))
      with (l +:+ crlf +:+ String.concat crlf (l' :: t')).
    rewrite (proj1 (splitLines_ending l _ Hl)), (proj2 (splitLines_ending l _ Hl)).
    rewrite IH1, IH2. split; reflexivity.
Qed.

(** X20.  The two line endings are read alike: lines that hold neither a
    line feed nor a carriage return, joined by line feeds or by a carriage
    return and a line feed each, are split into the same lines again, so
    that both CSV parsers return for the one file what they return for the
    other. *)
Theorem line_endings_are_read_alike (ls : list string) :
  ls ≠ [] → Forall (fun l => plainLine l = true) ls →
  splitLines (String.concat lf ls) = ls
  ∧ splitLines (String.concat crlf ls) = ls
  ∧ parseCSV (String.concat crlf ls) = parseCSV (String.concat lf ls)
  ∧ RatedCapacityTsx.parseCapacityCSV (String.concat crlf ls)
    = RatedCapacityTsx.parseCapacityCSV (String.concat lf ls).
Proof.
  intros Hne Hall. destruct (splitLines_joined ls Hne Hall) as [H1 H2].
  split; [exact H1|]. split; [exact H2|].
  unfold parseCSV, RatedCapacityTsx.parseCapacityCSV. rewrite H1, H2.
  split; reflexivity.
Qed.

Lemma line_endings_are_read_alike_witness :
  splitLines (String.concat lf ["Month,Coal"; "01/2023,5"])
  = ["Month,Coal"; "01/2023,5"]
  ∧ splitLines (String.concat crlf ["Month,Coal"; "01/2023,5"])
    = ["Month,Coal"; "01/2023,5"]
  ∧ parseCSV (String.concat crlf ["Month,Coal"; "01/2023,5"])
    = parseCSV (String.concat lf ["Month,Coal"; "01/2023,5"])
  ∧ RatedCapacityTsx.parseCapacityCSV (String.concat crlf ["Month,Coal"; "01/2023,5"])
    = RatedCapacityTsx.parseCapacityCSV (String.concat lf ["Month,Coal"; "01/2023,5"]).
Proof.
  apply (line_endings_are_read_alike ["Month,Coal"; "01/2023,5"]).
  - discriminate.
  - repeat constructor.
Defined.
